(** * bugview (jirapub.js): the sanitising projector, the link renderer and
    the fallback markup converter, embedded in Rocq.

    The development follows [src/jirapub.js]: [allow_issue],
    [format_issue_assemble], [fix_url], [format_remote_link], [prefmtok] and
    [parse_jira_markup].

    JSON values delivered by the issue tracker are modelled dynamically
    ([Js.jsval]): an object is a finite map from property names to values
    (the order of the properties, which only shows in the serialised text,
    is not kept).  Property reads that raise in JavaScript raise in the
    model ([Js.result]).  A character is a UTF-16 code unit below 256
    ([ascii]); a JavaScript string is a [string].  What the program logs is
    returned along with its result.  The packages the program calls
    ([ent], [url]) are parameters of the definitions that use them. *)

From Stdlib Require Import ZArith Lia Ascii.
From stdpp Require Import base option list strings gmap pretty.

Local Set Warnings "-register-all".

(** ** JavaScript values and the operations the program applies to them *)

Module Js.

(** JSON values, plus [undefined] for what a read of a missing property
    yields.  Numbers are the integers (counts and identifiers); JSON cannot
    carry NaN, so the only falsy number is zero. *)
Inductive jsval : Type :=
  | JUndef
  | JNull
  | JBool (b : bool)
  | JNum (n : Z)
  | JStr (s : string)
  | JArr (l : list jsval)
  | JObj (o : gmap string jsval).

(** What a call can end with besides a value.  [OutOfModel] marks the few
    shapes on which JavaScript would go on but the embedding stops (an
    object with its own [length] used as an array, [indexOf] on a string);
    no statement below says anything about them.  [OutOfFuel] is the
    bound on the iterations of a loop of the model being reached, which is
    shown not to happen ([parse_jira_markup_fuel]). *)
Inductive exn : Type :=
  | TypeError
  | AssertionError (what : string)
  | OutOfModel
  | OutOfFuel.

Inductive result (A : Type) : Type :=
  | Ok (a : A)
  | Throw (e : exn).
Arguments Ok {A} a.
Arguments Throw {A} e.

#[global] Instance result_ret : MRet result := @Ok.
#[global] Instance result_bind : MBind result := λ A B f m,
  match m with Ok a => f a | Throw e => Throw e end.
#[global] Instance result_fmap : FMap result := λ A B f m,
  match m with Ok a => Ok (f a) | Throw e => Throw e end.

(** [if (v)]: JavaScript truthiness. *)
Definition truthy (v : jsval) : bool :=
  match v with
  | JUndef | JNull => false
  | JBool b => b
  | JNum n => negb (n =? 0)%Z
  | JStr s => match s with EmptyString => false | String _ _ => true end
  | JArr _ | JObj _ => true
  end.

(** [v[k]] and [v.k].  Reading a property of [undefined] or [null] raises;
    a primitive has none of the data properties read by this program.  The
    program never reads an index or an inherited name this way. *)
Definition get (v : jsval) (k : string) : result jsval :=
  match v with
  | JUndef | JNull => Throw TypeError
  | JObj o => Ok (default JUndef (o !! k))
  | JArr l =>
      if decide (k = "length") then Ok (JNum (Z.of_nat (length l)))
      else Ok JUndef
  | JStr s =>
      if decide (k = "length") then Ok (JNum (Z.of_nat (String.length s)))
      else Ok JUndef
  | JBool _ | JNum _ => Ok JUndef
  end.

(** The values visited by [for (i = 0; i < v.length; i++) { ... v[i] ... }]. *)
Definition elements (v : jsval) : result (list jsval) :=
  match v with
  | JUndef | JNull => Throw TypeError
  | JArr l => Ok l
  | JStr s => Ok ((λ c, JStr (String c "")) <$> String.list_ascii_of_string s)
  | JObj o => match o !! "length" with None => Ok [] | Some _ => Throw OutOfModel end
  | JBool _ | JNum _ => Ok []
  end.

(** The receiver of [.map(...)] and [.filter(...)]: only arrays have them. *)
Definition array_method (v : jsval) : result (list jsval) :=
  match v with
  | JArr l => Ok l
  | _ => Throw TypeError
  end.

Definition is_str (s : string) (v : jsval) : bool :=
  match v with
  | JStr t => String.eqb t s
  | _ => false
  end.

(** [v.indexOf(s) !== -1] for a string [s]. *)
Definition includes_str (v : jsval) (s : string) : result bool :=
  match v with
  | JArr l => Ok (existsb (is_str s) l)
  | JStr _ => Throw OutOfModel
  | _ => Throw TypeError
  end.

(** [a === b]; two objects read from different places of a parsed JSON
    document are never the same reference. *)
Definition strict_eq (a b : jsval) : bool :=
  match a, b with
  | JUndef, JUndef | JNull, JNull => true
  | JBool x, JBool y => Bool.eqb x y
  | JNum x, JNum y => (x =? y)%Z
  | JStr x, JStr y => String.eqb x y
  | _, _ => false
  end.

(** [mod_assert.object]. *)
Definition assert_object (v : jsval) (what : string) : result unit :=
  match v with
  | JObj _ | JArr _ => Ok ()
  | _ => Throw (AssertionError what)
  end.

(** An own property of an object, for reading results. *)
Definition own (v : jsval) (k : string) : option jsval :=
  match v with
  | JObj o => o !! k
  | _ => None
  end.

Definition obj_of (v : jsval) : option (gmap string jsval) :=
  match v with
  | JObj o => Some o
  | _ => None
  end.

End Js.
Import Js.

(** Messages handed to the bunyan logger. *)
Inductive log_entry : Type :=
  | LogError (msg : string)
  | LogWarn (msg : string).

(** ** The field allowlist projector ([format_issue_assemble]) *)

(** JIRA issues contain a number of properties that are object-valued; only
    this subset of their keys is copied into the sanitised view. *)
Definition ISSUE_OBJECT_KEYS : list string :=
  ["id"; "name"; "description"; "key"; "emailAddress"; "displayName"].

(** The keys kept of a software release version. *)
Definition RELEASE_OBJECT_KEYS : list string :=
  ["id"; "name"; "archived"; "released"; "releaseDate"].

(** The fields [copy_obj] is called on. *)
Definition OBJECT_FIELDS : list string :=
  ["issuetype"; "priority"; "status"; "creator"; "reporter"; "assignee";
   "resolution"].

Definition is_upper (c : ascii) : bool :=
  (65 <=? nat_of_ascii c) && (nat_of_ascii c <=? 90).

Definition is_digit (c : ascii) : bool :=
  (48 <=? nat_of_ascii c) && (nat_of_ascii c <=? 57).

Fixpoint skip_upper (s : string) : string :=
  match s with
  | String c r => if is_upper c then skip_upper r else s
  | EmptyString => EmptyString
  end.

(** [key.match(/^([A-Z]+)-([0-9]+)/)] succeeds. *)
Definition key_re (key : string) : bool :=
  match key with
  | String c r =>
      is_upper c &&
      match skip_upper r with
      | String "-" (String d _) => is_digit d
      | _ => false
      end
  | EmptyString => false
  end.

(** The comment container under construction:
    [{ maxResults: 0, total: 0, startAt: 0, comments: [] }]. *)
Record cout_t : Type := Cout {
  maxResults : Z;
  total : Z;
  startAt : Z;
  comments : list jsval
}.

Definition cout_js (c : cout_t) : jsval :=
  JObj (list_to_map
    [("maxResults", JNum (maxResults c)); ("total", JNum (total c));
     ("startAt", JNum (startAt c)); ("comments", JArr (comments c))]).

Section Projector.

(** Operator configuration and mode, read by the program from globals. *)
Context (UNRESTRICTED : bool) (CONFIG_label : string)
  (ALLOWED_LABELS : list string).

(** Access to issues is restricted to those with the correct label; this
    includes related issues.  [other_issues[key]] is only read for a key
    that matched the pattern, which no name inherited from
    [Object.prototype] does: the read is a plain lookup. *)
Definition allow_issue (key : jsval) (other_issues : gmap string jsval)
  : result bool :=
  match key with
  | JStr k =>
      if negb (key_re k) then Ok false
      else
        let other := default JUndef (other_issues !! k) in
        if negb (truthy other) then Ok false
        else if UNRESTRICTED then Ok true
        else
          fields ← get other "fields";
          labels ← get fields "labels";
          includes_str labels CONFIG_label
  | _ => Throw (AssertionError "key")
  end.

Definition is_allowed_label (label : jsval) : bool :=
  existsb (λ a, is_str a label) ALLOWED_LABELS.

(** [KEYS.forEach(function (k) { if (src[k]) { t[k] = src[k]; } })] *)
Fixpoint copy_keys (keys : list string) (src : jsval)
  (t : gmap string jsval) : result (gmap string jsval) :=
  match keys with
  | [] => Ok t
  | k :: ks =>
      v ← get src k;
      copy_keys ks src (if truthy v then <[k:=v]> t else t)
  end.

(** [copy_obj(fname)]; [fields] is [issue.fields], [out_fields] is
    [out.fields], which the call updates. *)
Definition copy_obj (fields : jsval) (fname : string)
  (out_fields : gmap string jsval) : result (gmap string jsval) :=
  f ← get fields fname;
  if negb (truthy f) then Ok out_fields
  else
    t ← copy_keys ISSUE_OBJECT_KEYS f ∅;
    Ok (<[fname := JObj t]> out_fields).

Definition copy_simple (fields : jsval) (fname : string)
  (out_fields : gmap string jsval) : result (gmap string jsval) :=
  v ← get fields fname;
  Ok (if truthy v then <[fname := v]> out_fields else out_fields).

Definition copy_fix_versions (fields : jsval)
  (out_fields : gmap string jsval) : result (gmap string jsval) :=
  fvs ← get fields "fixVersions";
  if truthy fvs then
    l ← array_method fvs;
    ts ← mapM (λ fv, JObj <$> copy_keys RELEASE_OBJECT_KEYS fv ∅) l;
    Ok (<["fixVersions" := JArr ts]> out_fields)
  else Ok out_fields.

(** [{ id: ep.id, key: ep.key, fields: { summary: ep.fields.summary } }] *)
Definition project_endpoint (ep : jsval) : result jsval :=
  id ← get ep "id";
  key ← get ep "key";
  f ← get ep "fields";
  summary ← get f "summary";
  Ok (JObj (list_to_map
    [("id", id); ("key", key);
     ("fields", JObj (list_to_map [("summary", summary)]))])).

(** One of the two [if (il.<side> && allow_issue(il.<side>.key, ...))]
    blocks; the state is [ilo] and [push]. *)
Definition link_endpoint (il : jsval) (side : string)
  (other_issues : gmap string jsval) (st : gmap string jsval * bool)
  : result (gmap string jsval * bool) :=
  ep ← get il side;
  if truthy ep then
    key ← get ep "key";
    ok ← allow_issue key other_issues;
    if (ok : bool) then
      p ← project_endpoint ep;
      Ok (<[side := p]> (fst st), true)
    else Ok st
  else Ok st.

(** The body of the loop over [issue.fields.issuelinks]: the link to push,
    if any. *)
Definition assemble_link (il : jsval) (other_issues : gmap string jsval)
  : result (option jsval) :=
  id ← get il "id";
  ty ← get il "type";
  tid ← get ty "id";
  tname ← get ty "name";
  tin ← get ty "inward";
  tout ← get ty "outward";
  let ilo : gmap string jsval := list_to_map
    [("id", id);
     ("type", JObj (list_to_map
        [("id", tid); ("name", tname); ("inward", tin); ("outward", tout)]))] in
  st ← link_endpoint il "outwardIssue" other_issues (ilo, false);
  '(ilo, push) ← link_endpoint il "inwardIssue" other_issues st;
  Ok (if (push : bool) then Some (JObj ilo) else None).

(** The loop itself; [links] is the array being filled. *)
Fixpoint assemble_links (ils : list jsval) (other_issues : gmap string jsval)
  (links : list jsval) : result (list jsval) :=
  match ils with
  | [] => Ok links
  | il :: rest =>
      r ← assemble_link il other_issues;
      assemble_links rest other_issues
        (match r with Some ilo => links ++ [ilo] | None => links end)
  end.

Definition copy_issue_links (fields : jsval)
  (other_issues : gmap string jsval) (out_fields : gmap string jsval)
  : result (gmap string jsval) :=
  ils ← get fields "issuelinks";
  if truthy ils then
    l ← elements ils;
    links ← assemble_links l other_issues [];
    Ok (<["issuelinks" := JArr links]> out_fields)
  else Ok out_fields.

Definition copy_author (fname : string) (cfrom : jsval)
  (cto : gmap string jsval) : result (gmap string jsval) :=
  a ← get cfrom fname;
  if negb (truthy a) then Ok cto
  else
    name ← get a "name";
    key ← get a "key";
    email ← get a "emailAddress";
    display ← get a "displayName";
    Ok (<[fname := JObj (list_to_map
      [("name", name); ("key", key); ("emailAddress", email);
       ("displayName", display)])]> cto).

(** The sanitised copy of a comment that is kept. *)
Definition outcom_of (com : jsval) : result jsval :=
  id ← get com "id";
  created ← get com "created";
  updated ← get com "updated";
  body ← get com "body";
  let outcom : gmap string jsval := list_to_map
    [("id", id); ("created", created); ("updated", updated); ("body", body)] in
  outcom ← copy_author "author" com outcom;
  outcom ← copy_author "updateAuthor" com outcom;
  Ok (JObj outcom).

(** The loop over [c.comments]. *)
Fixpoint comment_loop (coms : list jsval) (cout : cout_t) : result cout_t :=
  match coms with
  | [] => Ok cout
  | com :: rest =>
      vis ← get com "visibility";
      if truthy vis then
        (* For now, skip comments with _any_ visibility rules. *)
        comment_loop rest cout
      else
        outcom ← outcom_of com;
        comment_loop rest
          {| maxResults := maxResults cout + 1;
             total := total cout + 1;
             startAt := startAt cout;
             comments := comments cout ++ [outcom] |}
  end.

Definition copy_comments (fields : jsval) (out_fields : gmap string jsval)
  : result (gmap string jsval * list log_entry) :=
  c ← get fields "comment";
  if truthy c then
    mr ← get c "maxResults";
    tot ← get c "total";
    let logs :=
      if strict_eq mr tot then []
      else [LogError "comment maxResults and total not equal for issue"] in
    cs ← get c "comments";
    coms ← elements cs;
    cout ← comment_loop coms
      {| maxResults := 0; total := 0; startAt := 0; comments := [] |};
    Ok (<["comment" := cout_js cout]> out_fields, logs)
  else Ok (out_fields, []).

Definition copy_remotelink (rl : jsval) : result jsval :=
  id ← get rl "id";
  o ← get rl "object";
  url ← get o "url";
  title ← get o "title";
  Ok (JObj (list_to_map
    [("id", id);
     ("object", JObj (list_to_map [("url", url); ("title", title)]))])).

(** Assemble an object which contains only the sanitised public data used
    to produce either the rendered HTML or JSON API view of the issue. *)
Definition format_issue_assemble (issue : jsval) (remotelinks : list jsval)
  (other_issues : gmap string jsval) : result (jsval * list log_entry) :=
  _ ← assert_object issue "issue";
  _ ← mapM (λ rl, assert_object rl "remotelinks") remotelinks;
  id ← get issue "id";
  key ← get issue "key";
  fields ← get issue "fields";
  summary ← get fields "summary";
  let f : gmap string jsval := list_to_map [("summary", summary)] in
  f ← copy_obj fields "issuetype" f;
  f ← copy_obj fields "priority" f;
  f ← copy_obj fields "status" f;
  f ← copy_simple fields "created" f;
  f ← copy_simple fields "updated" f;
  f ← copy_obj fields "creator" f;
  f ← copy_obj fields "reporter" f;
  f ← copy_obj fields "assignee" f;
  f ← copy_obj fields "resolution" f;
  f ← copy_simple fields "resolutiondate" f;
  f ← copy_fix_versions fields f;
  f ← copy_issue_links fields other_issues f;
  labels ← get fields "labels";
  ls ← array_method labels;
  let f := <["labels" := JArr (filter (λ l, is_allowed_label l = true) ls)]> f in
  f ← copy_simple fields "description" f;
  '(f, logs) ← copy_comments fields f;
  rls ← mapM copy_remotelink remotelinks;
  Ok (JObj (list_to_map
        [("issue", JObj (list_to_map
            [("id", id); ("key", key); ("fields", JObj f)]));
         ("remotelinks", JArr rls)]),
      logs).

End Projector.

(** The [fields] object of the sanitised issue, for reading results. *)
Definition sanitized_fields (out : jsval) : option (gmap string jsval) :=
  own out "issue" ≫= λ i, own i "fields" ≫= obj_of.

(** The [fields] object of a raw issue. *)
Definition raw_fields (issue : jsval) : option (gmap string jsval) :=
  own issue "fields" ≫= obj_of.

(** ** URL normaliser and link renderer ([fix_url], [format_remote_link]) *)

(** The double quote, which the HTML below is full of. *)
Definition dq : string := String "034"%char EmptyString.

(** The object returned by [mod_url.parse] (the legacy Node.js URL object);
    [null] properties are [None]. *)
Record Url : Type := MkUrl {
  protocol : option string;
  slashes : bool;
  auth : option string;
  host : option string;
  port : option string;
  hostname : option string;
  hash : option string;
  search : option string;
  query : option string;
  pathname : option string;
  path : option string;
  href : option string
}.

(** An entry [{ h: ..., m: ..., p: ... }] of the [SUBS] table. *)
Record sub_t : Type := MkSub { sub_h : string; sub_m : string; sub_p : string }.

Definition SUBS_mo_joyent_com : list sub_t :=
  [ {| sub_h := "github.com"; sub_m := "/illumos-joyent";
       sub_p := "/joyent/illumos-joyent" |};
    {| sub_h := "github.com"; sub_m := "/smartos-live";
       sub_p := "/joyent/smartos-live" |};
    {| sub_h := "github.com"; sub_m := "/illumos-live";
       sub_p := "/joyent/smartos-live" |};
    {| sub_h := "github.com"; sub_m := "/illumos-extra";
       sub_p := "/joyent/illumos-extra" |};
    {| sub_h := "github.com"; sub_m := "/sdc-napi";
       sub_p := "/joyent/sdc-napi" |} ].

(** What [SUBS[url.hostname]] leads to.  [SUBS] is an object literal, so a
    host name that is the name of a one-or-more-argument method inherited
    from [Object.prototype] yields a function, whose [length] is positive
    and whose element [0] is [undefined]: reading [s.m] raises.  Every other
    inherited name has no positive [length], and the loop does not run. *)
Inductive subs_entry : Type :=
  | SubsTable (l : list sub_t)
  | SubsNone
  | SubsInheritedFunction.

Definition SUBS (hostname : option string) : subs_entry :=
  match hostname with
  | None => SubsNone
  | Some hn =>
      if String.eqb hn "mo.joyent.com" then SubsTable SUBS_mo_joyent_com
      else if existsb (String.eqb hn)
                ["constructor"; "hasOwnProperty"; "isPrototypeOf";
                 "propertyIsEnumerable"; "__defineGetter__";
                 "__defineSetter__"; "__lookupGetter__"; "__lookupSetter__"]
      then SubsInheritedFunction
      else SubsNone
  end.

(** White space as [String.prototype.trim] sees it, among code units below
    256: TAB, LF, VT, FF, CR, space and the no-break space. *)
Definition is_space (c : ascii) : bool :=
  let n := nat_of_ascii c in
  ((9 <=? n) && (n <=? 13)) || (n =? 32) || (n =? 160).

Fixpoint trim_left (s : string) : string :=
  match s with
  | String c r => if is_space c then trim_left r else s
  | EmptyString => EmptyString
  end.

Definition rev_string (s : string) : string :=
  String.string_of_list_ascii (rev (String.list_ascii_of_string s)).

Definition trim (s : string) : string :=
  rev_string (trim_left (rev_string (trim_left s))).

(** [new RegExp('^' + m).test(pathname)]; none of the [m] of the table
    holds a character that is special in a regular expression.  A [null]
    path name is tested as the text [null], which none of them matches. *)
Definition re_test (m : string) (pathname : option string) : bool :=
  match pathname with
  | Some pn => String.prefix m pn
  | None => false
  end.

(** [pathname.replace(re, p)] where [re] matched. *)
Definition re_replace (m p pn : string) : string :=
  p +:+ String.substring (String.length m) (String.length pn - String.length m) pn.

Section LinkRenderer.

(** The collaborators from other packages: [mod_ent.encode], and
    [mod_url.parse], which raises on some inputs ([None]), and
    [mod_url.format]. *)
Context (ent_encode : string → string) (url_parse : string → option Url)
  (url_format : Url → string).

Fixpoint fix_url_subs (out : string) (url : Url) (subs : list sub_t) : string :=
  match subs with
  | [] => ent_encode out
  | s :: rest =>
      if re_test (sub_m s) (pathname url) then
        let pn := re_replace (sub_m s) (sub_p s) (default "null" (pathname url)) in
        ent_encode (url_format
          {| protocol := protocol url; slashes := slashes url;
             auth := auth url; host := Some (sub_h s); port := port url;
             hostname := Some (sub_h s); hash := hash url; search := search url;
             query := query url; pathname := Some pn; path := Some pn;
             href := href url |})
      else fix_url_subs out url rest
  end.

(** [fix_url(input)], with what it logs. *)
Definition fix_url (input : string) : result (string * list log_entry) :=
  let out := trim input in
  match url_parse out with
  | None => Ok (out, [LogError "url parse error"])
  | Some url =>
      match SUBS (hostname url) with
      | SubsNone => Ok (ent_encode out, [])
      | SubsInheritedFunction => Throw TypeError
      | SubsTable subs => Ok (fix_url_subs out url subs, [])
      end
  end.

(** Create a new anchor tag: opened in a new, blank context, without
    referral information and without [window.opener]. *)
Definition format_remote_link (link text : string)
  : result (string * list log_entry) :=
  '(u, logs) ← fix_url link;
  Ok ("<a rel=" +:+ dq +:+ "noopener noreferrer" +:+ dq +:+ " target=" +:+ dq
        +:+ "_blank" +:+ dq +:+ " href=" +:+ dq +:+ u +:+ dq +:+ ">" +:+ text
        +:+ "</a>",
      logs).

End LinkRenderer.

(** ** The fallback markup converter, one line at a time
    ([parse_jira_markup]) *)

(** If this character appears before a formatting character, such as [*] or
    [_], then the formatting character takes effect.  [None] is [null], the
    start of the line. *)
Definition prefmtok (x : option ascii) : bool :=
  match x with
  | None => true
  | Some c =>
      let cc := nat_of_ascii c in
      if ((65 <=? cc) && (cc <=? 90)) || ((97 <=? cc) && (cc <=? 122))
      then false else true
  end.

Fixpoint repeat_char (c : ascii) (n : nat) : string :=
  match n with
  | 0 => EmptyString
  | S k => String c (repeat_char c k)
  end.

(** [HEADING_LEVELS.indexOf(cc) !== -1] *)
Definition is_heading_level (cc : option ascii) : bool :=
  match cc with
  | Some d => (49 <=? nat_of_ascii d) && (nat_of_ascii d <=? 54)
  | None => false
  end.

Inductive pstate : Type :=
  | LEADING_SPACES
  | TEXT
  | LINK_TITLE
  | LINK_USER
  | LINK_ATTACHMENT
  | LINK_URL.

Inductive fmt : Type := BOLD | ITALIC | CODE.

#[global] Instance fmt_eq_dec : EqDecision fmt.
Proof. solve_decision. Defined.

(** The two truthy values of [ps.ps_list]; [false] and [null], which the
    program only tests for truth, are [None]. *)
Inductive list_kind : Type := UL | OL.

Definition list_tag (k : list_kind) : string :=
  match k with UL => "ul" | OL => "ol" end.

(** The state kept between the lines of one text. *)
Record parser_state : Type := MkPs {
  ps_list : option list_kind;
  ps_heading : option string
}.

(** The variables of [parse_jira_markup]: the loop index [i], the locals,
    the object [ps] and what was logged.  [formats] is the array: its
    element [0] is the head of the list, [push] and [pop] work at its end. *)
Record locals : Type := MkLocals {
  v_i : nat;
  v_text : string;
  v_formats : list fmt;
  v_out : list string;
  v_state : pstate;
  v_link_title : string;
  v_link_url : string;
  v_leading_spaces : nat;
  v_ps : parser_state;
  v_log : list log_entry
}.

Definition set_i (n : nat) (s : locals) : locals :=
  MkLocals n (v_text s) (v_formats s) (v_out s) (v_state s) (v_link_title s)
    (v_link_url s) (v_leading_spaces s) (v_ps s) (v_log s).

Definition set_text (t : string) (s : locals) : locals :=
  MkLocals (v_i s) t (v_formats s) (v_out s) (v_state s) (v_link_title s)
    (v_link_url s) (v_leading_spaces s) (v_ps s) (v_log s).

Definition set_formats (f : list fmt) (s : locals) : locals :=
  MkLocals (v_i s) (v_text s) f (v_out s) (v_state s) (v_link_title s)
    (v_link_url s) (v_leading_spaces s) (v_ps s) (v_log s).

Definition set_out (o : list string) (s : locals) : locals :=
  MkLocals (v_i s) (v_text s) (v_formats s) o (v_state s) (v_link_title s)
    (v_link_url s) (v_leading_spaces s) (v_ps s) (v_log s).

Definition set_state (st : pstate) (s : locals) : locals :=
  MkLocals (v_i s) (v_text s) (v_formats s) (v_out s) st (v_link_title s)
    (v_link_url s) (v_leading_spaces s) (v_ps s) (v_log s).

Definition set_link_title (t : string) (s : locals) : locals :=
  MkLocals (v_i s) (v_text s) (v_formats s) (v_out s) (v_state s) t
    (v_link_url s) (v_leading_spaces s) (v_ps s) (v_log s).

Definition set_link_url (u : string) (s : locals) : locals :=
  MkLocals (v_i s) (v_text s) (v_formats s) (v_out s) (v_state s)
    (v_link_title s) u (v_leading_spaces s) (v_ps s) (v_log s).

Definition set_leading_spaces (n : nat) (s : locals) : locals :=
  MkLocals (v_i s) (v_text s) (v_formats s) (v_out s) (v_state s)
    (v_link_title s) (v_link_url s) n (v_ps s) (v_log s).

Definition set_ps (ps : parser_state) (s : locals) : locals :=
  MkLocals (v_i s) (v_text s) (v_formats s) (v_out s) (v_state s)
    (v_link_title s) (v_link_url s) (v_leading_spaces s) ps (v_log s).

Definition add_log (l : list log_entry) (s : locals) : locals :=
  MkLocals (v_i s) (v_text s) (v_formats s) (v_out s) (v_state s)
    (v_link_title s) (v_link_url s) (v_leading_spaces s) (v_ps s)
    (v_log s ++ l).

(** [out.push(x)] *)
Definition push_out (x : string) (s : locals) : locals :=
  set_out (v_out s ++ [x]) s.

(** [formats.push(f)] and [formats.pop()] *)
Definition push_fmt (f : fmt) (s : locals) : locals :=
  set_formats (v_formats s ++ [f]) s.

Definition pop_fmt (s : locals) : locals :=
  set_formats (removelast (v_formats s)) s.

(** [formats[0] === f] *)
Definition fmt0_is (f : fmt) (s : locals) : bool :=
  bool_decide (head (v_formats s) = Some f).

(** The loop's own [i++] after an iteration that moved [i] by [n - 1]. *)
Definition advance (n : nat) (s : locals) : locals :=
  set_i (v_i s + n) s.

Definition set_ps_list (k : option list_kind) (s : locals) : locals :=
  set_ps {| ps_list := k; ps_heading := ps_heading (v_ps s) |} s.

Definition set_ps_heading (hd : option string) (s : locals) : locals :=
  set_ps {| ps_list := ps_list (v_ps s); ps_heading := hd |} s.

Definition is_char (c : ascii) (x : option ascii) : bool :=
  match x with
  | Some y => Ascii.eqb y c
  | None => false
  end.

(** [text += cc]: an [undefined] operand is appended as its name. *)
Definition append_char (t : string) (x : option ascii) : string :=
  match x with
  | Some c => t +:+ String c EmptyString
  | None => t +:+ "undefined"
  end.

(** [i > 0 ? desc[i - 1] : null] *)
Definition prev_char (desc : string) (i : nat) : option ascii :=
  match i with
  | 0 => None
  | S j => String.get j desc
  end.

(** [out.join('')] *)
Definition join (out : list string) : string :=
  foldr String.append EmptyString out.

Section Markup.

Context (ent_encode : string → string) (url_parse : string → option Url)
  (url_format : Url → string).

Definition commit_text (s : locals) : locals :=
  match v_text s with
  | EmptyString => s
  | String _ _ => set_text EmptyString (push_out (ent_encode (v_text s)) s)
  end.

(** [out.push(format_remote_link(link, text))] *)
Definition push_link (link text : string) (s : locals) : result locals :=
  '(a, logs) ← format_remote_link ent_encode url_parse url_format link text;
  Ok (add_log logs (push_out a s)).

(** The statements after the [switch], reached from the [TEXT] case by
    [break]: formatting characters and plain text. *)
Definition fmt_plain (c : ascii) (cc : option ascii) (s : locals) : locals :=
  if Ascii.eqb c "{" && is_char "{" cc then
    advance 2 (push_out "<code>" (commit_text (push_fmt CODE s)))
  else if Ascii.eqb c "\" && fmt0_is CODE s then
    (* Allow for basic escaping within {{code}} blocks. *)
    advance 2 (set_text (append_char (v_text s) cc) s)
  else if Ascii.eqb c "}" && is_char "}" cc && fmt0_is CODE s then
    advance 2 (push_out "</code>" (commit_text (pop_fmt s)))
  else
    advance 1 (set_text (v_text s +:+ String c EmptyString) s).

Definition fmt_italic (c : ascii) (cc pc : option ascii) (s : locals)
  : locals :=
  if Ascii.eqb c "_" && negb (fmt0_is CODE s) then
    let s := commit_text s in
    if fmt0_is ITALIC s then advance 1 (push_out "</i>" (pop_fmt s))
    else if prefmtok pc then advance 1 (push_out "<i>" (push_fmt ITALIC s))
    else fmt_plain c cc s
  else fmt_plain c cc s.

Definition fmt_bold (c : ascii) (cc pc : option ascii) (s : locals)
  : locals :=
  if Ascii.eqb c "*" && negb (fmt0_is CODE s) then
    let s := commit_text s in
    if fmt0_is BOLD s then advance 1 (push_out "</b>" (pop_fmt s))
    else if prefmtok pc then advance 1 (push_out "<b>" (push_fmt BOLD s))
    else fmt_italic c cc pc s
  else fmt_italic c cc pc s.

(** A list item marker in the [LEADING_SPACES] state. *)
Definition list_item (k : list_kind) (s : locals) : locals :=
  let s := push_out (match ps_list (v_ps s) with
                     | Some _ => "</li>"
                     | None => "<" +:+ list_tag k +:+ ">"
                     end) s in
  let s := set_ps_list (Some k) s in
  let s := commit_text s in
  advance 1 (push_out "<li>" s).

(** The [TEXT] case when a list is open and the line starts with
    something else than a space: the list is closed. *)
Definition close_list (k : list_kind) (s : locals) : locals :=
  let s := commit_text s in
  let s := push_out ("</li></" +:+ list_tag k +:+ ">") s in
  set_ps_list None s.

(** The rest of the [TEXT] case: a heading marker, the start of a link, or
    [break] to the formatting characters. *)
Definition text_case (c : ascii) (cc ccc pc : option ascii) (s : locals)
  : result locals :=
  if (v_i s =? 0) && Ascii.eqb c "h" && is_char "." ccc
     && is_heading_level cc then
    let hd := "h" +:+ append_char EmptyString cc in
    let s := set_ps_heading (Some hd) s in
    let s := commit_text s in
    Ok (advance 4 (push_out ("<" +:+ hd +:+ ">") s))
  else if Ascii.eqb c "[" then
    let s := commit_text s in
    let s := set_link_url EmptyString (set_link_title EmptyString s) in
    if is_char "~" cc then Ok (advance 2 (set_state LINK_USER s))
    else if is_char "^" cc then Ok (advance 2 (set_state LINK_ATTACHMENT s))
    else Ok (advance 1 (set_state LINK_TITLE s))
  else Ok (fmt_bold c cc pc s).

(** One iteration of the loop over the characters of [desc], including
    the loop's [i++]: [v_i] of the result is the index the next iteration
    reads.  After [i--; continue] that is the same index again. *)
Definition step (desc : string) (s : locals) : result locals :=
  let i := v_i s in
  match String.get i desc with
  | None => Ok s
  | Some c =>
      let cc := String.get (i + 1) desc in
      let ccc := String.get (i + 2) desc in
      let pc := prev_char desc i in
      if Ascii.eqb c "010" then Throw (AssertionError "c")
      else if Ascii.eqb c "013" then Throw (AssertionError "c")
      else
        match v_state s with
        | LEADING_SPACES =>
            if Ascii.eqb c " " then
              Ok (advance 1 (set_leading_spaces (S (v_leading_spaces s)) s))
            else if (Ascii.eqb c "*" || Ascii.eqb c "-") && is_char " " cc then
              Ok (list_item UL s)
            else if Ascii.eqb c "#" && is_char " " cc then
              Ok (list_item OL s)
            else
              (* No special sequence was detected: emit the spaces we
                 counted, switch to the TEXT state, and wind back by one
                 character. *)
              Ok (set_state TEXT
                    (set_text
                       (v_text s +:+ repeat_char " " (v_leading_spaces s)) s))
        | TEXT =>
            match ps_list (v_ps s) with
            | Some k =>
                if (i =? 0) && negb (Ascii.eqb c " ") then
                  (* break, so that this character is not dropped *)
                  Ok (fmt_bold c cc pc (close_list k s))
                else text_case c cc ccc pc s
            | None => text_case c cc ccc pc s
            end
        | LINK_TITLE =>
            if Ascii.eqb c "|" then Ok (advance 1 (set_state LINK_URL s))
            else if Ascii.eqb c "]" then
              s' ← push_link (v_link_title s) (ent_encode (v_link_title s)) s;
              Ok (advance 1 (set_state TEXT s'))
            else
              Ok (advance 1
                    (set_link_title
                       (v_link_title s +:+ String c EmptyString) s))
        | LINK_USER =>
            if Ascii.eqb c "]" then
              Ok (advance 1 (set_state TEXT
                    (push_out "</b>"
                       (push_out (ent_encode (v_link_title s))
                          (push_out "<b>@" s)))))
            else
              Ok (advance 1
                    (set_link_title
                       (v_link_title s +:+ String c EmptyString) s))
        | LINK_ATTACHMENT =>
            if Ascii.eqb c "]" then
              Ok (advance 1 (set_state TEXT
                    (push_out "]</b>"
                       (push_out (ent_encode (v_link_title s))
                          (push_out "<b>[attachment " s)))))
            else
              Ok (advance 1
                    (set_link_title
                       (v_link_title s +:+ String c EmptyString) s))
        | LINK_URL =>
            if Ascii.eqb c "]" then
              s' ← push_link (v_link_url s) (ent_encode (v_link_title s)) s;
              Ok (advance 1 (set_state TEXT s'))
            else
              Ok (advance 1
                    (set_link_url (v_link_url s +:+ String c EmptyString) s))
        end
  end.

(** [for (var i = 0; i < desc.length; i++) { ... }] *)
Fixpoint loop (fuel : nat) (desc : string) (s : locals) : result locals :=
  if String.length desc <=? v_i s then Ok s
  else
    match fuel with
    | 0 => Throw OutOfFuel
    | S fuel' => s' ← step desc s; loop fuel' desc s'
    end.

(** The locals after at most [n] iterations of the loop. *)
Fixpoint steps (n : nat) (desc : string) (s : locals) : result locals :=
  match n with
  | 0 => Ok s
  | S k =>
      if String.length desc <=? v_i s then Ok s
      else s' ← step desc s; steps k desc s'
  end.

(** The statements after the loop, and the value returned. *)
Definition finish (s : locals) : string :=
  let s := commit_text s in
  join (v_out s ++ match ps_heading (v_ps s) with
                   | Some hd => ["</" +:+ hd +:+ ">"]
                   | None => []
                   end).

Definition init (ps : parser_state) : locals :=
  {| v_i := 0; v_text := EmptyString; v_formats := []; v_out := [];
     v_state := LEADING_SPACES; v_link_title := EmptyString;
     v_link_url := EmptyString; v_leading_spaces := 0;
     v_ps := {| ps_list := ps_list ps; ps_heading := None |};
     v_log := [] |}.

(** The locals met at the head of the loop while it runs over [desc]. *)
Inductive reachable (desc : string) (ps : parser_state) : locals → Prop :=
  | reach_init : reachable desc ps (init ps)
  | reach_step s s' :
      reachable desc ps s → v_i s < String.length desc →
      step desc s = Ok s' → reachable desc ps s'.

(** The locals as they are when the loop has read [n] characters as plain
    text of an otherwise empty line: what the rest of a line is rendered
    from. *)
Definition text_from (n : nat) (ps : parser_state) : locals :=
  set_state TEXT (set_i n (init ps)).

(** A run of the loop and of the statements after it from given locals:
    the HTML, [ps] as the call leaves it, and the log. *)
Definition run_from (desc : string) (s : locals)
  : result (string * parser_state * list log_entry) :=
  s' ← loop (S (String.length desc)) desc s;
  Ok (finish s', v_ps s', v_log s').

(** Make some attempt to parse JIRA markup. *)
Definition parse_jira_markup (desc : string) (ps : parser_state)
  : result (string * parser_state * list log_entry) :=
  run_from desc (init ps).

End Markup.

(** ** The requests behind an issue page ([format_issue],
    [handle_issue_json]) *)

(** What [BACKEND.be_issue_get] hands to its callback: the issue, or an
    error, of which [VE.info(err).notfound] is read. *)
Inductive fetched : Type :=
  | Fetched (issue : jsval)
  | FetchError (notfound : bool).

(** How a chain of callbacks ends when it yields no value: the error of
    the backend was handed on to the callback, an exception was raised, or
    [mod_url.parse] raised. *)
Inductive failure : Type :=
  | CallbackError
  | Uncaught (e : exn)
  | UncaughtUrl.

Inductive outcome (A : Type) : Type :=
  | Done (a : A)
  | Failed (f : failure).
Arguments Done {A} a.
Arguments Failed {A} f.

#[global] Instance outcome_ret : MRet outcome := @Done.
#[global] Instance outcome_bind : MBind outcome := λ A B f m,
  match m with Done a => f a | Failed e => Failed e end.

Definition lift {A} (r : result A) : outcome A :=
  match r with Ok a => Done a | Throw e => Failed (Uncaught e) end.

Fixpoint all_digits (s : string) : bool :=
  match s with
  | EmptyString => true
  | String c r => is_digit c && all_digits r
  end.

(** [key.match(/^[A-Z]+-[0-9]+$/)] succeeds. *)
Definition key_path_re (key : string) : bool :=
  match key with
  | String c r =>
      is_upper c &&
      match skip_upper r with
      | String "-" (String d rest) => is_digit d && all_digits rest
      | _ => false
      end
  | EmptyString => false
  end.

(** [mod_assert.arrayOfString]: the strings of the array. *)
Fixpoint strings_of (l : list jsval) : option (list string) :=
  match l with
  | [] => Some []
  | JStr s :: r => cons s <$> strings_of r
  | _ :: _ => None
  end.

Definition assert_array_of_string (v : jsval) (what : string)
  : result (list string) :=
  match v with
  | JArr l =>
      match strings_of l with
      | Some ss => Ok ss
      | None => Throw (AssertionError what)
      end
  | _ => Throw (AssertionError what)
  end.

(** The largest integer up to which every integer is a number of
    JavaScript. *)
Definition MAX_SAFE_INTEGER : Z := 9007199254740991.

(** [String(v)], as the operator [+] applies it to the other operand of a
    string: an array is joined with commas, its [null] and [undefined]
    elements being empty; an object is [[object Object]], unless it has a
    property [toString] of its own, which in a JSON value is nothing that
    can be called. *)
Fixpoint to_str (v : jsval) : result string :=
  match v with
  | JUndef => Ok "undefined"
  | JNull => Ok "null"
  | JBool b => Ok (if b then "true" else "false")
  | JNum n =>
      if (Z.abs n <=? MAX_SAFE_INTEGER)%Z then Ok (pretty n)
      else Throw OutOfModel
  | JStr s => Ok s
  | JArr l =>
      (fix join_elements (l : list jsval) : result string :=
         match l with
         | [] => Ok ""
         | x :: rest =>
             a ← match x with JUndef | JNull => Ok "" | _ => to_str x end;
             match rest with
             | [] => Ok a
             | _ :: _ => b ← join_elements rest; Ok (a +:+ "," +:+ b)
             end
         end) l
  | JObj o =>
      match o !! "toString" with
      | Some _ => Throw TypeError
      | None => Ok "[object Object]"
      end
  end.

(** What a handler answers: [res.send(code)], or the document written
    with status 200. *)
Inductive response : Type :=
  | Send (code : nat)
  | Deliver (content_type : string) (body : string).

Section Requests.

Context (UNRESTRICTED : bool) (CONFIG_label : string)
  (ALLOWED_DOMAINS : list string).

(** The backend, whose answers are taken to depend on the request only,
    and [mod_url.parse].  Of what the handlers send to the logger of the
    request nothing is kept. *)
Context (be_issue_get : string → fetched)
  (be_remotelink_get : jsval → option jsval)
  (url_parse : string → option Url).

(** [other_issues[k] = null] on the object that [{}] created; the
    object is its own properties and whether its prototype has become
    [null].  [__proto__] is an accessor that the object inherits from
    [Object.prototype]: while it does, assigning [null] to that name sets
    the prototype to [null] and creates no property; once the prototype is
    [null] the name is a property like any other, so the second such
    assignment creates it. *)
Definition set_null (k : string) (o : gmap string jsval * bool)
  : gmap string jsval * bool :=
  if String.eqb k "__proto__" then
    if o.2 then (<[k := JNull]> o.1, true) else (o.1, true)
  else (<[k := JNull]> o.1, o.2).

(** [other_issues[l.<side>.key] = null], if the link has that end.  A key
    that is no string is used under its text in JavaScript; the embedding
    stops there. *)
Definition note_endpoint (l : jsval) (side : string)
  (other_issues : gmap string jsval * bool)
  : result (gmap string jsval * bool) :=
  ep ← get l side;
  if truthy ep then
    key ← get ep "key";
    match key with
    | JStr k => Ok (set_null k other_issues)
    | _ => Throw OutOfModel
    end
  else Ok other_issues.

(** [issue.fields.issuelinks.forEach(...)] *)
Fixpoint collect_links (ils : list jsval)
  (other_issues : gmap string jsval * bool)
  : result (gmap string jsval * bool) :=
  match ils with
  | [] => Ok other_issues
  | l :: rest =>
      oi ← note_endpoint l "outwardIssue" other_issues;
      oi ← note_endpoint l "inwardIssue" oi;
      collect_links rest oi
  end.

(** [UNRESTRICTED || other.fields.labels.indexOf(CONFIG.label) !== -1] *)
Definition is_public (other : jsval) : result bool :=
  if UNRESTRICTED then Ok true
  else
    fields ← get other "fields";
    labels ← get fields "labels";
    includes_str labels CONFIG_label.

(** The callback of the request for one related issue
    ([lookup_linked_issue_one]): a failure to fetch it is ignored, and only
    an issue marked public is stored. *)
Definition lookup_linked_issue_one (key : string)
  (other_issues : gmap string jsval) : result (gmap string jsval) :=
  match be_issue_get key with
  | FetchError _ => Ok other_issues
  | Fetched other =>
      pub ← is_public other;
      Ok (if (pub : bool) then <[key := other]> other_issues
          else other_issues)
  end.

(** The requests of [forEachParallel], answered in the order [keys]. *)
Fixpoint lookup_each (keys : list string) (other_issues : gmap string jsval)
  : result (gmap string jsval) :=
  match keys with
  | [] => Ok other_issues
  | key :: rest =>
      oi ← lookup_linked_issue_one key other_issues;
      lookup_each rest oi
  end.

(** The first stage of [format_issue] ([lookup_linked_issues]): the
    properties of [other_issues] when the stage is over.  [Object.keys]
    lists the properties of the object itself, and each request assigns to
    one of them.  The keys are taken in the order the map lists them;
    [lookup_order_irrelevant] shows that the order does not matter. *)
Definition lookup_linked_issues (issue : jsval)
  : result (gmap string jsval) :=
  fields ← get issue "fields";
  ils ← get fields "issuelinks";
  if negb (truthy ils) then Ok ∅
  else
    l ← array_method ils;
    o ← collect_links l (∅, false);
    lookup_each (map_to_list o.1).*1 o.1.

(** The callback of [links.filter]. *)
Definition remote_link_allowed (rl : jsval) : outcome bool :=
  o ← lift (get rl "object");
  u ← lift (get o "url");
  match u with
  | JStr s =>
      match url_parse s with
      | None => Failed UncaughtUrl
      | Some parsed =>
          Done (match hostname parsed with
                | None => false
                | Some domain => bool_decide (domain ∈ ALLOWED_DOMAINS)
                end)
      end
  | _ => Failed (Uncaught TypeError)
  end.

Fixpoint filter_links (links : list jsval) : outcome (list jsval) :=
  match links with
  | [] => Done []
  | rl :: rest =>
      keep ← remote_link_allowed rl;
      kept ← filter_links rest;
      Done (if (keep : bool) then rl :: kept else kept)
  end.

(** The second stage of [format_issue] ([get_remote_links]):
    [remotelinks]. *)
Definition get_remote_links (issue : jsval) : outcome (list jsval) :=
  id ← lift (get issue "id");
  match be_remotelink_get id with
  | None => Failed CallbackError
  | Some (JArr links) => filter_links links
  | Some _ => Failed (Uncaught (AssertionError "links"))
  end.

End Requests.

Section Handlers.

(** [CONFIG.http_proto] is taken to be a string, and [JSON.stringify] is a
    parameter. *)
Context (UNRESTRICTED : bool) (CONFIG_label CONFIG_http_proto : string)
  (be_issue_get : string → fetched) (JSON_stringify : jsval → string).

Definition format_issue_json (issue : jsval) : result string :=
  key ← get issue "key";
  fields ← get issue "fields";
  summary ← get fields "summary";
  k ← to_str key;
  Ok (JSON_stringify (JObj (list_to_map
    [("id", key); ("summary", summary);
     ("web_url",
      JStr (CONFIG_http_proto +:+ "://smartos.org/bugview/" +:+ k))]))).

(** [handle_issue_json]; [key] is [req.params.key]. *)
Definition handle_issue_json (key : string) : result response :=
  if negb (key_path_re key) then Ok (Send 400)
  else
    match be_issue_get key with
    | FetchError notfound => Ok (Send (if notfound then 404 else 500))
    | Fetched issue =>
        fields ← get issue "fields";
        labels ← get fields "labels";
        ls ← assert_array_of_string labels "labels";
        if negb UNRESTRICTED && negb (bool_decide (CONFIG_label ∈ ls)) then
          Ok (Send 403)
        else
          out ← format_issue_json issue;
          Ok (Deliver "application/json" out)
    end.

End Handlers.

(** ** The block scanner ([eat_block], [format_panel_open],
    [format_markup_fallback]) *)

Definition LF : ascii := "010"%char.
Definition CR : ascii := "013"%char.
Definition nl : string := String LF EmptyString.

(** [desc.split(/\r?\n/)]: the text is cut at every line feed, which takes
    a carriage return that stands before it along.  The text has one line
    more than it has line feeds. *)
Fixpoint split_lines (desc : string) : list string :=
  match desc with
  | EmptyString => [EmptyString]
  | String c r =>
      if Ascii.eqb c LF then EmptyString :: split_lines r
      else
        match r with
        | String c' r' =>
            if Ascii.eqb c CR && Ascii.eqb c' LF
            then EmptyString :: split_lines r'
            else match split_lines r with
                 | l :: ls => String c l :: ls
                 | [] => [String c EmptyString]
                 end
        | EmptyString => [String c EmptyString]
        end
  end.

(** What the marker takes of a text: all up to its first closing brace,
    and all of it when it has none. *)
Fixpoint after_brace (s : string) : string :=
  match s with
  | EmptyString => EmptyString
  | String c r => if Ascii.eqb c "}" then r else after_brace r
  end.

(** What the group of the pattern captures: the text up to a line
    terminator. *)
Fixpoint up_to_eol (s : string) : string :=
  match s with
  | EmptyString => EmptyString
  | String c r =>
      if Ascii.eqb c LF || Ascii.eqb c CR then EmptyString
      else String c (up_to_eol r)
  end.

(** Remove the leading block marker from a line, and return the remainder.
    The pattern is an opening brace at the start of the line, any
    characters but a closing brace, a closing brace if there is one, and a
    group that takes any characters but line terminators.  [line.match] is
    [null] for a line that does not start with a brace, and the read of
    its element [1] raises. *)
Definition eat_block (line : string) : result string :=
  match line with
  | String "{" r => Ok (up_to_eol (after_brace r))
  | _ => Throw TypeError
  end.

(** The two [<div>] that open a panel. *)
Definition format_panel_open (names : list string) : string :=
  let html := "<div class=" +:+ dq in
  let html := foldl (λ h n, h +:+ n +:+ " ") html names in
  let html := html +:+ dq +:+ "><div class=" +:+ dq in
  let html := foldl (λ h n, h +:+ n +:+ "Content ") html names in
  html +:+ dq +:+ ">".

(** The variables of [format_markup_fallback] that live across the lines,
    and what [parse_jira_markup] logged.  [procneeded] is [true] whenever
    a line is entered, and is not kept here. *)
Record scanner : Type := MkScanner {
  sc_out : string;
  sc_last_was_heading : bool;
  sc_fmton : bool;
  sc_newline_br : bool;
  sc_parse_markup : bool;
  sc_ps : parser_state;
  sc_closing : option string;
  sc_log : list log_entry
}.

Definition sc_put (x : string) (st : scanner) : scanner :=
  {| sc_out := sc_out st +:+ x;
     sc_last_was_heading := sc_last_was_heading st; sc_fmton := sc_fmton st;
     sc_newline_br := sc_newline_br st;
     sc_parse_markup := sc_parse_markup st; sc_ps := sc_ps st;
     sc_closing := sc_closing st; sc_log := sc_log st |}.

(** [newline_br], [parse_markup] and [closing] as the opening of a block
    sets them. *)
Definition sc_block (newline_br parse_markup : bool) (closing : string)
  (st : scanner) : scanner :=
  {| sc_out := sc_out st; sc_last_was_heading := sc_last_was_heading st;
     sc_fmton := sc_fmton st; sc_newline_br := newline_br;
     sc_parse_markup := parse_markup; sc_ps := sc_ps st;
     sc_closing := Some closing; sc_log := sc_log st |}.

(** [parse_markup = true; out += closing; closing = null] *)
Definition sc_close (closing : string) (st : scanner) : scanner :=
  {| sc_out := sc_out st +:+ closing;
     sc_last_was_heading := sc_last_was_heading st; sc_fmton := sc_fmton st;
     sc_newline_br := sc_newline_br st; sc_parse_markup := true;
     sc_ps := sc_ps st; sc_closing := None; sc_log := sc_log st |}.

Definition sc_set_ps (ps : parser_state) (logs : list log_entry)
  (st : scanner) : scanner :=
  {| sc_out := sc_out st; sc_last_was_heading := sc_last_was_heading st;
     sc_fmton := sc_fmton st; sc_newline_br := sc_newline_br st;
     sc_parse_markup := sc_parse_markup st; sc_ps := ps;
     sc_closing := sc_closing st; sc_log := sc_log st ++ logs |}.

Definition sc_toggle (st : scanner) : scanner :=
  {| sc_out := sc_out st; sc_last_was_heading := sc_last_was_heading st;
     sc_fmton := negb (sc_fmton st); sc_newline_br := sc_newline_br st;
     sc_parse_markup := sc_parse_markup st; sc_ps := sc_ps st;
     sc_closing := sc_closing st; sc_log := sc_log st |}.

(** [last_was_heading = (parser_state.ps_heading !== null)] *)
Definition sc_note_heading (st : scanner) : scanner :=
  {| sc_out := sc_out st;
     sc_last_was_heading := bool_decide (ps_heading (sc_ps st) ≠ None);
     sc_fmton := sc_fmton st; sc_newline_br := sc_newline_br st;
     sc_parse_markup := sc_parse_markup st; sc_ps := sc_ps st;
     sc_closing := sc_closing st; sc_log := sc_log st |}.

Definition scanner_init : scanner :=
  {| sc_out := EmptyString; sc_last_was_heading := false; sc_fmton := false;
     sc_newline_br := false; sc_parse_markup := true;
     sc_ps := {| ps_list := None; ps_heading := None |};
     sc_closing := None; sc_log := [] |}.

(** The line holds one of the four block markers at its start. *)
Definition is_block_marker (line : string) : bool :=
  String.prefix "{noformat" line || String.prefix "{code" line ||
  String.prefix "{panel" line || String.prefix "{quote" line.

Section Blocks.

Context (ent_encode : string → string) (url_parse : string → option Url)
        (url_format : Url → string).

(** The statements under [if (lt_noformat || lt_code || lt_panel ||
    lt_quote)]: the line as they leave it, and the variables. *)
Definition block_marker (line : string) (st : scanner)
  : result (string * scanner) :=
  let lt_noformat := String.prefix "{noformat" line in
  let lt_code := String.prefix "{code" line in
  let lt_panel := String.prefix "{panel" line in
  let lt_quote := String.prefix "{quote" line in
  let st :=
    match ps_list (sc_ps st) with
    | Some _ =>
        sc_put ("</ul>" +:+ nl)
          (sc_set_ps {| ps_list := None;
                        ps_heading := ps_heading (sc_ps st) |} [] st)
    | None => st
    end in
  '(line, st) ←
    (if sc_fmton st then
       match sc_closing st with
       | Some closing => Ok (EmptyString, sc_close closing st)
       | None => Throw (AssertionError "closing")
       end
     else if lt_quote then
       line' ← eat_block line;
       Ok (line', sc_block true true "</blockquote>"
                    (sc_put ("<blockquote>" +:+ nl) st))
     else if lt_panel then
       line' ← eat_block line;
       Ok (line', sc_block false true ("</div></div>" +:+ nl)
                    (sc_put (format_panel_open ["panel"] +:+ nl) st))
     else if lt_noformat then
       line' ← eat_block line;
       Ok (line', sc_block false false ("</pre></div></div>" +:+ nl)
                    (sc_put (format_panel_open ["preformatted"; "panel"]
                             +:+ "<pre>" +:+ nl) st))
     else if lt_code then
       line' ← eat_block line;
       Ok (line', sc_block false false ("</pre></div></div>" +:+ nl)
                    (sc_put (format_panel_open ["code"; "panel"]
                             +:+ "<pre>" +:+ nl) st))
     else Ok (line, st));
  Ok (line, sc_toggle st).

(** The statements under [if (procneeded || line !== '')]. *)
Definition process_line (line : string) (st : scanner) : result scanner :=
  st ← (if sc_parse_markup st then
          '(html, ps, logs) ←
            parse_jira_markup ent_encode url_parse url_format line (sc_ps st);
          Ok (sc_put html (sc_set_ps ps logs st))
        else Ok (sc_put (ent_encode line) st));
  Ok (if sc_fmton st then
        sc_put (if sc_newline_br st then "<br>" +:+ nl else nl) st
      else if bool_decide (ps_heading (sc_ps st) = None) &&
              negb (sc_last_was_heading st)
      then sc_put ("<br>" +:+ nl) st
      else st).

(** The body of the loop over the lines. *)
Definition scan_line (line : string) (st : scanner) : result scanner :=
  '(line, procneeded, st) ←
    (if is_block_marker line then
       '(line', st') ← block_marker line st; Ok (line', false, st')
     else Ok (line, true, st));
  st ← (if procneeded || negb (bool_decide (line = EmptyString))
        then process_line line st else Ok st);
  Ok (sc_note_heading st).

Fixpoint scan_lines (lines : list string) (st : scanner) : result scanner :=
  match lines with
  | [] => Ok st
  | line :: rest => st' ← scan_line line st; scan_lines rest st'
  end.

(** The statements after the loop, and the value returned. *)
Definition scanner_finish (st : scanner) : string :=
  match sc_closing st with
  | Some closing => sc_out st +:+ closing
  | None => sc_out st
  end.

Definition format_markup_fallback (desc : string)
  : result (string * list log_entry) :=
  st ← scan_lines (split_lines desc) scanner_init;
  Ok (scanner_finish st, sc_log st).

End Blocks.

(** ** Stand-ins for the collaborators, for evaluating examples *)

(** Modelled from the spec: the entity encoder ([mod_ent.encode], of the
    package [ent], which is not part of the sources).  It escapes [&], [<],
    [>] and the double quote, and leaves every other character as it is. *)
Fixpoint ent_encode_model (s : string) : string :=
  match s with
  | EmptyString => EmptyString
  | String c r =>
      (if Ascii.eqb c "&" then "&amp;"
       else if Ascii.eqb c "<" then "&lt;"
       else if Ascii.eqb c ">" then "&gt;"
       else if Ascii.eqb c "034" then "&quot;"
       else String c EmptyString) +:+ ent_encode_model r
  end.

(** A stand-in for [mod_url.parse]: it raises on a text that starts with
    [http://%] (Node.js raises [URIError] when the user information of a URL
    cannot be percent-decoded) and otherwise returns a URL object with no
    host name. *)
Definition url_parse_model (s : string) : option Url :=
  if String.prefix "http://%" s then None
  else Some {| protocol := None; slashes := false; auth := None;
               host := None; port := None; hostname := None; hash := None;
               search := None; query := None; pathname := Some s;
               path := Some s; href := Some s |}.

(** A stand-in for [mod_url.format]. *)
Definition url_format_model (u : Url) : string := default EmptyString (href u).

Definition ps0 : parser_state := {| ps_list := None; ps_heading := None |}.

(** ** Vocabulary of the statements about the projector *)

(** The value of a data property, [undefined] when there is none. *)
Definition field (v : jsval) (k : string) : jsval :=
  default JUndef (own v k).

(** A comment carries a visibility restriction. *)
Definition restricted (com : jsval) : bool := truthy (field com "visibility").

(** The keys kept of the author and of the update author of a comment. *)
Definition AUTHOR_KEYS : list string :=
  ["name"; "key"; "emailAddress"; "displayName"].

(** What a comment is made of, besides its visibility restriction. *)
Definition COMMENT_KEYS : list string :=
  ["id"; "created"; "updated"; "body"; "author"; "updateAuthor"].

(** [o] holds the person [a] (of a comment) with each of its four
    properties, or holds nobody when [a] is not set. *)
Definition author_retained (a : jsval) (o : option jsval) : Prop :=
  if truthy a then
    ∃ m : gmap string jsval, o = Some (JObj m) ∧ dom m = list_to_set AUTHOR_KEYS ∧
      ∀ k, k ∈ AUTHOR_KEYS → m !! k = Some (field a k)
  else o = None.

(** [o] is the comment [com] with all that a comment is made of: its
    identifier, time stamps, body, author and update author. *)
Definition comment_retained (com o : jsval) : Prop :=
  ∃ m : gmap string jsval, o = JObj m ∧
    dom m ⊆ list_to_set COMMENT_KEYS ∧
    m !! "id" = Some (field com "id") ∧
    m !! "created" = Some (field com "created") ∧
    m !! "updated" = Some (field com "updated") ∧
    m !! "body" = Some (field com "body") ∧
    author_retained (field com "author") (m !! "author") ∧
    author_retained (field com "updateAuthor") (m !! "updateAuthor").

(** A person made of the four properties of [AUTHOR_KEYS], and a comment
    made of the six of [COMMENT_KEYS], its author and update author being
    such persons. *)
Definition person_shaped (a : jsval) : Prop :=
  ∃ m : gmap string jsval, a = JObj m ∧ dom m = list_to_set AUTHOR_KEYS.

Definition comment_shaped (com : jsval) : Prop :=
  (∃ m : gmap string jsval, com = JObj m ∧ dom m = list_to_set COMMENT_KEYS) ∧
  person_shaped (field com "author") ∧
  person_shaped (field com "updateAuthor").

(** The issue [other] carries the label [label]. *)
Definition has_label (label : string) (other : jsval) : bool :=
  match field (field other "fields") "labels" with
  | JArr l => existsb (is_str label) l
  | _ => false
  end.

(** The related issue of key [k] is Visible: it was fetched, and it carries
    the public label unless the mode is unrestricted. *)
Definition visible (UNRESTRICTED : bool) (label : string)
  (other_issues : gmap string jsval) (k : string) : bool :=
  match other_issues !! k with
  | Some other => truthy other && (UNRESTRICTED || has_label label other)
  | None => false
  end.

(** The end [side] of the link [il] is there and is Visible. *)
Definition endpoint_visible (UNRESTRICTED : bool) (label : string)
  (other_issues : gmap string jsval) (il : jsval) (side : string) : bool :=
  truthy (field il side) &&
  match field (field il side) "key" with
  | JStr k => visible UNRESTRICTED label other_issues k
  | _ => false
  end.

(** The same, for a key of the form the program accepts. *)
Definition endpoint_allowed (UNRESTRICTED : bool) (label : string)
  (other_issues : gmap string jsval) (il : jsval) (side : string) : bool :=
  endpoint_visible UNRESTRICTED label other_issues il side &&
  match field (field il side) "key" with
  | JStr k => key_re k
  | _ => false
  end.

(** [p] is the end [ep] of a link reduced to
    [{ id, key, fields: { summary } }]. *)
Definition endpoint_projected (ep p : jsval) : Prop :=
  ∃ m f : gmap string jsval, p = JObj m ∧
    dom m = {[ "id"; "key"; "fields" ]} ∧
    m !! "id" = Some (field ep "id") ∧
    m !! "key" = Some (field ep "key") ∧
    m !! "fields" = Some (JObj f) ∧
    dom f = {[ "summary" ]} ∧
    f !! "summary" = Some (field (field ep "fields") "summary").

(** The link [il] has an end that is Visible; and the same with
    [endpoint_allowed]. *)
Definition link_visible (UNRESTRICTED : bool) (label : string)
  (other_issues : gmap string jsval) (il : jsval) : bool :=
  endpoint_visible UNRESTRICTED label other_issues il "outwardIssue" ||
  endpoint_visible UNRESTRICTED label other_issues il "inwardIssue".

Definition link_allowed (UNRESTRICTED : bool) (label : string)
  (other_issues : gmap string jsval) (il : jsval) : bool :=
  endpoint_allowed UNRESTRICTED label other_issues il "outwardIssue" ||
  endpoint_allowed UNRESTRICTED label other_issues il "inwardIssue".

(** The end [side] of the sanitised link [m] is the projection of that end
    of [il] if it is allowed, and is not there otherwise. *)
Definition side_projected (UNRESTRICTED : bool) (label : string)
  (other_issues : gmap string jsval) (il : jsval) (m : gmap string jsval)
  (side : string) : Prop :=
  if endpoint_allowed UNRESTRICTED label other_issues il side then
    ∃ p, m !! side = Some p ∧ endpoint_projected (field il side) p
  else m !! side = None.

(** [lo] is the sanitised form of the link [il]: its identifier, the four
    properties of its type, and its allowed ends. *)
Definition link_projected (UNRESTRICTED : bool) (label : string)
  (other_issues : gmap string jsval) (il lo : jsval) : Prop :=
  ∃ m ty : gmap string jsval, lo = JObj m ∧
    dom m ⊆ {[ "id"; "type"; "outwardIssue"; "inwardIssue" ]} ∧
    m !! "id" = Some (field il "id") ∧
    m !! "type" = Some (JObj ty) ∧
    dom ty = {[ "id"; "name"; "inward"; "outward" ]} ∧
    (∀ k, k ∈ ["id"; "name"; "inward"; "outward"] →
          ty !! k = Some (field (field il "type") k)) ∧
    side_projected UNRESTRICTED label other_issues il m "outwardIssue" ∧
    side_projected UNRESTRICTED label other_issues il m "inwardIssue".

(** ** A raw issue and its sanitised form, for evaluating examples *)

Definition obj (l : list (string * jsval)) : jsval := JObj (list_to_map l).

Definition ex_person : jsval :=
  obj [("name", JStr "ann"); ("key", JStr "ann"); ("emailAddress", JStr "a@x");
       ("displayName", JStr "Ann"); ("active", JBool true)].

Definition ex_person_out : jsval :=
  obj [("name", JStr "ann"); ("key", JStr "ann"); ("emailAddress", JStr "a@x");
       ("displayName", JStr "Ann")].

Definition ex_link_type : jsval :=
  obj [("id", JStr "7"); ("name", JStr "Relates"); ("inward", JStr "relates to");
       ("outward", JStr "relates to")].

(** An end of a link, as the tracker gives it. *)
Definition ex_endpoint (key : string) : jsval :=
  obj [("id", JStr "10"); ("key", JStr key); ("self", JStr "http://jira/10");
       ("fields", obj [("summary", JStr "other bug"); ("status", JStr "Open")])].

Definition ex_endpoint_out (key : string) : jsval :=
  obj [("id", JStr "10"); ("key", JStr key);
       ("fields", obj [("summary", JStr "other bug")])].

Definition ex_link (side key : string) : jsval :=
  obj [("id", JStr "1"); ("type", ex_link_type); (side, ex_endpoint key)].

(** A fetched related issue that carries the public label. *)
Definition ex_other : jsval :=
  obj [("fields", obj [("labels", JArr [JStr "public"])])].

(** [OS-2] is public, [OS-3] could be fetched but is not public, and
    [OS2-7] is public. *)
Definition ex_other_issues : gmap string jsval :=
  list_to_map
    [("OS-2", ex_other); ("OS-3", obj [("fields", obj [("labels", JArr [])])]);
     ("OS2-7", ex_other)].

Definition ex_comment_1 : jsval :=
  obj [("id", JStr "c1"); ("created", JStr "2019-01-01"); ("updated", JStr "2019-01-02");
       ("body", JStr "first"); ("author", ex_person); ("updateAuthor", ex_person);
       ("self", JStr "http://jira/c1")].

Definition ex_comment_2 : jsval :=
  obj [("id", JStr "c2"); ("created", JStr "2019-01-03"); ("updated", JStr "2019-01-03");
       ("body", JStr "second"); ("author", ex_person); ("updateAuthor", ex_person);
       ("visibility", obj [("type", JStr "role"); ("value", JStr "Developers")])].

Definition ex_comment_1_out : jsval :=
  obj [("id", JStr "c1"); ("created", JStr "2019-01-01"); ("updated", JStr "2019-01-02");
       ("body", JStr "first"); ("author", ex_person_out);
       ("updateAuthor", ex_person_out)].

Definition ex_issue : jsval :=
  obj [("id", JStr "100"); ("key", JStr "OS-1");
       ("fields", obj
          [("summary", JStr "hello");
           ("labels", JArr [JStr "public"; JStr "secret"]);
           ("issuetype", obj [("id", JStr "1"); ("name", JStr "Bug");
                              ("description", JStr ""); ("self", JStr "http://jira/t1")]);
           ("assignee", JNull);
           ("fixVersions", JArr
              [obj [("id", JStr "5"); ("name", JStr "v1"); ("archived", JBool false);
                    ("released", JBool true); ("self", JStr "http://jira/v5")]]);
           ("issuelinks", JArr
              [ex_link "outwardIssue" "OS-2"; ex_link "inwardIssue" "OS-3"]);
           ("comment", obj
              [("maxResults", JNum 7); ("total", JNum 9); ("startAt", JNum 0);
               ("comments", JArr [ex_comment_1; ex_comment_2])])])].

Definition ex_out : jsval :=
  obj [("issue", obj
          [("id", JStr "100"); ("key", JStr "OS-1");
           ("fields", obj
              [("summary", JStr "hello");
               ("issuetype", obj [("id", JStr "1"); ("name", JStr "Bug")]);
               ("fixVersions", JArr
                  [obj [("id", JStr "5"); ("name", JStr "v1");
                        ("released", JBool true)]]);
               ("issuelinks", JArr
                  [obj [("id", JStr "1"); ("type", ex_link_type);
                        ("outwardIssue", ex_endpoint_out "OS-2")]]);
               ("labels", JArr [JStr "public"]);
               ("comment", obj
                  [("maxResults", JNum 1); ("total", JNum 1); ("startAt", JNum 0);
                   ("comments", JArr [ex_comment_1_out])])])]);
       ("remotelinks", JArr [])].

Definition ex_logs : list log_entry :=
  [LogError "comment maxResults and total not equal for issue"].

(** An issue whose only link leads to [OS2-7]. *)
Definition ex_issue_os2 : jsval :=
  obj [("id", JStr "101"); ("key", JStr "OS-4");
       ("fields", obj
          [("summary", JStr "linked"); ("labels", JArr [JStr "public"]);
           ("issuelinks", JArr [ex_link "outwardIssue" "OS2-7"])])].

Definition ex_out_os2 : jsval :=
  obj [("issue", obj
          [("id", JStr "101"); ("key", JStr "OS-4");
           ("fields", obj
              [("summary", JStr "linked"); ("issuelinks", JArr []);
               ("labels", JArr [JStr "public"])])]);
       ("remotelinks", JArr [])].

(** ** Vocabulary of the statements about the converter *)

(** The locals of a run that started after the marker of a heading: [pre]
    was put out first, and [ps] holds the heading [hd]. *)
Definition in_heading (pre hd : string) (s : locals) : locals :=
  set_ps {| ps_list := ps_list (v_ps s); ps_heading := Some hd |}
    (set_out (pre :: v_out s) s).

(** A letter, as [prefmtok] sees it. *)
Definition is_letter (c : ascii) : bool :=
  let n := nat_of_ascii c in
  ((65 <=? n) && (n <=? 90)) || ((97 <=? n) && (n <=? 122)).

(** A character that an entity encoder has no reason to touch: printable
    ASCII other than the ampersand, the angle brackets and the quotes. *)
Definition is_plain_char (c : ascii) : bool :=
  let n := nat_of_ascii c in
  (32 <=? n) && (n <? 127) &&
  negb (existsb (Nat.eqb n) [34; 38; 39; 60; 62]).

Fixpoint plain_text (t : string) : bool :=
  match t with
  | EmptyString => true
  | String c r => is_plain_char c && plain_text r
  end.

(** The anchor element [format_remote_link] builds. *)
Definition anchor (href text : string) : string :=
  "<a rel=" +:+ dq +:+ "noopener noreferrer" +:+ dq +:+ " target=" +:+ dq
    +:+ "_blank" +:+ dq +:+ " href=" +:+ dq +:+ href +:+ dq +:+ ">" +:+ text
    +:+ "</a>".

(** The tag that closes bold or italic. *)
Definition closing_tag (f : fmt) : string :=
  match f with BOLD => "</b>" | ITALIC => "</i>" | CODE => "</code>" end.

(** The symbol of bold or italic. *)
Definition symbol_of (f : fmt) : option ascii :=
  match f with
  | BOLD => Some "*"%char
  | ITALIC => Some "_"%char
  | CODE => None
  end.

(** What an iteration in running text leaves alone, and that it moves
    on. *)
Definition text_frame (s s' : locals) : Prop :=
  v_i s < v_i s' ∧ v_state s' = v_state s ∧ v_ps s' = v_ps s ∧
  v_log s' = v_log s.

(** How an iteration changes the open formats: not at all, by closing the
    last one, or by opening one; and bold or italic is only opened by its
    symbol after a character that lets it take effect. *)
Definition fmt_change (c : ascii) (pc : option ascii) (f f' : list fmt)
  : Prop :=
  f' = f ∨ f' = removelast f ∨ f' = f ++ [CODE] ∨
  (f' = f ++ [BOLD] ∧ c = "*"%char ∧ prefmtok pc = true) ∨
  (f' = f ++ [ITALIC] ∧ c = "_"%char ∧ prefmtok pc = true).

(** What an iteration outside the leading spaces does to the index, the
    state, the open formats and [ps]. *)
Definition text_step (c : ascii) (pc : option ascii) (s s' : locals) : Prop :=
  v_i s < v_i s' ∧ v_state s' ≠ LEADING_SPACES ∧
  fmt_change c pc (v_formats s) (v_formats s') ∧
  (1 ≤ v_i s → v_ps s' = v_ps s).

(** The number of iterations the loop can still make. *)
Definition measure (desc : string) (s : locals) : nat :=
  (String.length desc - v_i s) +
  match v_state s with LEADING_SPACES => 1 | _ => 0 end.

(** ** Lines and locals, for evaluating examples *)

(** The locals when the loop has read [{{a] of the line [{{a*b], and after
    it has read the [*] too. *)
Definition ex_in_code : locals :=
  {| v_i := 3; v_text := "a"; v_formats := [CODE]; v_out := ["<code>"];
     v_state := TEXT; v_link_title := ""; v_link_url := "";
     v_leading_spaces := 0; v_ps := ps0; v_log := [] |}.

Definition ex_in_code_next : locals :=
  {| v_i := 4; v_text := "a*"; v_formats := [CODE]; v_out := ["<code>"];
     v_state := TEXT; v_link_title := ""; v_link_url := "";
     v_leading_spaces := 0; v_ps := ps0; v_log := [] |}.

(** The locals when the loop has read [a ] of the line [a *b* c], when it
    has read the first [*] too, and when it has read [a *b]. *)
Definition ex_before_bold : locals :=
  {| v_i := 2; v_text := "a "; v_formats := []; v_out := [];
     v_state := TEXT; v_link_title := ""; v_link_url := "";
     v_leading_spaces := 0; v_ps := ps0; v_log := [] |}.

Definition ex_bold_open : locals :=
  {| v_i := 3; v_text := ""; v_formats := [BOLD]; v_out := ["a "; "<b>"];
     v_state := TEXT; v_link_title := ""; v_link_url := "";
     v_leading_spaces := 0; v_ps := ps0; v_log := [] |}.

Definition ex_in_bold : locals :=
  {| v_i := 4; v_text := "b"; v_formats := [BOLD]; v_out := ["a "; "<b>"];
     v_state := TEXT; v_link_title := ""; v_link_url := "";
     v_leading_spaces := 0; v_ps := ps0; v_log := [] |}.

(** The locals when the loop has read [_a *b] of the line [_a *b* c]:
    italic was opened first, bold last. *)
Definition ex_in_italic_bold : locals :=
  {| v_i := 5; v_text := "b"; v_formats := [ITALIC; BOLD];
     v_out := ["<i>"; "a "; "<b>"]; v_state := TEXT; v_link_title := "";
     v_link_url := ""; v_leading_spaces := 0; v_ps := ps0; v_log := [] |}.

(** A link on which [mod_url.parse] raises, without and with a character
    that entity encoding changes. *)
Definition ex_bad_url : string := "http://%zz@x/".

Definition ex_bad_url_quote : string := "http://%" +:+ dq +:+ "@x/".

(** ** Vocabulary of the further statements about the projector *)

(** The names a sanitised [fields] object can hold. *)
Definition FIELD_NAMES : list string :=
  ["summary"; "issuetype"; "priority"; "status"; "created"; "updated";
   "creator"; "reporter"; "assignee"; "resolution"; "resolutiondate";
   "fixVersions"; "issuelinks"; "labels"; "description"; "comment"].

(** The fields [copy_simple] is called on. *)
Definition SIMPLE_FIELDS : list string :=
  ["created"; "updated"; "resolutiondate"; "description"].

(** [o] is the remote link [rl] reduced to
    [{ id, object: { url, title } }]. *)
Definition remotelink_projected (rl o : jsval) : Prop :=
  o = obj [("id", field rl "id");
           ("object", obj [("url", field (field rl "object") "url");
                           ("title", field (field rl "object") "title")])].

(** A remote link as the tracker gives it, and its sanitised form. *)
Definition ex_remotelink : jsval :=
  obj [("id", JNum 7); ("self", JStr "http://jira/rl/7");
       ("object", obj [("url", JStr "https://example.com/r/1");
                       ("title", JStr "review"); ("icon", obj [])])].

Definition ex_remotelink_out : jsval :=
  obj [("id", JNum 7);
       ("object", obj [("url", JStr "https://example.com/r/1");
                       ("title", JStr "review")])].

Definition ex_out_remote : jsval :=
  obj [("issue", field ex_out "issue");
       ("remotelinks", JArr [ex_remotelink_out])].

(** ** Vocabulary of the statements about the requests *)

(** The key of the end [side] of the link [il], if the link has that end
    and its key is a string. *)
Definition endpoint_key (il : jsval) (side : string) : option string :=
  if truthy (field il side) then
    match field (field il side) "key" with
    | JStr k => Some k
    | _ => None
    end
  else None.

(** The keys of the ends of the links [ils], in the order of the links. *)
Definition linked_keys (ils : list jsval) : list string :=
  ils ≫= λ il, omap (endpoint_key il) ["outwardIssue"; "inwardIssue"].

(** The issue that the callback of the request for [key] stores, if
    any. *)
Definition stored (UNRESTRICTED : bool) (CONFIG_label : string)
  (be_issue_get : string → fetched) (key : string) : option jsval :=
  match be_issue_get key with
  | Fetched other =>
      match is_public UNRESTRICTED CONFIG_label other with
      | Ok true => Some other
      | _ => None
      end
  | FetchError _ => None
  end.

(** The remote link [rl] leads to one of the domains [domains]. *)
Definition leads_to (url_parse : string → option Url) (domains : list string)
  (rl : jsval) : Prop :=
  ∃ u parsed domain,
    field (field rl "object") "url" = JStr u ∧ url_parse u = Some parsed ∧
    hostname parsed = Some domain ∧ domain ∈ domains.

(** A backend for evaluating examples: [OS-2] is public, [OS-3] is not,
    and nothing else is found; the issue [100] has two remote links. *)
Definition ex_be_issue_get (key : string) : fetched :=
  if String.eqb key "OS-2" then Fetched ex_other
  else if String.eqb key "OS-3" then
    Fetched (obj [("fields", obj [("labels", JArr [])])])
  else FetchError true.

Definition ex_remotelink_to (url : string) : jsval :=
  obj [("id", JNum 8); ("object", obj [("url", JStr url); ("title", JStr "t")])].

Definition ex_be_remotelink_get (id : jsval) : option jsval :=
  match id with
  | JStr "100" =>
      Some (JArr [ex_remotelink_to "https://example.com/r/1";
                  ex_remotelink_to "https://manta.example.net/signed"])
  | _ => None
  end.

(** A stand-in for [mod_url.parse] that knows the host names of the two
    links above. *)
Definition ex_url_parse (s : string) : option Url :=
  Some {| protocol := Some "https:"; slashes := true; auth := None;
          host := None; port := None;
          hostname :=
            if String.prefix "https://example.com/" s then Some "example.com"
            else if String.prefix "https://manta.example.net/" s
            then Some "manta.example.net"
            else None;
          hash := None; search := None; query := None; pathname := None;
          path := None; href := Some s |}.

(** The public issue [OS-2] as the backend gives it to the handlers. *)
Definition ex_be_issue_full (key : string) : fetched :=
  if String.eqb key "OS-1" then Fetched ex_issue else ex_be_issue_get key.

(** [other_issues] after the first stage of [format_issue] on the example
    issue. *)
Definition ex_resolved : gmap string jsval :=
  list_to_map [("OS-2", ex_other); ("OS-3", JNull)].

(** An issue two of whose links name [__proto__], and [other_issues]
    after the first stage on it: the name is a key, and nothing was
    fetched for it. *)
Definition ex_issue_proto : jsval :=
  obj [("fields", obj [("issuelinks",
    JArr [ex_link "outwardIssue" "__proto__"; ex_link "inwardIssue" "OS-2";
          ex_link "inwardIssue" "__proto__"])])].

Definition ex_resolved_proto : gmap string jsval :=
  list_to_map [("OS-2", ex_other); ("__proto__", JNull)].

(** A stand-in for [JSON.stringify] that shows the [web_url] only. *)
Definition ex_stringify (v : jsval) : string :=
  match field v "web_url" with
  | JStr s => s
  | _ => EmptyString
  end.

(** ** Vocabulary of the further statements about the converter *)

(** A character that does not end the text between brackets, and one that
    does not end the title of a link either. *)
Definition is_link_char (c : ascii) : bool :=
  negb (existsb (Ascii.eqb c) ["]"; "010"; "013"]%char).

Definition is_title_char (c : ascii) : bool :=
  is_link_char c && negb (Ascii.eqb c "|").

Fixpoint all_chars (p : ascii → bool) (s : string) : bool :=
  match s with
  | EmptyString => true
  | String c r => p c && all_chars p r
  end.

(** [link] is a link of the line [desc]: it stands between an opening
    bracket, or the bar that ends a title, and the closing bracket that
    follows, and holds no closing bracket and no end of line itself. *)
Definition link_of_line (desc link : string) : Prop :=
  all_chars is_link_char link = true ∧
  ∃ pre o post, (o = "["%char ∨ o = "|"%char) ∧
    desc = pre +:+ String o (link +:+ String "]" post).

(** The two causes of an exception in [parse_jira_markup]: a line feed or a
    carriage return in the line, and a link of the line to a host that is
    named like a method inherited by the table [SUBS]. *)
Inductive raise_cause (url_parse : string → option Url) (desc : string)
  : exn → Prop :=
  | cause_newline i c :
      String.get i desc = Some c → c = "010"%char ∨ c = "013"%char →
      raise_cause url_parse desc (AssertionError "c")
  | cause_link link url :
      link_of_line desc link →
      url_parse (trim link) = Some url →
      SUBS (hostname url) = SubsInheritedFunction →
      raise_cause url_parse desc TypeError.

(** What was collected of a link when the loop is at the index [i] of the
    line: [link] stands after the character [o], and ends before [i]. *)
Definition collected (o : ascii) (desc link : string) (i : nat) : Prop :=
  all_chars is_link_char link = true ∧
  ∃ pre post, desc = pre +:+ String o (link +:+ post) ∧
              i = String.length pre + S (String.length link).

(** While the title of a link is read, the title is what stands after the
    bracket and no URL was read; while its URL is read, the URL is what
    stands after the bar. *)
Definition collecting (desc : string) (s : locals) : Prop :=
  match v_state s with
  | LINK_TITLE =>
      v_link_url s = "" ∧ collected "[" desc (v_link_title s) (v_i s)
  | LINK_URL => collected "|" desc (v_link_url s) (v_i s)
  | _ => True
  end.

(** The tags the converter writes by itself. *)
Definition MARKUP_TAGS : list string :=
  ["<code>"; "</code>"; "<b>"; "</b>"; "<i>"; "</i>"; "<ul>"; "<ol>"; "<li>";
   "</li>"; "</li></ul>"; "</li></ol>"; "<b>@"; "<b>[attachment "; "]</b>";
   "<h1>"; "<h2>"; "<h3>"; "<h4>"; "<h5>"; "<h6>";
   "</h1>"; "</h2>"; "</h3>"; "</h4>"; "</h5>"; "</h6>"].

(** The target of an anchor is entity encoded, or is a text on which
    [mod_url.parse] raises. *)
Definition href_escaped (ent_encode : string → string)
  (url_parse : string → option Url) (href : string) : Prop :=
  (∃ u, href = ent_encode u) ∨ url_parse href = None.

(** What the HTML of a line is made of: a tag of the converter, an entity
    encoded text, or an anchor around an entity encoded text. *)
Definition piece (ent_encode : string → string)
  (url_parse : string → option Url) (x : string) : Prop :=
  x ∈ MARKUP_TAGS ∨ (∃ t, x = ent_encode t) ∨
  ∃ href t, x = anchor href (ent_encode t) ∧
            href_escaped ent_encode url_parse href.

(** All that was put out is such a piece, and so is the closing tag of the
    heading, if one is open. *)
Definition pieces_ok (ent_encode : string → string)
  (url_parse : string → option Url) (s : locals) : Prop :=
  Forall (piece ent_encode url_parse) (v_out s) ∧
  match ps_heading (v_ps s) with
  | Some hd => "</" +:+ hd +:+ ">" ∈ MARKUP_TAGS
  | None => True
  end.

(** A character that is special to the converter wherever it stands. *)
Definition is_markup_char (c : ascii) : bool :=
  existsb (Ascii.eqb c) ["*"; "_"; "["; "010"; "013"]%char.

(** A text without such characters and without two opening braces in a
    row. *)
Fixpoint plain_run (s : string) : bool :=
  match s with
  | EmptyString => true
  | String c r =>
      negb (is_markup_char c) &&
      negb (Ascii.eqb c "{" && String.prefix "{" r) && plain_run r
  end.

Definition starts_list_item (body : string) : bool :=
  match body with
  | String c (String " " _) => existsb (Ascii.eqb c) ["*"; "-"; "#"]%char
  | _ => false
  end.

Definition starts_heading (body : string) : bool :=
  match body with
  | String "h" (String d (String "." _)) => is_heading_level (Some d)
  | _ => false
  end.

(** What follows the leading spaces of a line of plain text: it is not
    empty, starts with no space and no list marker, and is a plain run. *)
Definition plain_body (body : string) : bool :=
  match body with
  | EmptyString => false
  | String c _ =>
      negb (Ascii.eqb c " ") && negb (starts_list_item body) && plain_run body
  end.

(** The title of a link: it holds no [|] and no closing bracket, and does
    not start as a mention or an attachment does. *)
Definition link_title_text (t : string) : bool :=
  all_chars is_title_char t &&
  negb (String.prefix "~" t) && negb (String.prefix "^" t).

(** The characters that the states between brackets append to what they
    collect, and what they collect it in. *)
Definition collects (st : pstate) (c : ascii) : bool :=
  match st with
  | LINK_TITLE => is_title_char c
  | LINK_USER | LINK_ATTACHMENT | LINK_URL => is_link_char c
  | LEADING_SPACES | TEXT => false
  end.

Definition collect (t : string) (s : locals) : locals :=
  match v_state s with
  | LINK_URL => set_link_url (v_link_url s +:+ t) s
  | _ => set_link_title (v_link_title s +:+ t) s
  end.

(** The locals after a bracketed form was read in running text from the
    locals [s]: the pending text was put out, then [pieces]; [i] is the
    index after the closing bracket. *)
Definition after_brackets (ent_encode : string → string) (i : nat)
  (title url : string) (pieces : list string) (logs : list log_entry)
  (s : locals) : locals :=
  {| v_i := i; v_text := ""; v_formats := v_formats s;
     v_out := v_out (commit_text ent_encode s) ++ pieces; v_state := TEXT;
     v_link_title := title; v_link_url := url;
     v_leading_spaces := v_leading_spaces s; v_ps := v_ps s;
     v_log := v_log s ++ logs |}.

(** The locals when the loop has read [see ] of a line. *)
Definition ex_after_see : locals :=
  {| v_i := 4; v_text := "see "; v_formats := []; v_out := [];
     v_state := TEXT; v_link_title := ""; v_link_url := "";
     v_leading_spaces := 0; v_ps := ps0; v_log := [] |}.

(** A stand-in for [mod_url.parse] that finds the host [constructor] in
    every text. *)
Definition url_parse_constructor (s : string) : option Url :=
  Some {| protocol := None; slashes := false; auth := None; host := None;
          port := None; hostname := Some "constructor"; hash := None;
          search := None; query := None; pathname := None; path := None;
          href := Some s |}.

(** ** Vocabulary of the statements about the block scanner *)

(** What the scanner writes by itself: the tags that open and close the
    blocks and the list, and the line breaks. *)
Definition BLOCK_TAGS : list string :=
  ["</ul>" +:+ nl; "<blockquote>" +:+ nl; "</blockquote>";
   format_panel_open ["panel"] +:+ nl; "</div></div>" +:+ nl;
   format_panel_open ["preformatted"; "panel"] +:+ "<pre>" +:+ nl;
   format_panel_open ["code"; "panel"] +:+ "<pre>" +:+ nl;
   "</pre></div></div>" +:+ nl; "<br>" +:+ nl; nl].

Definition block_piece (ent_encode : string → string)
  (url_parse : string → option Url) (x : string) : Prop :=
  x ∈ BLOCK_TAGS ∨ piece ent_encode url_parse x.

(** What was put out is made of such pieces, and a block is open exactly
    when [closing] holds the tags that close it. *)
Definition scanner_ok (ent_encode : string → string)
  (url_parse : string → option Url) (st : scanner) : Prop :=
  (∃ pieces, sc_out st = join pieces ∧
             Forall (block_piece ent_encode url_parse) pieces) ∧
  match sc_closing st with
  | Some closing => closing ∈ BLOCK_TAGS
  | None => sc_fmton st = false
  end.

Definition is_eol (c : ascii) : bool := Ascii.eqb c LF || Ascii.eqb c CR.

(** Why the scanner raises on a line: a carriage return stands in a line
    that holds no block marker, or the line holds a link to a host that is
    named like a method inherited by the table [SUBS]. *)
Definition scan_raise_cause (url_parse : string → option Url)
  (line : string) (e : exn) : Prop :=
  (e = AssertionError "c" ∧ is_block_marker line = false ∧
   ∃ i, String.get i line = Some CR) ∨
  (e = TypeError ∧
   ∃ link url, link_of_line line link ∧ url_parse (trim link) = Some url ∧
               SUBS (hostname url) = SubsInheritedFunction).

(** The text that the scanner hands on for a line: the line itself, or
    what [eat_block] leaves of a line that starts with a block marker. *)
Definition handed_on (line text : string) : Prop :=
  if is_block_marker line then eat_block line = Ok text else text = line.

(** The four block markers, without what may follow them in the braces. *)
Definition BLOCK_MARKERS : list string :=
  ["{noformat"; "{code"; "{panel"; "{quote"].

Definition no_brace (s : string) : bool :=
  all_chars (λ c, negb (Ascii.eqb c "}")) s.

(** Two lines that are the same, or that start with the same block marker
    and differ only in what stands between the marker and the closing
    brace. *)
Definition same_marker (l l' : string) : Prop :=
  l = l' ∨
  ∃ m a a' rest, m ∈ BLOCK_MARKERS ∧ no_brace a = true ∧ no_brace a' = true ∧
                 l = m +:+ a +:+ "}" +:+ rest ∧ l' = m +:+ a' +:+ "}" +:+ rest.

(** The lines of a literal block as they are put out: each is entity
    encoded and followed by a line feed; what follows the marker on the
    opening line is put out when it is not empty. *)
Definition literal_lines (ent_encode : string → string) (rest : string)
  (body : list string) : string :=
  (if bool_decide (rest = EmptyString) then EmptyString
   else ent_encode rest +:+ nl) +:+
  join ((λ l, ent_encode l +:+ nl) <$> body).

Fixpoint skip_spaces (s : string) : string :=
  match s with
  | String c r => if Ascii.eqb c " " then skip_spaces r else s
  | EmptyString => s
  end.

Fixpoint count_spaces (s : string) : nat :=
  match s with
  | String c r => if Ascii.eqb c " " then S (count_spaces r) else 0
  | EmptyString => 0
  end.

(** A line of plain text: it holds no block marker, and is blank or has,
    after its leading spaces, a plain body that is not a heading. *)
Definition is_plain_line (l : string) : bool :=
  negb (is_block_marker l) &&
  match skip_spaces l with
  | EmptyString => true
  | body => plain_body body && negb (starts_heading l)
  end.

(** What a line of plain text is rendered as. *)
Definition plain_html (ent_encode : string → string) (l : string) : string :=
  match skip_spaces l with
  | EmptyString => EmptyString
  | _ => ent_encode l
  end.

(** What ends a line that was put out, in a block and outside. *)
Definition line_end (st : scanner) : string :=
  if sc_fmton st then (if sc_newline_br st then "<br>" +:+ nl else nl)
  else "<br>" +:+ nl.

(** What the scanner puts out before a block marker when a list is
    open. *)
Definition list_closed (st : scanner) : string :=
  match ps_list (sc_ps st) with
  | Some _ => "</ul>" +:+ nl
  | None => EmptyString
  end.

(** The blocks whose lines are converted: marker, what opens the block,
    whether its lines end in a break, and what closes it. *)
Definition MARKUP_BLOCKS : list (string * string * bool * string) :=
  [("{quote", "<blockquote>" +:+ nl, true, "</blockquote>");
   ("{panel", format_panel_open ["panel"] +:+ nl, false,
    "</div></div>" +:+ nl)].

(** The blocks whose lines are taken literally: marker and class. *)
Definition LITERAL_BLOCKS : list (string * string) :=
  [("{noformat", "preformatted"); ("{code", "code")].

(** A text with a carriage return in a line, a text with a literal block,
    and a text of plain lines. *)
Definition ex_text_cr : string := "a" +:+ String CR "b".

Definition ex_text_code : string :=
  "{code:java}" +:+ nl +:+ "<b> [x]" +:+ nl +:+ "{code}" +:+ nl +:+ "a *b*".

Definition ex_text_plain : string :=
  "a < b" +:+ nl +:+ nl +:+ "  c & d".

Definition ex_text_unclosed : string := "{noformat} x" +:+ nl +:+ "a<b".

(** The text with the literal block, with other words in the braces of its
    markers; and a text with a link to the host [constructor] after a
    block marker. *)
Definition ex_text_code_plain : string :=
  "{code}" +:+ nl +:+ "<b> [x]" +:+ nl +:+ "{code:end}" +:+ nl +:+ "a *b*".

Definition ex_text_link : string := "a" +:+ nl +:+ "{quote:q} see [x]".

(** * Properties *)

(** ** Facts about the JavaScript layer *)

Section JsFacts.

Lemma bind_Ok {A B} (m : result A) (f : A → result B) (b : B) :
  m ≫= f = Ok b ↔ ∃ a, m = Ok a ∧ f a = Ok b.
Proof.
  destruct m as [a|e]; simpl; split.
  - intros H. by exists a.
  - by intros (a' & [= <-] & H).
  - discriminate.
  - by intros (a' & [=] & _).
Qed.

Lemma fmap_Ok {A B} (m : result A) (f : A → B) (b : B) :
  f <$> m = Ok b ↔ ∃ a, m = Ok a ∧ b = f a.
Proof.
  destruct m as [a|e]; simpl; split.
  - intros [= <-]. by exists a.
  - by intros (a' & [= <-] & ->).
  - discriminate.
  - by intros (a' & [=] & _).
Qed.

(** A truthy value has properties: reading one never raises. *)
Lemma get_truthy (v : jsval) (k : string) :
  truthy v = true → ∃ x, get v k = Ok x.
Proof.
  destruct v; simpl; try discriminate; intros _; try case_decide; eauto.
Qed.

(** A defined value read under a name other than [length] is an own
    property of an object. *)
Lemma get_own (v : jsval) (k : string) (x : jsval) :
  get v k = Ok x → x ≠ JUndef → k ≠ "length" →
  ∃ o, v = JObj o ∧ o !! k = Some x.
Proof.
  intros H Hx Hk. destruct v; simpl in H; try discriminate;
    try case_decide; simplify_eq; try done.
  exists o. split; [done|]. destruct (o !! k); simpl in *; congruence.
Qed.

Lemma get_obj (o : gmap string jsval) (k : string) :
  get (JObj o) k = Ok (default JUndef (o !! k)).
Proof. done. Qed.

Lemma array_method_Ok (v : jsval) (l : list jsval) :
  array_method v = Ok l ↔ v = JArr l.
Proof. destruct v; simpl; split; intros; simplify_eq; done. Qed.

Lemma mapM_Ok {A B} (f : A → result B) (l : list A) (k : list B) :
  mapM f l = Ok k ↔ Forall2 (λ x y, f x = Ok y) l k.
Proof.
  revert k. induction l as [|x l IH]; intros k; simpl; split.
  - intros [= <-]. constructor.
  - by inversion 1.
  - intros H. apply bind_Ok in H as (y & Hy & H).
    apply bind_Ok in H as (k' & Hk' & [= <-]).
    constructor; [done|]. by apply IH.
  - inversion 1 as [|? y ? k' Hy Hk']; subst.
    apply bind_Ok. exists y. split; [done|].
    apply bind_Ok. exists k'. split; [by apply IH|done].
Qed.

End JsFacts.

(** ** The projector *)

Section ProjectorFacts.

Context (UNRESTRICTED : bool) (CONFIG_label : string)
  (ALLOWED_LABELS : list string).

(** What [copy_keys] leaves under every key. *)
Lemma copy_keys_lookup keys src t t' k :
  copy_keys keys src t = Ok t' →
  t' !! k =
    if decide (k ∈ keys) then
      match get src k with
      | Ok x => if truthy x then Some x else t !! k
      | Throw _ => t !! k
      end
    else t !! k.
Proof.
  revert t. induction keys as [|k0 ks IH]; intros t H; simpl in H.
  - injection H as <-. by rewrite decide_False by apply not_elem_of_nil.
  - apply bind_Ok in H as (v & Hv & H). rewrite (IH _ H).
    destruct (decide (k = k0)) as [->|Hne].
    + rewrite (decide_True (P := k0 ∈ k0 :: ks)) by (apply elem_of_cons; by left).
      rewrite Hv. case_decide; destruct (truthy v);
        by rewrite ?lookup_insert_eq.
    + assert (t0 : (if truthy v then <[k0:=v]> t else t) !! k = t !! k).
      { destruct (truthy v); [by rewrite lookup_insert_ne|done]. }
      rewrite t0.
      destruct (decide (k ∈ ks)) as [Hin|Hnin].
      * by rewrite decide_True by (apply elem_of_cons; by right).
      * rewrite decide_False; [done|].
        intros [?|?]%elem_of_cons; done.
Qed.

(** [copy_keys] cannot raise on a truthy source. *)
Lemma copy_keys_total keys src t :
  truthy src = true → ∃ t', copy_keys keys src t = Ok t'.
Proof.
  intros Hs. revert t. induction keys as [|k ks IH]; intros t; simpl.
  - eauto.
  - destruct (get_truthy src k Hs) as [x ->]. simpl. apply IH.
Qed.

Lemma copy_obj_frame fields fname m m' k :
  copy_obj fields fname m = Ok m' → k ≠ fname → m' !! k = m !! k.
Proof.
  intros H Hk. unfold copy_obj in H. apply bind_Ok in H as (f & Hf & H).
  destruct (truthy f); simpl in H.
  - apply bind_Ok in H as (t & Ht & [= <-]). by rewrite lookup_insert_ne.
  - by injection H as <-.
Qed.

(** The field written by [copy_obj]: nothing for a falsy source, else the
    object made by [copy_keys]. *)
Lemma copy_obj_at fields fname m m' :
  copy_obj fields fname m = Ok m' →
  ∃ f, get fields fname = Ok f ∧
    if truthy f then
      ∃ t, copy_keys ISSUE_OBJECT_KEYS f ∅ = Ok t ∧
           m' !! fname = Some (JObj t)
    else m' = m.
Proof.
  intros H. unfold copy_obj in H. apply bind_Ok in H as (f & Hf & H).
  exists f. split; [done|]. destruct (truthy f); simpl in H.
  - apply bind_Ok in H as (t & Ht & [= <-]). exists t.
    by rewrite lookup_insert_eq.
  - by injection H as <-.
Qed.

Lemma copy_simple_frame fields fname m m' k :
  copy_simple fields fname m = Ok m' → k ≠ fname → m' !! k = m !! k.
Proof.
  intros H Hk. unfold copy_simple in H. apply bind_Ok in H as (v & Hv & H).
  injection H as <-. destruct (truthy v); [by rewrite lookup_insert_ne|done].
Qed.

Lemma copy_fix_versions_frame fields m m' k :
  copy_fix_versions fields m = Ok m' → k ≠ "fixVersions" → m' !! k = m !! k.
Proof.
  intros H Hk. unfold copy_fix_versions in H.
  apply bind_Ok in H as (v & Hv & H). destruct (truthy v).
  - apply bind_Ok in H as (l & Hl & H). apply bind_Ok in H as (ts & Hts & H).
    injection H as <-. by rewrite lookup_insert_ne.
  - by injection H as <-.
Qed.

Lemma copy_issue_links_frame fields oi m m' k :
  copy_issue_links UNRESTRICTED CONFIG_label fields oi m = Ok m' →
  k ≠ "issuelinks" →
  m' !! k = m !! k.
Proof.
  intros H Hk. unfold copy_issue_links in H.
  apply bind_Ok in H as (v & Hv & H). destruct (truthy v).
  - apply bind_Ok in H as (l & Hl & H). apply bind_Ok in H as (ts & Hts & H).
    injection H as <-. by rewrite lookup_insert_ne.
  - by injection H as <-.
Qed.

Lemma copy_comments_frame fields m m' logs k :
  copy_comments fields m = Ok (m', logs) → k ≠ "comment" → m' !! k = m !! k.
Proof.
  intros H Hk. unfold copy_comments in H.
  apply bind_Ok in H as (v & Hv & H). destruct (truthy v).
  - do 5 (apply bind_Ok in H as (? & ? & H)).
    injection H as <- <-. by rewrite lookup_insert_ne.
  - by injection H as <- <-.
Qed.

Lemma summary_only_lookup (summary : jsval) (k : string) :
  k ≠ "summary" →
  (list_to_map [("summary", summary)] : gmap string jsval) !! k = None.
Proof.
  intros Hk. change (<["summary":=summary]> (∅ : gmap string jsval) !! k = None).
  rewrite lookup_insert_ne by done. apply lookup_empty.
Qed.

(** Follows a lookup in [out.fields] back through the calls that do not
    write the key looked up. *)
Ltac chase :=
  repeat first
    [ rewrite lookup_insert_ne by done
    | match goal with
      | H : copy_obj _ _ ?m = Ok ?m' |- context [?m' !! ?k] =>
          rewrite (copy_obj_frame _ _ _ _ k H) by done
      | H : copy_simple _ _ ?m = Ok ?m' |- context [?m' !! ?k] =>
          rewrite (copy_simple_frame _ _ _ _ k H) by done
      | H : copy_fix_versions _ ?m = Ok ?m' |- context [?m' !! ?k] =>
          rewrite (copy_fix_versions_frame _ _ _ k H) by done
      | H : copy_issue_links _ _ _ _ ?m = Ok ?m' |- context [?m' !! ?k] =>
          rewrite (copy_issue_links_frame _ _ _ _ k H) by done
      | H : copy_comments _ ?m = Ok (?m', _) |- context [?m' !! ?k] =>
          rewrite (copy_comments_frame _ _ _ _ k H) by done
      end ].

(** The calls [format_issue_assemble] is made of, each with the field it
    writes: unset before the call, and left alone by the calls after it. *)
Lemma format_issue_assemble_inv issue rls oi out logs :
  format_issue_assemble UNRESTRICTED CONFIG_label ALLOWED_LABELS issue rls oi
    = Ok (out, logs) →
  ∃ (rf fo : gmap string jsval) (labels : list jsval),
    raw_fields issue = Some rf ∧
    sanitized_fields out = Some fo ∧
    rf !! "labels" = Some (JArr labels) ∧
    (∀ fname, fname ∈ OBJECT_FIELDS →
       ∃ m m', copy_obj (JObj rf) fname m = Ok m' ∧
               m !! fname = None ∧ fo !! fname = m' !! fname) ∧
    (∃ m m', copy_fix_versions (JObj rf) m = Ok m' ∧
             m !! "fixVersions" = None ∧
             fo !! "fixVersions" = m' !! "fixVersions") ∧
    (∃ m m', copy_issue_links UNRESTRICTED CONFIG_label (JObj rf) oi m = Ok m' ∧
             m !! "issuelinks" = None ∧
             fo !! "issuelinks" = m' !! "issuelinks") ∧
    (∃ m, copy_comments (JObj rf) m = Ok (fo, logs) ∧ m !! "comment" = None).
Proof.
  intros H. unfold format_issue_assemble in H.
  apply bind_Ok in H as ([] & _ & H).
  apply bind_Ok in H as (? & _ & H).
  apply bind_Ok in H as (id & _ & H).
  apply bind_Ok in H as (key & _ & H).
  apply bind_Ok in H as (fields & Hfields & H).
  apply bind_Ok in H as (summary & _ & H).
  do 12 (apply bind_Ok in H as (? & ? & H)).
  apply bind_Ok in H as (labels & Hlabels & H).
  apply bind_Ok in H as (ls & Hls & H).
  apply bind_Ok in H as (? & ? & H).
  apply bind_Ok in H as ([fo logs'] & Hcom & H).
  apply bind_Ok in H as (rls' & _ & H).
  injection H as <- <-.
  apply array_method_Ok in Hls as ->.
  apply get_own in Hlabels as (rf & -> & Hlabels); [|done..].
  apply get_own in Hfields as (io & -> & Hfields); [|done..].
  exists rf, fo, ls. split_and!.
  - unfold raw_fields. simpl. by rewrite Hfields.
  - done.
  - done.
  - intros fname Hin. unfold OBJECT_FIELDS in Hin.
    repeat (apply elem_of_cons in Hin as [->|Hin]);
      [..|by apply elem_of_nil in Hin];
      (eexists _, _; split; [eassumption|]; split; [|by chase]);
      chase; by apply summary_only_lookup.
  - eexists _, _; split; [eassumption|]. split; [|by chase].
    chase; by apply summary_only_lookup.
  - eexists _, _; split; [eassumption|]. split; [|by chase].
    chase; by apply summary_only_lookup.
  - eexists; split; [eassumption|]. chase; by apply summary_only_lookup.
Qed.

Lemma get_field (v : jsval) (k : string) (x : jsval) :
  get v k = Ok x → k ≠ "length" → x = field v k.
Proof.
  intros H Hk. destruct v; simpl in H; try discriminate;
    try case_decide; by simplify_eq.
Qed.

(** C1: in the sanitised record, every object-valued field (issuetype,
    priority, status, creator, reporter, assignee, resolution) is an object
    whose keys all belong to ISSUE_OBJECT_KEYS, each with the value the raw
    field has under that key; and a field absent from the raw issue is
    absent from the sanitised record. *)
Theorem object_fields_allowlisted issue rls oi out logs :
  format_issue_assemble UNRESTRICTED CONFIG_label ALLOWED_LABELS issue rls oi
    = Ok (out, logs) →
  ∃ rf fo : gmap string jsval,
    raw_fields issue = Some rf ∧ sanitized_fields out = Some fo ∧
    ∀ fname, fname ∈ OBJECT_FIELDS →
      (rf !! fname = None → fo !! fname = None) ∧
      (∀ v, fo !! fname = Some v →
         ∃ (src : jsval) (t : gmap string jsval),
           rf !! fname = Some src ∧ v = JObj t ∧
           ∀ k x, t !! k = Some x →
                  k ∈ ISSUE_OBJECT_KEYS ∧ get src k = Ok x).
Proof.
  intros H.
  destruct (format_issue_assemble_inv _ _ _ _ _ H)
    as (rf & fo & labels & Hrf & Hfo & _ & Hobj & _).
  exists rf, fo. split_and!; [done..|].
  intros fname Hin. destruct (Hobj fname Hin) as (m & m' & Hcopy & Hpre & Hpost).
  destruct (copy_obj_at _ _ _ _ Hcopy) as (f & Hf & Hat).
  rewrite get_obj in Hf. injection Hf as <-. split.
  - intros Hnone. rewrite Hnone in Hat. cbn [from_option truthy] in Hat.
    subst m'. by rewrite Hpost.
  - intros v Hv. rewrite Hpost in Hv.
    destruct (rf !! fname) as [src|] eqn:Hsrc; cbn [from_option id] in Hat.
    + destruct (truthy src) eqn:Htr.
      * destruct Hat as (t & Ht & Hm'). exists src, t.
        split_and!; [done|congruence|].
        intros k x Hk. rewrite (copy_keys_lookup _ _ _ _ k Ht) in Hk.
        case_decide; [|by rewrite lookup_empty in Hk]. split; [done|].
        destruct (get src k) as [y|]; [|by rewrite lookup_empty in Hk].
        destruct (truthy y); [congruence|by rewrite lookup_empty in Hk].
      * subst m'. congruence.
    + cbn [truthy] in Hat. subst m'. congruence.
Qed.

Lemma get_own_Some (o : gmap string jsval) (k : string) (x : jsval) :
  o !! k = Some x → get (JObj o) k = Ok x.
Proof. intros H. by rewrite get_obj, H. Qed.

Lemma copy_fix_versions_at fields m m' fvs :
  copy_fix_versions fields m = Ok m' →
  get fields "fixVersions" = Ok (JArr fvs) →
  ∃ ts, m' !! "fixVersions" = Some (JArr ts) ∧
    Forall2 (λ fv t, ∃ tm, t = JObj tm ∧
               copy_keys RELEASE_OBJECT_KEYS fv ∅ = Ok tm) fvs ts.
Proof.
  intros H Hfvs. unfold copy_fix_versions in H. rewrite Hfvs in H.
  cbn [mbind result_bind truthy array_method] in H.
  apply bind_Ok in H as (ts & Hts & [= <-]). exists ts.
  split; [by rewrite lookup_insert_eq|].
  apply mapM_Ok in Hts. eapply Forall2_impl; [exact Hts|].
  intros fv t Ht. apply fmap_Ok in Ht as (tm & Htm & ->). eauto.
Qed.

(** C10: an allowlisted key of an object-valued field, or of a fix
    version, whose raw value is falsy (false, 0, the empty string, null) is
    not in the sanitised projection; so a fix version with archived: false
    or released: false loses those keys. *)
Theorem falsy_subkeys_omitted issue rls oi out logs :
  format_issue_assemble UNRESTRICTED CONFIG_label ALLOWED_LABELS issue rls oi
    = Ok (out, logs) →
  ∃ rf fo : gmap string jsval,
    raw_fields issue = Some rf ∧ sanitized_fields out = Some fo ∧
    (∀ fname (src : gmap string jsval) k x,
       fname ∈ OBJECT_FIELDS → rf !! fname = Some (JObj src) →
       k ∈ ISSUE_OBJECT_KEYS → src !! k = Some x → truthy x = false →
       ∃ t : gmap string jsval, fo !! fname = Some (JObj t) ∧ t !! k = None) ∧
    (∀ fvs, rf !! "fixVersions" = Some (JArr fvs) →
       ∃ ts, fo !! "fixVersions" = Some (JArr ts) ∧
         Forall2 (λ fv t, ∃ tm : gmap string jsval, t = JObj tm ∧
                    ∀ k x, k ∈ RELEASE_OBJECT_KEYS → own fv k = Some x →
                           truthy x = false → tm !! k = None) fvs ts).
Proof.
  intros H.
  destruct (format_issue_assemble_inv _ _ _ _ _ H)
    as (rf & fo & labels & Hrf & Hfo & _ & Hobj & Hfix & _).
  exists rf, fo. split_and!; [done..| |].
  - intros fname src k x Hin Hsrc Hk Hx Hfalsy.
    destruct (Hobj fname Hin) as (m & m' & Hcopy & Hpre & Hpost).
    destruct (copy_obj_at _ _ _ _ Hcopy) as (f & Hf & Hat).
    rewrite (get_own_Some _ _ _ Hsrc) in Hf. injection Hf as <-.
    cbn [truthy] in Hat. destruct Hat as (t & Ht & Hm').
    exists t. split; [congruence|].
    rewrite (copy_keys_lookup _ _ _ _ k Ht), decide_True by done.
    rewrite (get_own_Some _ _ _ Hx), Hfalsy. apply lookup_empty.
  - intros fvs Hfvs. destruct Hfix as (m & m' & Hcopy & Hpre & Hpost).
    destruct (copy_fix_versions_at _ _ _ fvs Hcopy) as (ts & Hts & Hall).
    { by apply get_own_Some. }
    exists ts. split; [congruence|].
    eapply Forall2_impl; [exact Hall|]. intros fv t (tm & -> & Htm).
    exists tm. split; [done|]. intros k x Hk Hx Hfalsy.
    rewrite (copy_keys_lookup _ _ _ _ k Htm), decide_True by done.
    destruct fv; try discriminate. simpl in Hx.
    rewrite (get_own_Some _ _ _ Hx), Hfalsy. apply lookup_empty.
Qed.

Lemma copy_author_at fname cfrom cto cto' :
  fname ≠ "length" →
  copy_author fname cfrom cto = Ok cto' →
  (∀ k, k ≠ fname → cto' !! k = cto !! k) ∧
  (cto !! fname = None →
   author_retained (field cfrom fname) (cto' !! fname)).
Proof.
  intros Hne H. unfold copy_author in H. apply bind_Ok in H as (a & Ha & H).
  apply get_field in Ha as ->; [|done]. unfold author_retained.
  destruct (truthy (field cfrom fname)) eqn:Htr; cbn [negb] in H.
  - apply bind_Ok in H as (name & Hname & H).
    apply bind_Ok in H as (key & Hkey & H).
    apply bind_Ok in H as (email & Hemail & H).
    apply bind_Ok in H as (display & Hdisplay & H).
    injection H as <-.
    apply get_field in Hname as ->; [|done].
    apply get_field in Hkey as ->; [|done].
    apply get_field in Hemail as ->; [|done].
    apply get_field in Hdisplay as ->; [|done].
    split; [by intros k Hk; rewrite lookup_insert_ne|]. intros _.
    eexists. split; [by rewrite lookup_insert_eq|]. split; [done|].
    intros k Hk. unfold AUTHOR_KEYS in Hk.
    repeat (apply elem_of_cons in Hk as [->|Hk]);
      [done..|by apply elem_of_nil in Hk].
  - injection H as <-. done.
Qed.

(** A comment that is kept is kept with all it is made of. *)
Lemma outcom_retained com o : outcom_of com = Ok o → comment_retained com o.
Proof.
  intros H. unfold outcom_of in H.
  apply bind_Ok in H as (id & Hid & H).
  apply bind_Ok in H as (created & Hcreated & H).
  apply bind_Ok in H as (updated & Hupdated & H).
  apply bind_Ok in H as (body & Hbody & H).
  apply bind_Ok in H as (m1 & Hm1 & H).
  apply bind_Ok in H as (m2 & Hm2 & [= <-]).
  apply get_field in Hid as ->; [|done].
  apply get_field in Hcreated as ->; [|done].
  apply get_field in Hupdated as ->; [|done].
  apply get_field in Hbody as ->; [|done].
  match type of Hm1 with
  | copy_author _ _ ?m = _ => set (m0 := m) in *
  end.
  assert (Hdom0 : dom m0 = ({[ "id"; "created"; "updated"; "body" ]} : gset string))
    by done.
  apply copy_author_at in Hm1 as [Hf1 Ha1]; [|done].
  apply copy_author_at in Hm2 as [Hf2 Ha2]; [|done].
  exists m2. split; [done|]. split.
  { intros k Hk. apply elem_of_dom in Hk.
    destruct (decide (k = "updateAuthor")) as [->|Hne2]; [by vm_compute|].
    rewrite Hf2 in Hk by done.
    destruct (decide (k = "author")) as [->|Hne1]; [by vm_compute|].
    rewrite Hf1 in Hk by done. apply elem_of_dom in Hk. rewrite Hdom0 in Hk.
    apply elem_of_union in Hk as [Hk|Hk%elem_of_singleton];
      [|by subst; vm_compute].
    apply elem_of_union in Hk as [Hk|Hk%elem_of_singleton];
      [|by subst; vm_compute].
    apply elem_of_union in Hk as [Hk%elem_of_singleton|Hk%elem_of_singleton];
      by subst; vm_compute. }
  rewrite !Hf2, !Hf1 by done. split_and!; [done..| |].
  - by apply Ha1.
  - apply Ha2. by rewrite Hf1.
Qed.

Lemma field_lookup (m : gmap string jsval) (k : string) :
  k ∈ dom m → Some (field (JObj m) k) = m !! k.
Proof.
  intros [x Hx]%elem_of_dom. unfold field. cbn [own]. by rewrite Hx.
Qed.

Lemma person_retained_whole (a : jsval) (o : option jsval) :
  person_shaped a → author_retained a o → o = Some a.
Proof.
  intros (am & -> & Hdom) Hret. unfold author_retained in Hret.
  cbn [truthy] in Hret. destruct Hret as (m & -> & Hdm & Hm).
  do 2 f_equal. apply map_eq. intros k.
  destruct (decide (k ∈ AUTHOR_KEYS)) as [Hk|Hk].
  - rewrite (Hm k Hk). apply field_lookup. rewrite Hdom.
    by apply elem_of_list_to_set.
  - assert (k ∉ (list_to_set AUTHOR_KEYS : gset string)) as Hk'
      by (by rewrite elem_of_list_to_set).
    rewrite (not_elem_of_dom_1 m k) by (by rewrite Hdm).
    by rewrite (not_elem_of_dom_1 am k) by (by rewrite Hdom).
Qed.

(** A comment made of the six properties only is kept as it is. *)
Lemma comment_retained_whole (com o : jsval) :
  comment_retained com o → comment_shaped com → o = com.
Proof.
  intros (m & -> & Hdm & Hid & Hcr & Hup & Hbo & Hau & Hua)
    ((cm & -> & Hdom) & Hpa & Hpu).
  apply (person_retained_whole _ _ Hpa) in Hau.
  apply (person_retained_whole _ _ Hpu) in Hua.
  assert (Hin : ∀ k, k ∈ COMMENT_KEYS → k ∈ dom cm).
  { intros k Hk. rewrite Hdom. by apply elem_of_list_to_set. }
  f_equal. apply map_eq. intros k.
  destruct (decide (k ∈ COMMENT_KEYS)) as [Hk|Hk].
  - unfold COMMENT_KEYS in Hk.
    repeat (apply elem_of_cons in Hk as [->|Hk]);
      [..|by apply elem_of_nil in Hk];
      first [ rewrite Hid | rewrite Hcr | rewrite Hup | rewrite Hbo
            | rewrite Hau | rewrite Hua ];
      apply field_lookup, Hin; unfold COMMENT_KEYS;
      repeat first [ apply list_elem_of_here | apply list_elem_of_further ].
  - assert (k ∉ (list_to_set COMMENT_KEYS : gset string)) as Hk'
      by (by rewrite elem_of_list_to_set).
    rewrite (not_elem_of_dom_1 m k) by (intros ?%Hdm; done).
    by rewrite (not_elem_of_dom_1 cm k) by (by rewrite Hdom).
Qed.

Lemma restricted_get com vis :
  get com "visibility" = Ok vis → truthy vis = restricted com.
Proof. intros H. apply get_field in H as ->; done. Qed.

(** The loop over the comments keeps, in order, the comments that carry
    no visibility restriction, and counts them. *)
Lemma comment_loop_spec coms cout cout' :
  comment_loop coms cout = Ok cout' →
  ∃ outs,
    Forall2 (λ com o, outcom_of com = Ok o)
      (filter (λ com, restricted com = false) coms) outs ∧
    comments cout' = comments cout ++ outs ∧
    maxResults cout' = (maxResults cout + Z.of_nat (length outs))%Z ∧
    total cout' = (total cout + Z.of_nat (length outs))%Z ∧
    startAt cout' = startAt cout.
Proof.
  revert cout. induction coms as [|com coms IH]; intros cout H; simpl in H.
  - injection H as <-. exists []. rewrite app_nil_r. simpl.
    split_and!; [constructor|done|lia..|done].
  - apply bind_Ok in H as (vis & Hvis & H).
    rewrite (restricted_get _ _ Hvis) in H. rewrite filter_cons.
    destruct (restricted com) eqn:Hr.
    + rewrite decide_False by done. by apply IH.
    + rewrite decide_True by done.
      apply bind_Ok in H as (outcom & Hout & H).
      destruct (IH _ H) as (outs & Hall & Hc & Hm & Ht & Hs).
      cbn [comments maxResults total startAt] in *.
      exists (outcom :: outs). split_and!.
      * by constructor.
      * by rewrite Hc, <- app_assoc.
      * rewrite Hm. simpl length. lia.
      * rewrite Ht. simpl length. lia.
      * done.
Qed.

Lemma copy_comments_at fields m m' logs c :
  copy_comments fields m = Ok (m', logs) →
  get fields "comment" = Ok c → truthy c = true →
  ∃ coms cout,
    elements (field c "comments") = Ok coms ∧
    comment_loop coms
      {| maxResults := 0; total := 0; startAt := 0; comments := [] |}
      = Ok cout ∧
    m' !! "comment" = Some (cout_js cout).
Proof.
  intros H Hc Htr. unfold copy_comments in H. rewrite Hc in H.
  cbn [mbind result_bind] in H. rewrite Htr in H.
  apply bind_Ok in H as (mr & _ & H). apply bind_Ok in H as (tot & _ & H).
  apply bind_Ok in H as (cs & Hcs & H). apply bind_Ok in H as (coms & Hcoms & H).
  apply bind_Ok in H as (cout & Hcout & [= <- <-]).
  apply get_field in Hcs as ->; [|done].
  exists coms, cout. split_and!; [done..|]. by rewrite lookup_insert_eq.
Qed.

(** C9: when the raw issue has a comment container, the sanitised one has
    startAt 0 and both maxResults and total equal to the number of comments
    it holds, whatever counts the raw container reports. *)
Theorem comment_counts_recomputed issue rls oi out logs :
  format_issue_assemble UNRESTRICTED CONFIG_label ALLOWED_LABELS issue rls oi
    = Ok (out, logs) →
  ∃ rf fo : gmap string jsval,
    raw_fields issue = Some rf ∧ sanitized_fields out = Some fo ∧
    ∀ c, rf !! "comment" = Some c → truthy c = true →
      ∃ (cm : gmap string jsval) (couts : list jsval),
        fo !! "comment" = Some (JObj cm) ∧
        cm !! "comments" = Some (JArr couts) ∧
        cm !! "maxResults" = Some (JNum (Z.of_nat (length couts))) ∧
        cm !! "total" = Some (JNum (Z.of_nat (length couts))) ∧
        cm !! "startAt" = Some (JNum 0).
Proof.
  intros H.
  destruct (format_issue_assemble_inv _ _ _ _ _ H)
    as (rf & fo & labels & Hrf & Hfo & _ & _ & _ & _ & m & Hcom & _).
  exists rf, fo. split_and!; [done..|]. intros c Hc Htr.
  destruct (copy_comments_at _ _ _ _ c Hcom) as (coms & cout & _ & Hloop & Hm');
    [by apply get_own_Some|done|].
  destruct (comment_loop_spec _ _ _ Hloop) as (outs & _ & Hc' & Hmr & Htot & Hs).
  cbn [comments maxResults total startAt app] in *.
  eexists _, outs. split; [exact Hm'|].
  destruct cout as [mr tot sa cs]; cbn [comments maxResults total startAt] in *.
  subst. done.
Qed.

(** C3, as the program has it: the sanitised comment list is the raw list
    without the comments that carry a visibility restriction, in the same
    order; every comment left is a copy that carries its identifier, time
    stamps, body, author and update author as the raw comment has them,
    and nothing else, the two persons with their name, key, address and
    display name; so a comment made of these only is left as it is. *)
Theorem restricted_comments_dropped issue rls oi out logs :
  format_issue_assemble UNRESTRICTED CONFIG_label ALLOWED_LABELS issue rls oi
    = Ok (out, logs) →
  ∃ rf fo : gmap string jsval,
    raw_fields issue = Some rf ∧ sanitized_fields out = Some fo ∧
    ∀ c coms, rf !! "comment" = Some c → field c "comments" = JArr coms →
      ∃ couts,
        field (field (JObj fo) "comment") "comments" = JArr couts ∧
        Forall2 (λ com o, comment_retained com o ∧
                          (comment_shaped com → o = com))
          (filter (λ com, restricted com = false) coms) couts.
Proof.
  intros H.
  destruct (format_issue_assemble_inv _ _ _ _ _ H)
    as (rf & fo & labels & Hrf & Hfo & _ & _ & _ & _ & m & Hcom & _).
  exists rf, fo. split_and!; [done..|]. intros c coms Hc Hcoms.
  assert (Htr : truthy c = true) by (by destruct c).
  destruct (copy_comments_at _ _ _ _ c Hcom) as (coms' & cout & Hel & Hloop & Hm');
    [by apply get_own_Some|done|].
  rewrite Hcoms in Hel. injection Hel as <-.
  destruct (comment_loop_spec _ _ _ Hloop) as (outs & Hall & Hc' & _).
  cbn [comments app] in Hc'. exists outs. split.
  - unfold field at 2. cbn [own]. rewrite Hm'. cbn [from_option id].
    destruct cout; cbn [comments] in *. subst. done.
  - eapply Forall2_impl; [exact Hall|]. intros com o Ho.
    apply outcom_retained in Ho. split; [done|].
    by apply comment_retained_whole.
Qed.

Lemma allow_issue_spec key oi b :
  allow_issue UNRESTRICTED CONFIG_label key oi = Ok b →
  ∃ k, key = JStr k ∧
       b = key_re k && visible UNRESTRICTED CONFIG_label oi k.
Proof.
  intros H. destruct key as [| | | |k| |]; try discriminate. exists k.
  split; [done|]. unfold allow_issue in H. unfold visible.
  destruct (key_re k); cbn [negb andb] in *; [|by injection H as <-].
  destruct (oi !! k) as [other|]; cbn [from_option id truthy negb] in H;
    [|by injection H as <-].
  destruct (truthy other); cbn [negb andb] in *; [|by injection H as <-].
  destruct UNRESTRICTED; cbn [orb]; [by injection H as <-|].
  apply bind_Ok in H as (fields & Hfields & H).
  apply bind_Ok in H as (labels & Hlabels & H).
  apply get_field in Hfields as ->; [|done].
  apply get_field in Hlabels as ->; [|done].
  unfold has_label. destruct (field (field other "fields") "labels");
    try discriminate. by injection H as <-.
Qed.

Lemma project_endpoint_spec ep p :
  project_endpoint ep = Ok p → endpoint_projected ep p.
Proof.
  intros H. unfold project_endpoint in H.
  apply bind_Ok in H as (id & Hid & H). apply bind_Ok in H as (key & Hkey & H).
  apply bind_Ok in H as (f & Hf & H).
  apply bind_Ok in H as (summary & Hsummary & [= <-]).
  apply get_field in Hid as ->; [|done].
  apply get_field in Hkey as ->; [|done].
  apply get_field in Hf as ->; [|done].
  apply get_field in Hsummary as ->; [|done].
  eexists _, _. split_and!; done.
Qed.

Lemma link_endpoint_spec il side oi ilo push ilo' push' :
  side ≠ "length" →
  link_endpoint UNRESTRICTED CONFIG_label il side oi (ilo, push)
    = Ok (ilo', push') →
  (∀ k, k ≠ side → ilo' !! k = ilo !! k) ∧
  if endpoint_allowed UNRESTRICTED CONFIG_label oi il side then
    push' = true ∧
    ∃ p, ilo' !! side = Some p ∧ endpoint_projected (field il side) p
  else push' = push ∧ ilo' = ilo.
Proof.
  intros Hside H. unfold link_endpoint in H.
  apply bind_Ok in H as (ep & Hep & H). apply get_field in Hep as ->; [|done].
  unfold endpoint_allowed, endpoint_visible.
  destruct (truthy (field il side)); cbn [andb];
    [|by injection H as <- <-].
  apply bind_Ok in H as (key & Hkey & H).
  apply get_field in Hkey as ->; [|done].
  apply bind_Ok in H as (ok & Hok & H).
  apply allow_issue_spec in Hok as (k & -> & ->).
  rewrite (andb_comm (visible _ _ _ _)).
  destruct (key_re k && visible UNRESTRICTED CONFIG_label oi k).
  - apply bind_Ok in H as (p & Hp & [= <- <-]). cbn [fst].
    split; [by intros k' Hk'; rewrite lookup_insert_ne|].
    split; [done|]. exists p. rewrite lookup_insert_eq.
    split; [done|]. by apply project_endpoint_spec.
  - by injection H as <- <-.
Qed.

(** The body of the loop over the links pushes the sanitised link when one
    of its ends is allowed, and nothing otherwise. *)
Lemma assemble_link_spec il oi r :
  assemble_link UNRESTRICTED CONFIG_label il oi = Ok r →
  if link_allowed UNRESTRICTED CONFIG_label oi il then
    ∃ lo, r = Some lo ∧ link_projected UNRESTRICTED CONFIG_label oi il lo
  else r = None.
Proof.
  intros H. unfold assemble_link in H.
  apply bind_Ok in H as (id & Hid & H). apply bind_Ok in H as (ty & Hty & H).
  apply bind_Ok in H as (tid & Htid & H).
  apply bind_Ok in H as (tname & Htname & H).
  apply bind_Ok in H as (tin & Htin & H).
  apply bind_Ok in H as (tout & Htout & H).
  apply bind_Ok in H as ([ilo1 push1] & H1 & H).
  apply bind_Ok in H as ([ilo2 push2] & H2 & [= <-]).
  apply get_field in Hid as ->; [|done].
  apply get_field in Hty as ->; [|done].
  apply get_field in Htid as ->; [|done].
  apply get_field in Htname as ->; [|done].
  apply get_field in Htin as ->; [|done].
  apply get_field in Htout as ->; [|done].
  match type of H1 with
  | link_endpoint _ _ _ _ _ (?m0, _) = _ => set (ilo0 := m0) in *
  end.
  assert (Hdom0 : dom ilo0 = ({[ "id"; "type" ]} : gset string)) by done.
  apply link_endpoint_spec in H1 as [Hf1 Ho]; [|done].
  apply link_endpoint_spec in H2 as [Hf2 Hi]; [|done].
  unfold link_allowed.
  assert (Hdom1 : dom ilo1 ⊆ ({[ "id"; "type"; "outwardIssue" ]} : gset string)).
  { intros k Hk. apply elem_of_dom in Hk.
    destruct (decide (k = "outwardIssue")) as [->|Hne]; [by vm_compute|].
    rewrite Hf1 in Hk by done. apply elem_of_dom in Hk.
    rewrite Hdom0 in Hk.
    apply elem_of_union in Hk as [Hk%elem_of_singleton|Hk%elem_of_singleton];
      by subst; vm_compute. }
  set (oa := endpoint_allowed UNRESTRICTED CONFIG_label oi il "outwardIssue") in *.
  set (ia := endpoint_allowed UNRESTRICTED CONFIG_label oi il "inwardIssue") in *.
  assert (Hside_o : side_projected UNRESTRICTED CONFIG_label oi il ilo2 "outwardIssue").
  { unfold side_projected. fold oa. rewrite Hf2 by done.
    destruct oa; [by destruct Ho|]. destruct Ho as [_ ->]. done. }
  assert (Hside_i : side_projected UNRESTRICTED CONFIG_label oi il ilo2 "inwardIssue").
  { unfold side_projected. fold ia.
    destruct ia; [by destruct Hi|]. destruct Hi as [_ ->].
    rewrite Hf1 by done. done. }
  assert (Hdom2 : dom ilo2 ⊆
    ({[ "id"; "type"; "outwardIssue"; "inwardIssue" ]} : gset string)).
  { intros k Hk. apply elem_of_dom in Hk.
    destruct (decide (k = "inwardIssue")) as [->|Hne]; [by vm_compute|].
    rewrite Hf2 in Hk by done. apply elem_of_dom in Hk.
    apply Hdom1 in Hk.
    apply elem_of_union in Hk as [Hk|Hk%elem_of_singleton];
      [|by subst; vm_compute].
    apply elem_of_union in Hk as [Hk%elem_of_singleton|Hk%elem_of_singleton];
      by subst; vm_compute. }
  assert (Hproj : ∀ lo, lo = JObj ilo2 →
    link_projected UNRESTRICTED CONFIG_label oi il lo).
  { intros lo ->. eexists ilo2, _. split; [done|]. split; [done|].
    rewrite !Hf2, !Hf1 by done. split_and!; [done..| |done|done].
    intros k Hk. repeat (apply elem_of_cons in Hk as [->|Hk]);
      [done..|by apply elem_of_nil in Hk]. }
  destruct oa, ia; cbn [orb].
  - destruct Hi as [-> _]. eauto.
  - destruct Hi as [-> _], Ho as [-> _]. eauto.
  - destruct Hi as [-> _]. eauto.
  - destruct Hi as [-> _], Ho as [-> _]. done.
Qed.

Lemma assemble_links_spec ils oi links links' :
  assemble_links UNRESTRICTED CONFIG_label ils oi links = Ok links' →
  ∃ los, links' = links ++ los ∧
    Forall2 (link_projected UNRESTRICTED CONFIG_label oi)
      (filter (λ il, link_allowed UNRESTRICTED CONFIG_label oi il = true) ils)
      los.
Proof.
  revert links. induction ils as [|il ils IH]; intros links H; simpl in H.
  - injection H as <-. exists []. rewrite app_nil_r. split; [done|constructor].
  - apply bind_Ok in H as (r & Hr & H). apply assemble_link_spec in Hr.
    destruct (IH _ H) as (los & -> & Hall). rewrite filter_cons.
    destruct (link_allowed UNRESTRICTED CONFIG_label oi il).
    + destruct Hr as (lo & -> & Hlo). rewrite decide_True by done.
      exists (lo :: los). split; [by rewrite <- app_assoc|by constructor].
    + subst r. rewrite decide_False by done. eauto.
Qed.

(** C2, as the program has it: the sanitised issue links are, in order,
    the raw links of which an end is Visible and has a key that starts with
    capital letters, a hyphen and a digit.  Such a link holds its allowed
    ends only, each reduced to id, key and fields.summary; a link with no
    such end leaves nothing. *)
Theorem issue_links_allowed issue rls oi out logs :
  format_issue_assemble UNRESTRICTED CONFIG_label ALLOWED_LABELS issue rls oi
    = Ok (out, logs) →
  ∃ rf fo : gmap string jsval,
    raw_fields issue = Some rf ∧ sanitized_fields out = Some fo ∧
    ∀ ils, rf !! "issuelinks" = Some (JArr ils) →
      ∃ los, fo !! "issuelinks" = Some (JArr los) ∧
        Forall2 (link_projected UNRESTRICTED CONFIG_label oi)
          (filter (λ il, link_allowed UNRESTRICTED CONFIG_label oi il = true)
             ils)
          los.
Proof.
  intros H.
  destruct (format_issue_assemble_inv _ _ _ _ _ H)
    as (rf & fo & labels & Hrf & Hfo & _ & _ & _ & (m & m' & Hl & _ & Hpost) & _).
  exists rf, fo. split_and!; [done..|]. intros ils Hils.
  unfold copy_issue_links in Hl. rewrite (get_own_Some _ _ _ Hils) in Hl.
  cbn [mbind result_bind truthy elements] in Hl.
  apply bind_Ok in Hl as (links & Hlinks & [= <-]).
  apply assemble_links_spec in Hlinks as (los & -> & Hall).
  exists los. split; [|done]. by rewrite Hpost, lookup_insert_eq.
Qed.

End ProjectorFacts.

(** The example issue is sanitised as expected. *)
Lemma ex_issue_assembled :
  format_issue_assemble false "public" ["public"] ex_issue [] ex_other_issues
    = Ok (ex_out, ex_logs).
Proof. reflexivity. Qed.

Lemma object_fields_allowlisted_witness :
  format_issue_assemble false "public" ["public"] ex_issue [] ex_other_issues
    = Ok (ex_out, ex_logs) ∧
  ∃ rf fo : gmap string jsval,
    raw_fields ex_issue = Some rf ∧ sanitized_fields ex_out = Some fo ∧
    ∀ fname, fname ∈ OBJECT_FIELDS →
      (rf !! fname = None → fo !! fname = None) ∧
      (∀ v, fo !! fname = Some v →
         ∃ (src : jsval) (t : gmap string jsval),
           rf !! fname = Some src ∧ v = JObj t ∧
           ∀ k x, t !! k = Some x →
                  k ∈ ISSUE_OBJECT_KEYS ∧ get src k = Ok x).
Proof.
  split; [reflexivity|].
  apply (object_fields_allowlisted false "public" ["public"] ex_issue []
           ex_other_issues ex_out ex_logs).
  reflexivity.
Defined.

Lemma falsy_subkeys_omitted_witness :
  format_issue_assemble false "public" ["public"] ex_issue [] ex_other_issues
    = Ok (ex_out, ex_logs) ∧
  ∃ rf fo : gmap string jsval,
    raw_fields ex_issue = Some rf ∧ sanitized_fields ex_out = Some fo ∧
    (∀ fname (src : gmap string jsval) k x,
       fname ∈ OBJECT_FIELDS → rf !! fname = Some (JObj src) →
       k ∈ ISSUE_OBJECT_KEYS → src !! k = Some x → truthy x = false →
       ∃ t : gmap string jsval, fo !! fname = Some (JObj t) ∧ t !! k = None) ∧
    (∀ fvs, rf !! "fixVersions" = Some (JArr fvs) →
       ∃ ts, fo !! "fixVersions" = Some (JArr ts) ∧
         Forall2 (λ fv t, ∃ tm : gmap string jsval, t = JObj tm ∧
                    ∀ k x, k ∈ RELEASE_OBJECT_KEYS → own fv k = Some x →
                           truthy x = false → tm !! k = None) fvs ts).
Proof.
  split; [reflexivity|].
  apply (falsy_subkeys_omitted false "public" ["public"] ex_issue []
           ex_other_issues ex_out ex_logs).
  reflexivity.
Defined.

Lemma comment_counts_recomputed_witness :
  format_issue_assemble false "public" ["public"] ex_issue [] ex_other_issues
    = Ok (ex_out, ex_logs) ∧
  ∃ rf fo : gmap string jsval,
    raw_fields ex_issue = Some rf ∧ sanitized_fields ex_out = Some fo ∧
    ∀ c, rf !! "comment" = Some c → truthy c = true →
      ∃ (cm : gmap string jsval) (couts : list jsval),
        fo !! "comment" = Some (JObj cm) ∧
        cm !! "comments" = Some (JArr couts) ∧
        cm !! "maxResults" = Some (JNum (Z.of_nat (length couts))) ∧
        cm !! "total" = Some (JNum (Z.of_nat (length couts))) ∧
        cm !! "startAt" = Some (JNum 0).
Proof.
  split; [reflexivity|].
  apply (comment_counts_recomputed false "public" ["public"] ex_issue []
           ex_other_issues ex_out ex_logs).
  reflexivity.
Defined.

Lemma restricted_comments_dropped_witness :
  format_issue_assemble false "public" ["public"] ex_issue [] ex_other_issues
    = Ok (ex_out, ex_logs) ∧
  ∃ rf fo : gmap string jsval,
    raw_fields ex_issue = Some rf ∧ sanitized_fields ex_out = Some fo ∧
    ∀ c coms, rf !! "comment" = Some c → field c "comments" = JArr coms →
      ∃ couts,
        field (field (JObj fo) "comment") "comments" = JArr couts ∧
        Forall2 (λ com o, comment_retained com o ∧
                          (comment_shaped com → o = com))
          (filter (λ com, restricted com = false) coms) couts.
Proof.
  split; [reflexivity|].
  apply (restricted_comments_dropped false "public" ["public"] ex_issue []
           ex_other_issues ex_out ex_logs).
  reflexivity.
Defined.

(** C3 as the specification words it fails: the first comment of the
    example issue carries no visibility restriction and is kept, but not
    whole: the copy holds neither the [self] of the comment nor the
    [active] of its author. *)
Lemma comment_retained_whole_counterexample :
  field (field (field ex_issue "fields") "comment") "comments"
    = JArr [ex_comment_1; ex_comment_2] ∧
  restricted ex_comment_1 = false ∧
  format_issue_assemble false "public" ["public"] ex_issue [] ex_other_issues
    = Ok (ex_out, ex_logs) ∧
  field (field (field (field ex_out "issue") "fields") "comment") "comments"
    = JArr [ex_comment_1_out] ∧
  own ex_comment_1 "self" = Some (JStr "http://jira/c1") ∧
  own ex_comment_1_out "self" = None ∧
  own (field ex_comment_1 "author") "active" = Some (JBool true) ∧
  own (field ex_comment_1_out "author") "active" = None ∧
  ex_comment_1_out ≠ ex_comment_1.
Proof.
  split_and!; try reflexivity.
  intros H. assert (Hs : own ex_comment_1_out "self" = own ex_comment_1 "self")
    by (by rewrite H).
  discriminate Hs.
Qed.

Lemma issue_links_allowed_witness :
  format_issue_assemble false "public" ["public"] ex_issue [] ex_other_issues
    = Ok (ex_out, ex_logs) ∧
  ∃ rf fo : gmap string jsval,
    raw_fields ex_issue = Some rf ∧ sanitized_fields ex_out = Some fo ∧
    ∀ ils, rf !! "issuelinks" = Some (JArr ils) →
      ∃ los, fo !! "issuelinks" = Some (JArr los) ∧
        Forall2 (link_projected false "public" ex_other_issues)
          (filter (λ il, link_allowed false "public" ex_other_issues il = true)
             ils)
          los.
Proof.
  split; [reflexivity|].
  apply (issue_links_allowed false "public" ["public"] ex_issue []
           ex_other_issues ex_out ex_logs).
  reflexivity.
Defined.

(** C2 as the specification words it fails: the only link of
    [ex_issue_os2] leads to [OS2-7], which was fetched and carries the
    public label, hence is Visible; the sanitised record has no link. *)
Lemma issue_links_visible_counterexample :
  field (field ex_issue_os2 "fields") "issuelinks"
    = JArr [ex_link "outwardIssue" "OS2-7"] ∧
  link_visible false "public" ex_other_issues (ex_link "outwardIssue" "OS2-7")
    = true ∧
  format_issue_assemble false "public" ["public"] ex_issue_os2 []
    ex_other_issues = Ok (ex_out_os2, []) ∧
  field (field (field ex_out_os2 "issue") "fields") "issuelinks" = JArr [].
Proof. split_and!; reflexivity. Qed.

(** ** The markup converter *)

Section MarkupFacts.

Context (ent_encode : string → string) (url_parse : string → option Url)
  (url_format : Url → string).

Lemma get_None (desc : string) (i : nat) :
  String.get i desc = None ↔ String.length desc ≤ i.
Proof.
  revert i. induction desc as [|c desc IH]; intros i; simpl.
  - split; [lia|by destruct i].
  - destruct i as [|i]; simpl; [split; [done|lia]|].
    rewrite IH. lia.
Qed.

(** While the cases of an iteration are split, [simpl] is to leave the
    tests on characters and the parts of an iteration folded. *)
Local Arguments Ascii.eqb : simpl never.
Local Arguments String.get : simpl never.
Local Arguments String.append : simpl never.
Local Arguments String.length : simpl never.
Local Arguments prefmtok : simpl never.
Local Arguments is_heading_level : simpl never.
Local Arguments is_char : simpl never.
Local Arguments Nat.eqb : simpl never.
Local Arguments Nat.leb : simpl never.
Local Arguments bool_decide : simpl never.
Local Arguments repeat_char : simpl never.
Local Arguments removelast : simpl never.
Local Arguments prev_char : simpl never.
Local Arguments fmt_plain : simpl never.
Local Arguments fmt_italic : simpl never.
Local Arguments fmt_bold : simpl never.
Local Arguments text_case : simpl never.
Local Arguments list_item : simpl never.
Local Arguments close_list : simpl never.
Local Arguments push_link : simpl never.
Local Arguments in_heading pre hd !s /.

Lemma fmt_plain_frame c cc pc s :
  text_frame s (fmt_plain ent_encode c cc s) ∧
  fmt_change c pc (v_formats s) (v_formats (fmt_plain ent_encode c cc s)).
Proof.
  destruct s as [i text formats out st lt lu lsp ps log].
  unfold fmt_plain, text_frame, fmt_change, commit_text. simpl.
  repeat case_match; simpl; (split; [repeat split; lia || done|]); auto.
Qed.

Lemma fmt_italic_frame c cc pc s :
  text_frame s (fmt_italic ent_encode c cc pc s) ∧
  fmt_change c pc (v_formats s) (v_formats (fmt_italic ent_encode c cc pc s)).
Proof.
  destruct s as [i text formats out st lt lu lsp ps log].
  unfold fmt_italic, commit_text. simpl.
  repeat case_match;
    try match goal with
    | |- context [fmt_plain _ ?c ?cc ?s] =>
        destruct (fmt_plain_frame c cc pc s) as [(? & ? & ? & ?) ?];
        by split; [repeat split|]
    end.
  all: unfold text_frame, fmt_change; simpl.
  all: (split; [repeat split; lia || done|]); auto.
  all: match goal with
       | H : (_ && _) = true |- _ =>
           apply andb_true_iff in H as [H%Ascii.eqb_eq _]; subst; auto 10
       end.
Qed.

Lemma fmt_bold_frame c cc pc s :
  text_frame s (fmt_bold ent_encode c cc pc s) ∧
  fmt_change c pc (v_formats s) (v_formats (fmt_bold ent_encode c cc pc s)).
Proof.
  destruct s as [i text formats out st lt lu lsp ps log].
  unfold fmt_bold, commit_text. simpl.
  repeat case_match;
    try match goal with
    | |- context [fmt_italic _ ?c ?cc ?pc ?s] =>
        destruct (fmt_italic_frame c cc pc s) as [(? & ? & ? & ?) ?];
        by split; [repeat split|]
    end.
  all: unfold text_frame, fmt_change; simpl.
  all: (split; [repeat split; lia || done|]); auto.
  all: match goal with
       | H : (_ && _) = true |- _ =>
           apply andb_true_iff in H as [H%Ascii.eqb_eq _]; subst; auto 10
       end.
Qed.

Lemma push_link_frame link text s s' :
  push_link ent_encode url_parse url_format link text s = Ok s' →
  ∃ a l, s' = add_log l (push_out a s).
Proof.
  intros H. unfold push_link in H. apply bind_Ok in H as ([a l] & _ & [= <-]).
  eauto.
Qed.

Lemma list_item_frame k s :
  v_i (list_item ent_encode k s) = v_i s + 1 ∧
  v_state (list_item ent_encode k s) = v_state s ∧
  v_formats (list_item ent_encode k s) = v_formats s ∧
  v_log (list_item ent_encode k s) = v_log s.
Proof.
  destruct s as [i text formats out st lt lu lsp ps log].
  unfold list_item, commit_text. simpl. by repeat case_match.
Qed.

Lemma close_list_frame k s :
  v_i (close_list ent_encode k s) = v_i s ∧
  v_state (close_list ent_encode k s) = v_state s ∧
  v_formats (close_list ent_encode k s) = v_formats s ∧
  v_log (close_list ent_encode k s) = v_log s.
Proof.
  destruct s as [i text formats out st lt lu lsp ps log].
  unfold close_list, commit_text. simpl. by repeat case_match.
Qed.

Lemma fmt_bold_text_step c cc pc s :
  v_state s ≠ LEADING_SPACES →
  text_step c pc s (fmt_bold ent_encode c cc pc s).
Proof.
  intros Hst. destruct (fmt_bold_frame c cc pc s) as [(? & ? & ? & ?) ?].
  unfold text_step. split_and!; [done|congruence|done|done].
Qed.

Lemma text_case_step c cc ccc pc s s' :
  v_state s ≠ LEADING_SPACES →
  text_case ent_encode c cc ccc pc s = Ok s' → text_step c pc s s'.
Proof.
  intros Hst H. unfold text_case in H.
  destruct ((v_i s =? 0) && Ascii.eqb c "h" && is_char "." ccc
            && is_heading_level cc) eqn:Hh.
  - assert (v_i s = 0) as Hi0.
    { apply andb_true_iff in Hh as [Hh _]. apply andb_true_iff in Hh as [Hh _].
      apply andb_true_iff in Hh as [Hh _]. by apply Nat.eqb_eq in Hh. }
    injection H as <-. destruct s as [i text formats out st lt lu lsp ps log].
    unfold text_step, fmt_change, commit_text; simpl in *.
    repeat case_match; simpl; split_and!; try done; try lia; auto.
  - repeat case_match; simplify_eq; try by apply fmt_bold_text_step.
    all: destruct s as [i text formats out st lt lu lsp ps log].
    all: unfold text_step, fmt_change, commit_text; simpl in *.
    all: repeat case_match; simpl; split_and!; try done; try lia; auto.
Qed.

Lemma step_inv desc s s' :
  step ent_encode url_parse url_format desc s = Ok s' →
  v_i s < String.length desc →
  ∃ c, String.get (v_i s) desc = Some c ∧
    match v_state s with
    | LEADING_SPACES =>
        v_formats s' = v_formats s ∧ v_log s' = v_log s ∧
        ((v_i s < v_i s' ∧ v_state s' = LEADING_SPACES) ∨
         (v_i s' = v_i s ∧ v_state s' = TEXT ∧ v_ps s' = v_ps s))
    | _ => text_step c (prev_char desc (v_i s)) s s'
    end.
Proof.
  intros H Hlt. unfold step in H.
  destruct (String.get (v_i s) desc) as [c|] eqn:Hc;
    [|apply get_None in Hc; lia].
  exists c. split; [done|].
  destruct (Ascii.eqb c "010"); [done|]. destruct (Ascii.eqb c "013"); [done|].
  destruct (v_state s) eqn:Hst.
  - repeat case_match; simplify_eq.
    + destruct s; simpl in *. split_and!; [done..|left; split; [lia|done]].
    + destruct (list_item_frame UL s) as (-> & -> & -> & ->).
      split_and!; [done..|left; split; [lia|done]].
    + destruct (list_item_frame OL s) as (-> & -> & -> & ->).
      split_and!; [done..|left; split; [lia|done]].
    + destruct s; simpl in *. split_and!; [done..|by right].
  - assert (Hne : v_state s ≠ LEADING_SPACES) by congruence.
    repeat case_match; simplify_eq; try by eapply text_case_step.
    destruct (close_list_frame l s) as (Hi & Hs & Hf & Hl).
    destruct (fmt_bold_text_step c (String.get (v_i s + 1) desc)
                (prev_char desc (v_i s)) (close_list ent_encode l s))
      as (Hlt' & Hst' & Hfmt & _); [congruence|].
    rewrite Hi in Hlt'. rewrite Hf in Hfmt.
    unfold text_step. split_and!; [done..|].
    intros Hge. apply andb_true_iff in H1 as [H1%Nat.eqb_eq _]. lia.
  - repeat case_match; simplify_eq.
    all: try match goal with
         | H : _ ≫= _ = Ok _ |- _ =>
             apply bind_Ok in H as (? & (? & ? & ->)%push_link_frame & [= <-])
         end.
    all: destruct s; unfold text_step, fmt_change; simpl in *.
    all: split_and!; try done; try lia; try congruence; auto.
  - repeat case_match; simplify_eq.
    all: destruct s; unfold text_step, fmt_change; simpl in *.
    all: split_and!; try done; try lia; try congruence; auto.
  - repeat case_match; simplify_eq.
    all: destruct s; unfold text_step, fmt_change; simpl in *.
    all: split_and!; try done; try lia; try congruence; auto.
  - repeat case_match; simplify_eq.
    all: try match goal with
         | H : _ ≫= _ = Ok _ |- _ =>
             apply bind_Ok in H as (? & (? & ? & ->)%push_link_frame & [= <-])
         end.
    all: destruct s; unfold text_step, fmt_change; simpl in *.
    all: split_and!; try done; try lia; try congruence; auto.
Qed.

Lemma step_measure desc s s' :
  step ent_encode url_parse url_format desc s = Ok s' →
  v_i s < String.length desc →
  measure desc s' < measure desc s ∧ v_i s ≤ v_i s'.
Proof.
  intros H Hlt. destruct (step_inv _ _ _ H Hlt) as (c & _ & Hs).
  unfold measure. destruct (v_state s).
  - destruct Hs as (_ & _ & [[? ->]|(-> & -> & _)]); lia.
  - destruct Hs as (? & ? & _). destruct (v_state s'); [done|lia..].
  - destruct Hs as (? & ? & _). destruct (v_state s'); [done|lia..].
  - destruct Hs as (? & ? & _). destruct (v_state s'); [done|lia..].
  - destruct Hs as (? & ? & _). destruct (v_state s'); [done|lia..].
  - destruct Hs as (? & ? & _). destruct (v_state s'); [done|lia..].
Qed.

Lemma loop_unfold fuel desc s :
  loop ent_encode url_parse url_format fuel desc s =
  if String.length desc <=? v_i s then Ok s
  else match fuel with
       | 0 => Throw OutOfFuel
       | S fuel' =>
           step ent_encode url_parse url_format desc s
             ≫= loop ent_encode url_parse url_format fuel' desc
       end.
Proof. by destruct fuel. Qed.

(** The result of the loop does not depend on the fuel, once there is
    enough of it. *)
Lemma loop_fuel f f' desc s :
  measure desc s ≤ f → measure desc s ≤ f' →
  loop ent_encode url_parse url_format f desc s =
  loop ent_encode url_parse url_format f' desc s.
Proof.
  revert f' s. induction f as [|f IH]; intros f' s Hf Hf'.
  - rewrite !loop_unfold. destruct (Nat.leb_spec (String.length desc) (v_i s));
      [done|]. unfold measure in Hf. lia.
  - rewrite !loop_unfold. destruct (Nat.leb_spec (String.length desc) (v_i s));
      [done|].
    destruct f' as [|f']; [unfold measure in Hf'; lia|].
    destruct (step ent_encode url_parse url_format desc s) as [s'|e] eqn:Hs;
      [|done].
    destruct (step_measure _ _ _ Hs) as [Hm _]; [done|].
    simpl. apply IH; lia.
Qed.

Lemma fix_url_Throw input e :
  fix_url ent_encode url_parse url_format input = Throw e → e = TypeError.
Proof.
  unfold fix_url. repeat case_match; congruence.
Qed.

Lemma push_link_Throw link text s e :
  push_link ent_encode url_parse url_format link text s = Throw e →
  e = TypeError.
Proof.
  unfold push_link, format_remote_link.
  destruct (fix_url ent_encode url_parse url_format link) as [[u l]|e'] eqn:Hf; [done|].
  intros [= <-]. by eapply fix_url_Throw.
Qed.

Lemma step_Throw desc s e :
  step ent_encode url_parse url_format desc s = Throw e →
  e = TypeError ∨ e = AssertionError "c".
Proof.
  unfold step, text_case. intros H.
  repeat case_match; simplify_eq; auto.
  all: match goal with
       | H : _ ≫= _ = Throw _ |- _ =>
           destruct (push_link _ _ _ _ _ _) eqn:Hp in H; [done|];
           injection H as <-; left; by eapply push_link_Throw
       end.
Qed.

Lemma loop_no_fuel f desc s :
  measure desc s ≤ f →
  loop ent_encode url_parse url_format f desc s ≠ Throw OutOfFuel.
Proof.
  revert s. induction f as [|f IH]; intros s Hf; rewrite loop_unfold.
  - destruct (Nat.leb_spec (String.length desc) (v_i s)); [done|].
    unfold measure in Hf. lia.
  - destruct (Nat.leb_spec (String.length desc) (v_i s)); [done|].
    destruct (step ent_encode url_parse url_format desc s) as [s'|e] eqn:Hs.
    + destruct (step_measure _ _ _ Hs) as [Hm _]; [done|].
      simpl. apply IH. lia.
    + simpl. apply step_Throw in Hs as [->| ->]; done.
Qed.

(** The bound on the iterations of the loop is never reached. *)
Lemma parse_jira_markup_fuel desc ps :
  parse_jira_markup ent_encode url_parse url_format desc ps ≠ Throw OutOfFuel.
Proof.
  unfold parse_jira_markup, run_from.
  pose proof (loop_no_fuel (S (String.length desc)) desc (init ps)) as H.
  destruct (loop _ _ _ _ _ _) as [s|e]; [done|].
  simpl. intros [= ->]. apply H; [|done]. unfold measure. simpl. lia.
Qed.


(** *** Running the rest of a line inside a heading *)

Lemma fmt0_is_in_heading pre hd f s :
  fmt0_is f (in_heading pre hd s) = fmt0_is f s.
Proof. by destruct s. Qed.

Lemma commit_text_in_heading pre hd s :
  commit_text ent_encode (in_heading pre hd s) =
  in_heading pre hd (commit_text ent_encode s).
Proof. destruct s as [i [|c t] formats out st lt lu lsp ps log]; reflexivity. Qed.

Lemma fmt_plain_in_heading pre hd c cc s :
  fmt_plain ent_encode c cc (in_heading pre hd s) =
  in_heading pre hd (fmt_plain ent_encode c cc s).
Proof.
  unfold fmt_plain. rewrite !fmt0_is_in_heading.
  repeat case_match; try (by destruct s).
  all: destruct s as [i [|c' t] formats out st lt lu lsp ps log]; reflexivity.
Qed.

Lemma fmt_italic_in_heading pre hd c cc pc s :
  fmt_italic ent_encode c cc pc (in_heading pre hd s) =
  in_heading pre hd (fmt_italic ent_encode c cc pc s).
Proof.
  unfold fmt_italic.
  rewrite commit_text_in_heading, !fmt0_is_in_heading.
  repeat case_match; try apply fmt_plain_in_heading.
  all: by destruct (commit_text ent_encode s).
Qed.

Lemma fmt_bold_in_heading pre hd c cc pc s :
  fmt_bold ent_encode c cc pc (in_heading pre hd s) =
  in_heading pre hd (fmt_bold ent_encode c cc pc s).
Proof.
  unfold fmt_bold.
  rewrite commit_text_in_heading, !fmt0_is_in_heading.
  repeat case_match; try apply fmt_italic_in_heading.
  all: by destruct (commit_text ent_encode s).
Qed.

Lemma push_link_in_heading pre hd link text s :
  push_link ent_encode url_parse url_format link text (in_heading pre hd s) =
  in_heading pre hd <$> push_link ent_encode url_parse url_format link text s.
Proof.
  unfold push_link. destruct (format_remote_link _ _ _ _ _) as [[a l]|e];
    [|done].
  by destruct s.
Qed.

(** Past the first character and the leading spaces, an iteration does
    the same whatever was put out before and whatever heading is open. *)
Lemma step_in_heading pre hd desc s :
  1 ≤ v_i s → v_state s ≠ LEADING_SPACES →
  step ent_encode url_parse url_format desc (in_heading pre hd s) =
  in_heading pre hd <$> step ent_encode url_parse url_format desc s.
Proof.
  intros Hi Hst. unfold step.
  replace (v_i (in_heading pre hd s)) with (v_i s) by (by destruct s).
  replace (v_state (in_heading pre hd s)) with (v_state s) by (by destruct s).
  replace (ps_list (v_ps (in_heading pre hd s))) with (ps_list (v_ps s))
    by (by destruct s).
  replace (v_link_title (in_heading pre hd s)) with (v_link_title s)
    by (by destruct s).
  replace (v_link_url (in_heading pre hd s)) with (v_link_url s)
    by (by destruct s).
  assert (Hi0 : (v_i s =? 0) = false) by (apply Nat.eqb_neq; lia).
  destruct (String.get (v_i s) desc) as [c|]; [|done].
  destruct (Ascii.eqb c "010"); [done|]. destruct (Ascii.eqb c "013"); [done|].
  destruct (v_state s) eqn:Hs; [done|..].
  - assert (Htc : text_case ent_encode c (String.get (v_i s + 1) desc)
        (String.get (v_i s + 2) desc) (prev_char desc (v_i s))
        (in_heading pre hd s) =
      in_heading pre hd <$>
        text_case ent_encode c (String.get (v_i s + 1) desc)
          (String.get (v_i s + 2) desc) (prev_char desc (v_i s)) s).
    { unfold text_case.
      replace (v_i (in_heading pre hd s)) with (v_i s) by (by destruct s).
      rewrite Hi0. simpl.
      repeat case_match; try (by rewrite fmt_bold_in_heading).
      all: destruct s as [i text formats out st lt lu lsp ps log].
      all: unfold commit_text, in_heading; simpl.
      all: by repeat case_match. }
    rewrite Hi0. simpl. by repeat case_match.
  - repeat case_match; try (by destruct s).
    rewrite push_link_in_heading.
    destruct (push_link _ _ _ _ _ _) as [s1|]; [|done]. by destruct s1.
  - repeat case_match; by destruct s.
  - repeat case_match; by destruct s.
  - repeat case_match; try (by destruct s).
    rewrite push_link_in_heading.
    destruct (push_link _ _ _ _ _ _) as [s1|]; [|done]. by destruct s1.
Qed.

Lemma loop_in_heading pre hd f desc s :
  1 ≤ v_i s → v_state s ≠ LEADING_SPACES →
  loop ent_encode url_parse url_format f desc (in_heading pre hd s) =
  in_heading pre hd <$> loop ent_encode url_parse url_format f desc s.
Proof.
  revert s. induction f as [|f IH]; intros s Hi Hst; rewrite !loop_unfold.
  - replace (v_i (in_heading pre hd s)) with (v_i s) by (by destruct s).
    by destruct (String.length desc <=? v_i s).
  - replace (v_i (in_heading pre hd s)) with (v_i s) by (by destruct s).
    destruct (Nat.leb_spec (String.length desc) (v_i s)); [done|].
    rewrite step_in_heading by done.
    destruct (step ent_encode url_parse url_format desc s) as [s'|e] eqn:Hs;
      [|done].
    simpl. destruct (step_inv _ _ _ Hs) as (c & _ & Hts); [done|].
    assert (text_step c (prev_char desc (v_i s)) s s') as (? & ? & _).
    { by destruct (v_state s). }
    apply IH; [lia|done].
Qed.

(** Past the first character and the leading spaces, the loop leaves [ps]
    as it is. *)
Lemma loop_ps f desc s s' :
  1 ≤ v_i s → v_state s ≠ LEADING_SPACES →
  loop ent_encode url_parse url_format f desc s = Ok s' → v_ps s' = v_ps s.
Proof.
  revert s. induction f as [|f IH]; intros s Hi Hst; rewrite loop_unfold.
  - destruct (String.length desc <=? v_i s); [by intros [= <-]|done].
  - destruct (Nat.leb_spec (String.length desc) (v_i s)); [by intros [= <-]|].
    intros (s1 & Hs & Hl)%bind_Ok.
    destruct (step_inv _ _ _ Hs) as (c & _ & Hts); [done|].
    assert (text_step c (prev_char desc (v_i s)) s s1) as (? & ? & _ & Hps).
    { by destruct (v_state s). }
    rewrite (IH s1); [by apply Hps|lia|done|done].
Qed.

End MarkupFacts.

Section MarkupClaims.

Context (ent_encode : string → string) (url_parse : string → option Url)
  (url_format : Url → string).

Lemma append_cons (x : ascii) (a b : string) :
  String x a +:+ b = String x (a +:+ b).
Proof. reflexivity. Qed.

Lemma append_assoc (a b c : string) : (a +:+ b) +:+ c = a +:+ (b +:+ c).
Proof. induction a as [|x a IH]; [done|]. by rewrite !append_cons, IH. Qed.

Lemma append_empty_r (a : string) : a +:+ "" = a.
Proof. induction a as [|x a IH]; [done|]. by rewrite append_cons, IH. Qed.

Lemma join_snoc (l : list string) (x : string) : join (l ++ [x]) = join l +:+ x.
Proof.
  unfold join. induction l as [|y l IH]; simpl.
  - apply append_empty_r.
  - rewrite IH. symmetry. apply append_assoc.
Qed.

Lemma finish_in_heading pre hd s :
  ps_heading (v_ps s) = None →
  finish ent_encode (in_heading pre hd s) =
  pre +:+ finish ent_encode s +:+ ("</" +:+ hd +:+ ">").
Proof.
  intros Hh. unfold finish. rewrite commit_text_in_heading.
  assert (Hh' : ps_heading (v_ps (commit_text ent_encode s)) = None).
  { destruct s as [i [|c t] formats out st lt lu lsp ps log]; done. }
  destruct (commit_text ent_encode s) as [i t formats out st lt lu lsp ps log].
  simpl in *. rewrite Hh', app_nil_r. by rewrite join_snoc.
Qed.

(** C8, as the program has it: when no list is open, a line that starts
    with [h], a digit from 1 to 6 and a dot opens the heading of that level;
    the heading holds what the loop renders from the fifth character on (the
    marker and the character after it are consumed), and is closed at the
    end of the line; [ps] is left with that heading. *)
Theorem heading_line d rest ps :
  is_heading_level (Some d) = true → ps_list ps = None →
  parse_jira_markup ent_encode url_parse url_format
    (String "h" (String d (String "." rest))) ps =
  (λ r : string * parser_state * list log_entry,
     ("<h" +:+ String d ">" +:+ r.1.1 +:+ "</h" +:+ String d ">",
      {| ps_list := None; ps_heading := Some (String "h" (String d "")) |},
      r.2))
  <$> run_from ent_encode url_parse url_format
        (String "h" (String d (String "." rest))) (text_from 4 ps).
Proof.
  intros Hd Hps. set (desc := String "h" (String d (String "." rest))).
  set (hd := String "h" (String d "")).
  unfold parse_jira_markup, run_from.
  assert (Hstart :
    loop ent_encode url_parse url_format (S (String.length desc)) desc (init ps)
    = loop ent_encode url_parse url_format (S (S (String.length rest))) desc
        (in_heading ("<" +:+ hd +:+ ">") hd (text_from 4 ps))).
  { destruct ps as [pl ph]. simpl in Hps. subst pl.
    change (String.length desc) with (S (S (S (String.length rest)))).
    rewrite (loop_unfold _ _ _ (S (S (S (S (String.length rest)))))).
    change (String.length desc <=? v_i (init {| ps_list := None; ps_heading := ph |}))
      with false. cbv iota.
    change (step ent_encode url_parse url_format desc
              (init {| ps_list := None; ps_heading := ph |}))
      with (Ok (set_state TEXT (init {| ps_list := None; ps_heading := ph |}))).
    change (Ok ?x ≫= ?f) with (f x).
    rewrite (loop_unfold _ _ _ (S (S (S (String.length rest))))).
    change (String.length desc <=? v_i (set_state TEXT (init {| ps_list := None; ps_heading := ph |})))
      with false. cbv iota.
    unfold step, text_case. simpl. simpl in Hd. rewrite Hd. reflexivity. }
  rewrite Hstart, loop_in_heading by (simpl; (lia || done)).
  rewrite (loop_fuel _ _ _ (S (S (String.length rest))) (S (String.length desc)))
    by (unfold measure; simpl; lia).
  destruct (loop ent_encode url_parse url_format (S (String.length desc)) desc
              (text_from 4 ps)) as [s'|e] eqn:Hloop; [|done].
  apply loop_ps in Hloop; [|simpl; lia|done].
  simpl. rewrite finish_in_heading by (by rewrite Hloop).
  destruct s' as [i t formats out st lt lu lsp ps' log]. simpl in *. subst ps'.
  simpl. rewrite Hps. reflexivity.
Qed.


Lemma reachable_inv desc ps s :
  reachable ent_encode url_parse url_format desc ps s →
  v_formats s = [] ∨ (1 ≤ v_i s ∧ v_state s ≠ LEADING_SPACES).
Proof.
  induction 1 as [|s s' Hr IH Hlt Hs]; [by left|].
  destruct (step_inv _ _ _ _ _ _ Hs Hlt) as (c & _ & Hts).
  destruct (v_state s) eqn:Hst.
  - destruct IH as [IH|[_ ?]]; [|done]. left. destruct Hts as (-> & _). done.
  - destruct Hts as (? & ? & _). right. split; [lia|done].
  - destruct Hts as (? & ? & _). right. split; [lia|done].
  - destruct Hts as (? & ? & _). right. split; [lia|done].
  - destruct Hts as (? & ? & _). right. split; [lia|done].
  - destruct Hts as (? & ? & _). right. split; [lia|done].
Qed.

Lemma steps_reachable n desc ps s :
  steps ent_encode url_parse url_format n desc (init ps) = Ok s →
  reachable ent_encode url_parse url_format desc ps s.
Proof.
  assert (∀ s0, reachable ent_encode url_parse url_format desc ps s0 →
    steps ent_encode url_parse url_format n desc s0 = Ok s →
    reachable ent_encode url_parse url_format desc ps s) as Hgen.
  { induction n as [|n IH]; intros s0 Hr; simpl.
    - by intros [= <-].
    - destruct (Nat.leb_spec (String.length desc) (v_i s0)); [by intros [= <-]|].
      intros (s1 & Hs1 & Hrest)%bind_Ok. apply (IH s1); [|done].
      by eapply reach_step. }
  apply Hgen. constructor.
Qed.

(** In running text past the first character, an iteration is
    [text_case]. *)
Lemma step_text desc s c :
  String.get (v_i s) desc = Some c → v_state s = TEXT → 1 ≤ v_i s →
  Ascii.eqb c "010" = false → Ascii.eqb c "013" = false →
  step ent_encode url_parse url_format desc s =
  text_case ent_encode c (String.get (v_i s + 1) desc)
    (String.get (v_i s + 2) desc) (prev_char desc (v_i s)) s.
Proof.
  intros Hc Hst Hi Hn Hr. unfold step. rewrite Hc, Hn, Hr, Hst.
  replace (v_i s =? 0) with false by (symmetry; apply Nat.eqb_neq; lia).
  by destruct (ps_list (v_ps s)).
Qed.

Lemma text_case_fmt c cc ccc pc s :
  1 ≤ v_i s → Ascii.eqb c "[" = false →
  text_case ent_encode c cc ccc pc s = Ok (fmt_bold ent_encode c cc pc s).
Proof.
  intros Hi Hc. unfold text_case. rewrite Hc.
  replace (v_i s =? 0) with false by (symmetry; apply Nat.eqb_neq; lia).
  done.
Qed.

(** With a code span as the oldest open format, [*] and [_] are plain
    text. *)
Lemma fmt_bold_in_code c cc pc s :
  fmt0_is CODE s = true → c = "*"%char ∨ c = "_"%char →
  fmt_bold ent_encode c cc pc s =
  advance 1 (set_text (v_text s +:+ String c "") s).
Proof.
  intros H [-> | ->]; unfold fmt_bold, fmt_italic, fmt_plain; rewrite H;
    reflexivity.
Qed.

(** C4, as the program has it: bold and italic can be open at the same
    time (after [*a _b] both are); and while the open formats are code
    spans only, the characters [*] and [_] are not taken as formatting: the
    iteration opens and closes nothing, puts nothing out, and in running
    text appends the character to the pending text. *)
Theorem code_span_suppresses_emphasis :
  v_formats <$> loop ent_encode url_parse url_format 6 "*a _b" (init ps0)
    = Ok [BOLD; ITALIC] ∧
  ∀ desc ps s s' c,
    reachable ent_encode url_parse url_format desc ps s →
    String.get (v_i s) desc = Some c →
    c = "*"%char ∨ c = "_"%char →
    v_formats s ≠ [] → Forall (λ f, f = CODE) (v_formats s) →
    step ent_encode url_parse url_format desc s = Ok s' →
    v_formats s' = v_formats s ∧ v_out s' = v_out s ∧
    (v_state s = TEXT → v_text s' = v_text s +:+ String c "").
Proof.
  split; [reflexivity|].
  intros desc ps s s' c Hr Hc Hsym Hne Hall Hs.
  destruct (reachable_inv _ _ _ Hr) as [?|[Hi Hst]]; [done|].
  assert (Hcode : fmt0_is CODE s = true).
  { unfold fmt0_is. destruct (v_formats s) as [|f fs]; [done|].
    apply Forall_cons in Hall as [-> _]. done. }
  destruct (v_state s) eqn:Hstate; [done|..].
  - rewrite (step_text _ _ c) in Hs by (done || by destruct Hsym as [-> | ->]).
    rewrite text_case_fmt in Hs by (done || by destruct Hsym as [-> | ->]).
    rewrite fmt_bold_in_code in Hs by done. injection Hs as <-.
    by destruct s.
  - unfold step in Hs. rewrite Hc, Hstate in Hs.
    destruct Hsym as [-> | ->]; injection Hs as <-; by destruct s.
  - unfold step in Hs. rewrite Hc, Hstate in Hs.
    destruct Hsym as [-> | ->]; injection Hs as <-; by destruct s.
  - unfold step in Hs. rewrite Hc, Hstate in Hs.
    destruct Hsym as [-> | ->]; injection Hs as <-; by destruct s.
  - unfold step in Hs. rewrite Hc, Hstate in Hs.
    destruct Hsym as [-> | ->]; injection Hs as <-; by destruct s.
Qed.


Lemma commit_text_formats s :
  v_formats (commit_text ent_encode s) = v_formats s.
Proof. by destruct s as [i [|c t] formats out st lt lu lsp ps log]. Qed.

(** With bold, or italic, as the only open format, its symbol closes
    it. *)
Lemma fmt_bold_close f c cc pc s :
  v_formats s = [f] → symbol_of f = Some c →
  fmt_bold ent_encode c cc pc s =
  advance 1 (push_out (closing_tag f) (pop_fmt (commit_text ent_encode s))).
Proof.
  intros Hf Hc.
  destruct f; simpl in Hc; simplify_eq; unfold fmt_bold, fmt_italic, fmt0_is;
    rewrite ?commit_text_formats, Hf; reflexivity.
Qed.

Lemma prefmtok_letter pc p :
  prefmtok pc = true → pc = Some p → is_letter p = false.
Proof.
  intros H ->. unfold prefmtok in H. unfold is_letter.
  by destruct (_ || _).
Qed.

Lemma removelast_le {A} (l : list A) : length (removelast l) ≤ length l.
Proof.
  induction l as [|x [|y l] IH]; simpl in *; lia.
Qed.

Lemma get_Some_lt desc i c : String.get i desc = Some c → i < String.length desc.
Proof.
  intros H. destruct (Nat.lt_ge_cases i (String.length desc)) as [|Hge]; [done|].
  apply get_None in Hge. congruence.
Qed.

(** What holds of the two example lines and of the rule for opening: the
    lines render as the specification says (for an encoder that leaves
    plain characters alone); bold and italic are only opened by their
    symbol, and only when the character before it is not a letter; and
    where bold, or italic, is the only open format, its symbol in running
    text closes it. *)
Theorem emphasis_delimiters :
  (∀ t, plain_text t = true → ent_encode t = t) →
  parse_jira_markup ent_encode url_parse url_format "a*b*c" ps0
    = Ok ("a*b*c", ps0, []) ∧
  parse_jira_markup ent_encode url_parse url_format "a *b* c" ps0
    = Ok ("a <b>b</b> c", ps0, []) ∧
  (∀ desc s s' f c,
     step ent_encode url_parse url_format desc s = Ok s' →
     String.get (v_i s) desc = Some c → f = BOLD ∨ f = ITALIC →
     v_formats s' = v_formats s ++ [f] →
     symbol_of f = Some c ∧
     ∀ p, prev_char desc (v_i s) = Some p → is_letter p = false) ∧
  (∀ desc ps s f c,
     reachable ent_encode url_parse url_format desc ps s →
     v_state s = TEXT → String.get (v_i s) desc = Some c →
     symbol_of f = Some c → v_formats s = [f] →
     ∃ s', step ent_encode url_parse url_format desc s = Ok s' ∧
           v_formats s' = [] ∧
           v_out s' = v_out (commit_text ent_encode s) ++ [closing_tag f]).
Proof.
  intros Henc. split_and!.
  - vm_compute. by rewrite !Henc.
  - vm_compute. by rewrite !Henc.
  - intros desc s s' f c Hs Hc Hf Hopen.
    destruct (step_inv _ _ _ _ _ _ Hs (get_Some_lt _ _ _ Hc)) as (c' & Hc' & Hts).
    rewrite Hc in Hc'. injection Hc' as <-.
    assert (Hch : fmt_change c (prev_char desc (v_i s)) (v_formats s)
                    (v_formats s') ∨ v_formats s' = v_formats s).
    { destruct (v_state s); [right; by destruct Hts|left; by destruct Hts as (_ & _ & ? & _)..]. }
    assert (Hlen : length (v_formats s') = S (length (v_formats s))).
    { rewrite Hopen, length_app. simpl. lia. }
    destruct Hch as [[Heq|[Heq|[Heq|[(Heq & -> & Hp)|(Heq & -> & Hp)]]]]|Heq];
      rewrite Heq in Hlen, Hopen.
    + lia.
    + pose proof (removelast_le (v_formats s)). lia.
    + apply app_inv_head in Hopen. destruct Hf as [-> | ->]; done.
    + apply app_inv_head in Hopen. injection Hopen as <-.
      split; [done|]. intros p. by apply prefmtok_letter.
    + apply app_inv_head in Hopen. injection Hopen as <-.
      split; [done|]. intros p. by apply prefmtok_letter.
    + lia.
  - intros desc ps s f c Hr Hst Hc Hsym Hf.
    destruct (reachable_inv _ _ _ Hr) as [Hnil|[Hi _]]; [congruence|].
    assert (Hcc : c = "*"%char ∨ c = "_"%char).
    { destruct f; simpl in Hsym; simplify_eq; auto. }
    rewrite (step_text _ _ c) by (done || by destruct Hcc as [-> | ->]).
    rewrite text_case_fmt by (done || by destruct Hcc as [-> | ->]).
    rewrite (fmt_bold_close f) by done.
    eexists. split; [done|].
    pose proof (commit_text_formats s) as Hcf. rewrite Hf in Hcf.
    destruct (commit_text ent_encode s). simpl in *. by subst.
Qed.

Lemma commit_text_text s : v_text (commit_text ent_encode s) = "".
Proof. by destruct s as [i [|c t] formats out st lt lu lsp ps log]. Qed.

(** C5 fails where the format to close is not the one that was opened
    first: the test for closing reads [formats[0]], the oldest open
    format, while [push] and [pop] work at the other end of the array.
    With [f] (bold or italic) opened last and the other of the two opened
    first, the symbol of [f], met in running text after a letter, closes
    nothing: [f] stays open, no closing tag is put out, and the symbol
    becomes text. *)
Theorem emphasis_close_reads_oldest desc ps s f g rest c :
  reachable ent_encode url_parse url_format desc ps s →
  v_state s = TEXT → String.get (v_i s) desc = Some c →
  symbol_of f = Some c → v_formats s = g :: rest ++ [f] →
  g ≠ f → g ≠ CODE → prefmtok (prev_char desc (v_i s)) = false →
  ∃ s', step ent_encode url_parse url_format desc s = Ok s' ∧
        v_formats s' = v_formats s ∧
        v_out s' = v_out (commit_text ent_encode s) ∧
        v_text s' = String c "".
Proof.
  intros Hr Hst Hc Hsym Hf Hgf Hg Hpre.
  destruct (reachable_inv _ _ _ Hr) as [Hnil|[Hi _]]; [congruence|].
  assert (Hcc : c = "*"%char ∨ c = "_"%char).
  { destruct f; simpl in Hsym; simplify_eq; auto. }
  rewrite (step_text _ _ c) by (done || by destruct Hcc as [-> | ->]).
  rewrite text_case_fmt by (done || by destruct Hcc as [-> | ->]).
  eexists. split; [reflexivity|].
  pose proof (commit_text_formats s) as Hcf.
  pose proof (commit_text_text s) as Hct.
  unfold fmt_bold, fmt_italic, fmt_plain, fmt0_is.
  rewrite ?commit_text_formats, Hf, Hpre.
  destruct f, g; simpl in Hsym; simplify_eq; cbn;
    rewrite ?Hct;
    repeat match goal with
           | |- context [bool_decide ?P] =>
               let b := eval vm_compute in (bool_decide P) in
               change (bool_decide P) with b
           end;
    cbn; by rewrite Hcf, Hf.
Qed.

(** C6, as the program has it: when the URL cannot be parsed,
    [format_remote_link] does not raise; it logs the failure and still
    returns an anchor element, around the display text as it was given. *)
Theorem unparsable_url_still_linked link text :
  url_parse (trim link) = None →
  ∃ href,
    format_remote_link ent_encode url_parse url_format link text
    = Ok (anchor href text, [LogError "url parse error"]).
Proof.
  intros H. exists (trim link). unfold format_remote_link, fix_url.
  by rewrite H.
Qed.

(** C7 fails on the branch of [fix_url] that catches a failure of the URL
    parser: the anchor then holds the trimmed link as it is, not entity
    encoded. *)
Theorem href_raw_when_parse_fails link text :
  url_parse (trim link) = None →
  format_remote_link ent_encode url_parse url_format link text
  = Ok (anchor (trim link) text, [LogError "url parse error"]).
Proof.
  intros H. unfold format_remote_link, fix_url. by rewrite H.
Qed.

End MarkupClaims.

(** ** The claims about the converter at concrete lines *)

Lemma ent_encode_model_plain (t : string) :
  plain_text t = true → ent_encode_model t = t.
Proof.
  induction t as [|c t IH]; [done|]. simpl.
  intros [Hc Ht]%andb_true_iff. rewrite (IH Ht).
  destruct (Ascii.eqb_spec c "&") as [->|_]; [done|].
  destruct (Ascii.eqb_spec c "<") as [->|_]; [done|].
  destruct (Ascii.eqb_spec c ">") as [->|_]; [done|].
  destruct (Ascii.eqb_spec c "034") as [->|_]; [done|].
  reflexivity.
Qed.

Lemma heading_line_witness :
  is_heading_level (Some "1"%char) = true ∧ ps_list ps0 = None ∧
  parse_jira_markup ent_encode_model url_parse_model url_format_model
    "h1. Title" ps0 =
  (λ r : string * parser_state * list log_entry,
     ("<h" +:+ String "1" ">" +:+ r.1.1 +:+ "</h" +:+ String "1" ">",
      {| ps_list := None; ps_heading := Some "h1" |}, r.2))
  <$> run_from ent_encode_model url_parse_model url_format_model
        "h1. Title" (text_from 4 ps0).
Proof.
  split; [reflexivity|]. split; [reflexivity|].
  apply (heading_line ent_encode_model url_parse_model url_format_model
           "1"%char " Title" ps0); reflexivity.
Defined.

(** C8 as the specification words it fails: of [h1.Title] four characters
    are consumed, not three; and while a list is open, the line [h2. Title]
    opens no heading. *)
Lemma heading_marker_counterexample :
  parse_jira_markup ent_encode_model url_parse_model url_format_model
    "h1.Title" ps0
  = Ok ("<h1>itle</h1>", {| ps_list := None; ps_heading := Some "h1" |}, []) ∧
  parse_jira_markup ent_encode_model url_parse_model url_format_model
    "h2. Title" {| ps_list := Some UL; ps_heading := None |}
  = Ok ("</li></ul>h2. Title", ps0, []).
Proof. split; reflexivity. Qed.

Lemma code_span_suppresses_emphasis_witness :
  steps ent_encode_model url_parse_model url_format_model 3 "{{a*b" (init ps0)
    = Ok ex_in_code ∧
  String.get (v_i ex_in_code) "{{a*b" = Some "*"%char ∧
  Forall (λ f, f = CODE) (v_formats ex_in_code) ∧
  step ent_encode_model url_parse_model url_format_model "{{a*b" ex_in_code
    = Ok ex_in_code_next ∧
  v_formats ex_in_code_next = v_formats ex_in_code ∧
  v_out ex_in_code_next = v_out ex_in_code ∧
  (v_state ex_in_code = TEXT →
   v_text ex_in_code_next = v_text ex_in_code +:+ "*").
Proof.
  split; [reflexivity|]. split; [reflexivity|].
  split; [by repeat constructor|]. split; [reflexivity|].
  apply (proj2 (code_span_suppresses_emphasis ent_encode_model url_parse_model
                  url_format_model) "{{a*b" ps0 ex_in_code ex_in_code_next
           "*"%char).
  - by apply (steps_reachable _ _ _ 3).
  - reflexivity.
  - by left.
  - discriminate.
  - by repeat constructor.
  - reflexivity.
Defined.

(** C4 as the specification words it fails: after [*a _b] bold and italic
    are both open; and in [*a {{b*c], with the code span on top of the open
    formats, the second [*] is taken as formatting: it puts out the closing
    tag of bold and closes the code span. *)
Lemma emphasis_nesting_counterexample :
  v_formats <$> loop ent_encode_model url_parse_model url_format_model 6
                  "*a _b" (init ps0)
    = Ok [BOLD; ITALIC] ∧
  (steps ent_encode_model url_parse_model url_format_model 6 "*a {{b*c"
     (init ps0) ≫= λ s,
   step ent_encode_model url_parse_model url_format_model "*a {{b*c" s ≫= λ s',
   Ok (v_formats s, String.get (v_i s) "*a {{b*c", v_formats s', v_out s'))
    = Ok ([BOLD; CODE], Some "*"%char, [BOLD],
          ["<b>"; "a "; "<code>"; "b"; "</b>"]).
Proof. split; reflexivity. Qed.

Lemma emphasis_delimiters_witness :
  (∀ t, plain_text t = true → ent_encode_model t = t) ∧
  parse_jira_markup ent_encode_model url_parse_model url_format_model
    "a*b*c" ps0 = Ok ("a*b*c", ps0, []) ∧
  parse_jira_markup ent_encode_model url_parse_model url_format_model
    "a *b* c" ps0 = Ok ("a <b>b</b> c", ps0, []) ∧
  (step ent_encode_model url_parse_model url_format_model "a *b* c"
     ex_before_bold = Ok ex_bold_open ∧
   v_formats ex_bold_open = v_formats ex_before_bold ++ [BOLD] ∧
   symbol_of BOLD = Some "*"%char ∧
   ∀ p, prev_char "a *b* c" (v_i ex_before_bold) = Some p →
        is_letter p = false) ∧
  (steps ent_encode_model url_parse_model url_format_model 5 "a *b* c"
     (init ps0) = Ok ex_in_bold ∧
   ∃ s', step ent_encode_model url_parse_model url_format_model "a *b* c"
           ex_in_bold = Ok s' ∧
         v_formats s' = [] ∧
         v_out s' = v_out (commit_text ent_encode_model ex_in_bold)
                      ++ [closing_tag BOLD]).
Proof.
  split; [exact ent_encode_model_plain|].
  destruct (emphasis_delimiters ent_encode_model url_parse_model
              url_format_model ent_encode_model_plain)
    as (H1 & H2 & H3 & H4).
  split; [exact H1|]. split; [exact H2|]. split.
  - split; [reflexivity|]. split; [reflexivity|].
    apply (H3 "a *b* c" ex_before_bold ex_bold_open BOLD "*"%char);
      [reflexivity|reflexivity|by left|reflexivity].
  - split; [reflexivity|].
    apply (H4 "a *b* c" ps0 ex_in_bold BOLD "*"%char);
      [by apply (steps_reachable _ _ _ 5)|reflexivity..].
Defined.

Lemma emphasis_close_reads_oldest_witness :
  steps ent_encode_model url_parse_model url_format_model 6 "_a *b* c"
    (init ps0) = Ok ex_in_italic_bold ∧
  String.get (v_i ex_in_italic_bold) "_a *b* c" = Some "*"%char ∧
  prefmtok (prev_char "_a *b* c" (v_i ex_in_italic_bold)) = false ∧
  parse_jira_markup ent_encode_model url_parse_model url_format_model
    "_a *b* c" ps0 = Ok ("<i>a <b>b* c", ps0, []) ∧
  ∃ s', step ent_encode_model url_parse_model url_format_model "_a *b* c"
          ex_in_italic_bold = Ok s' ∧
        v_formats s' = [ITALIC; BOLD] ∧
        v_out s' = ["<i>"; "a "; "<b>"; "b"] ∧
        v_text s' = "*".
Proof.
  split; [reflexivity|]. split; [reflexivity|]. split; [reflexivity|].
  split; [reflexivity|].
  apply (emphasis_close_reads_oldest ent_encode_model url_parse_model
           url_format_model "_a *b* c" ps0 ex_in_italic_bold BOLD ITALIC []
           "*"%char);
    [by apply (steps_reachable _ _ _ 6)|reflexivity|reflexivity|reflexivity
    |reflexivity|discriminate|discriminate|reflexivity].
Defined.

(** The line [_a *b* c] as a whole: bold is opened inside italic; when
    the second [*] comes, bold is open, and the iteration leaves it open
    and puts out no closing tag. *)
Lemma emphasis_not_closed_counterexample :
  parse_jira_markup ent_encode_model url_parse_model url_format_model
    "_a *b* c" ps0 = Ok ("<i>a <b>b* c", ps0, []) ∧
  (steps ent_encode_model url_parse_model url_format_model 6 "_a *b* c"
     (init ps0) ≫= λ s,
   step ent_encode_model url_parse_model url_format_model "_a *b* c" s ≫= λ s',
   Ok (v_formats s, v_state s, String.get (v_i s) "_a *b* c", v_formats s',
       v_out s'))
    = Ok ([ITALIC; BOLD], TEXT, Some "*"%char, [ITALIC; BOLD],
          ["<i>"; "a "; "<b>"; "b"]).
Proof. split; reflexivity. Qed.

Lemma unparsable_url_still_linked_witness :
  url_parse_model (trim ex_bad_url) = None ∧
  ∃ href,
    format_remote_link ent_encode_model url_parse_model url_format_model
      ex_bad_url "t"
    = Ok (anchor href "t", [LogError "url parse error"]).
Proof.
  split; [reflexivity|].
  apply (unparsable_url_still_linked ent_encode_model url_parse_model
           url_format_model ex_bad_url "t").
  reflexivity.
Defined.

(** C6 as the specification words it fails: for a link that cannot be
    parsed, what [format_remote_link] returns is an anchor element, not the
    encoded display text alone. *)
Lemma unparsable_url_counterexample :
  url_parse_model (trim ex_bad_url) = None ∧
  format_remote_link ent_encode_model url_parse_model url_format_model
    ex_bad_url "t"
  = Ok (anchor ex_bad_url "t", [LogError "url parse error"]) ∧
  anchor ex_bad_url "t" ≠ ent_encode_model "t".
Proof. split_and!; [reflexivity..|discriminate]. Qed.

Lemma href_raw_when_parse_fails_witness :
  url_parse_model (trim ex_bad_url_quote) = None ∧
  format_remote_link ent_encode_model url_parse_model url_format_model
    ex_bad_url_quote "x"
  = Ok (anchor (trim ex_bad_url_quote) "x", [LogError "url parse error"]) ∧
  trim ex_bad_url_quote = ex_bad_url_quote ∧
  ent_encode_model ex_bad_url_quote = "http://%&quot;@x/".
Proof.
  split; [reflexivity|]. split; [|split; reflexivity].
  apply (href_raw_when_parse_fails ent_encode_model url_parse_model
           url_format_model ex_bad_url_quote "x").
  reflexivity.
Defined.

(** ** Further properties of the projector *)

Section ProjectorMore.

Local Set Default Proof Using "Type".

Context (UNRESTRICTED : bool) (CONFIG_label : string)
  (ALLOWED_LABELS : list string).

(** Splits a run of [format_issue_assemble] into its calls. *)
Ltac stages H :=
  unfold format_issue_assemble in H;
  apply bind_Ok in H as ([] & Hissue & H);
  apply bind_Ok in H as (asserted & Hrls & H);
  apply bind_Ok in H as (id & Hid & H);
  apply bind_Ok in H as (key & Hkey & H);
  apply bind_Ok in H as (fields & Hfields & H);
  apply bind_Ok in H as (summary & Hsummary & H);
  apply bind_Ok in H as (f1 & H1 & H);
  apply bind_Ok in H as (f2 & H2 & H);
  apply bind_Ok in H as (f3 & H3 & H);
  apply bind_Ok in H as (f4 & H4 & H);
  apply bind_Ok in H as (f5 & H5 & H);
  apply bind_Ok in H as (f6 & H6 & H);
  apply bind_Ok in H as (f7 & H7 & H);
  apply bind_Ok in H as (f8 & H8 & H);
  apply bind_Ok in H as (f9 & H9 & H);
  apply bind_Ok in H as (f10 & H10 & H);
  apply bind_Ok in H as (f11 & H11 & H);
  apply bind_Ok in H as (f12 & H12 & H);
  apply bind_Ok in H as (labels & Hlabels & H);
  apply bind_Ok in H as (ls & Hls & H);
  apply bind_Ok in H as (f14 & H14 & H);
  apply bind_Ok in H as ([fo logs'] & H15 & H);
  apply bind_Ok in H as (rls' & Hrls' & H);
  injection H as <- <-;
  apply array_method_Ok in Hls as ->;
  apply get_own in Hlabels as (rf & -> & Hlabels); [|done..];
  apply get_own in Hfields as (io & -> & Hfields); [|done..];
  apply get_field in Hid as ->; [|done];
  apply get_field in Hkey as ->; [|done];
  apply get_field in Hsummary; [|done].

(** Follows a lookup in [out.fields] back through the calls that do not
    write the key looked up. *)
Ltac follow :=
  repeat first
    [ rewrite lookup_insert_ne by done
    | match goal with
      | H : copy_obj _ _ ?m = Ok ?m' |- context [?m' !! ?k] =>
          rewrite (copy_obj_frame _ _ _ _ k H) by done
      | H : copy_simple _ _ ?m = Ok ?m' |- context [?m' !! ?k] =>
          rewrite (copy_simple_frame _ _ _ _ k H) by done
      | H : copy_fix_versions _ ?m = Ok ?m' |- context [?m' !! ?k] =>
          rewrite (copy_fix_versions_frame _ _ _ k H) by done
      | H : copy_issue_links _ _ _ _ ?m = Ok ?m' |- context [?m' !! ?k] =>
          rewrite (copy_issue_links_frame _ _ _ _ _ _ k H) by done
      | H : copy_comments _ ?m = Ok (?m', _) |- context [?m' !! ?k] =>
          rewrite (copy_comments_frame _ _ _ _ k H) by done
      end ].

Lemma copy_simple_at fields fname m m' :
  fname ≠ "length" → copy_simple fields fname m = Ok m' →
  m !! fname = None →
  m' !! fname =
    if truthy (field fields fname) then Some (field fields fname) else None.
Proof.
  intros Hne H Hm. unfold copy_simple in H. apply bind_Ok in H as (v & Hv & H).
  apply get_field in Hv as ->; [|done]. injection H as <-.
  destruct (truthy (field fields fname)); [by rewrite lookup_insert_eq|done].
Qed.

Lemma is_allowed_label_spec (l : jsval) :
  is_allowed_label ALLOWED_LABELS l = true ↔
  ∃ a, l = JStr a ∧ a ∈ ALLOWED_LABELS.
Proof.
  unfold is_allowed_label. rewrite existsb_exists. split.
  - intros (a & Ha%list_elem_of_In & Hl). exists a. split; [|done].
    destruct l; try discriminate. simpl in Hl.
    by apply String.eqb_eq in Hl as ->.
  - intros (a & -> & Ha). exists a. split; [by apply list_elem_of_In|].
    simpl. apply String.eqb_refl.
Qed.

Lemma copy_remotelink_spec rl o :
  copy_remotelink rl = Ok o →
  remotelink_projected rl o ∧
  field rl "object" ≠ JUndef ∧ field rl "object" ≠ JNull.
Proof.
  intros H. unfold copy_remotelink in H.
  apply bind_Ok in H as (id & Hid & H). apply bind_Ok in H as (ob & Hob & H).
  apply bind_Ok in H as (url & Hurl & H).
  apply bind_Ok in H as (title & Htitle & [= <-]).
  apply get_field in Hid as ->; [|done].
  apply get_field in Hob as ->; [|done].
  split.
  - apply get_field in Hurl as ->; [|done].
    apply get_field in Htitle as ->; [|done]. done.
  - revert Hurl. by destruct (field rl "object").
Qed.

(** X1: the record [format_issue_assemble] returns
    is made of [issue] and [remotelinks] only; its issue is made of [id],
    [key] (both as the raw issue has them) and [fields]; and every name in
    its [fields] is one of the sixteen of [FIELD_NAMES], [summary] being the
    raw summary.  No other property of the raw issue gets through. *)
Theorem sanitized_record_shape issue rls oi out logs :
  format_issue_assemble UNRESTRICTED CONFIG_label ALLOWED_LABELS issue rls oi
    = Ok (out, logs) →
  ∃ (io fo : gmap string jsval) (rls' : list jsval),
    out = obj [("issue", JObj io); ("remotelinks", JArr rls')] ∧
    dom io = {[ "id"; "key"; "fields" ]} ∧
    io !! "id" = Some (field issue "id") ∧
    io !! "key" = Some (field issue "key") ∧
    io !! "fields" = Some (JObj fo) ∧
    dom fo ⊆ list_to_set FIELD_NAMES ∧
    fo !! "summary" = Some (field (field issue "fields") "summary").
Proof.
  intros H. stages H.
  eexists _, fo, rls'. split; [reflexivity|]. split; [done|].
  split; [done|]. split; [done|]. split; [done|]. split.
  - intros k Hk. apply elem_of_dom in Hk.
    destruct (decide (k = "comment")) as [->|?]; [by vm_compute|].
    rewrite (copy_comments_frame _ _ _ _ k H15) in Hk by done.
    destruct (decide (k = "description")) as [->|?]; [by vm_compute|].
    rewrite (copy_simple_frame _ _ _ _ k H14) in Hk by done.
    destruct (decide (k = "labels")) as [->|?]; [by vm_compute|].
    rewrite lookup_insert_ne in Hk by done.
    destruct (decide (k = "issuelinks")) as [->|?]; [by vm_compute|].
    rewrite (copy_issue_links_frame _ _ _ _ _ _ k H12) in Hk by done.
    destruct (decide (k = "fixVersions")) as [->|?]; [by vm_compute|].
    rewrite (copy_fix_versions_frame _ _ _ k H11) in Hk by done.
    destruct (decide (k = "resolutiondate")) as [->|?]; [by vm_compute|].
    rewrite (copy_simple_frame _ _ _ _ k H10) in Hk by done.
    destruct (decide (k = "resolution")) as [->|?]; [by vm_compute|].
    rewrite (copy_obj_frame _ _ _ _ k H9) in Hk by done.
    destruct (decide (k = "assignee")) as [->|?]; [by vm_compute|].
    rewrite (copy_obj_frame _ _ _ _ k H8) in Hk by done.
    destruct (decide (k = "reporter")) as [->|?]; [by vm_compute|].
    rewrite (copy_obj_frame _ _ _ _ k H7) in Hk by done.
    destruct (decide (k = "creator")) as [->|?]; [by vm_compute|].
    rewrite (copy_obj_frame _ _ _ _ k H6) in Hk by done.
    destruct (decide (k = "updated")) as [->|?]; [by vm_compute|].
    rewrite (copy_simple_frame _ _ _ _ k H5) in Hk by done.
    destruct (decide (k = "created")) as [->|?]; [by vm_compute|].
    rewrite (copy_simple_frame _ _ _ _ k H4) in Hk by done.
    destruct (decide (k = "status")) as [->|?]; [by vm_compute|].
    rewrite (copy_obj_frame _ _ _ _ k H3) in Hk by done.
    destruct (decide (k = "priority")) as [->|?]; [by vm_compute|].
    rewrite (copy_obj_frame _ _ _ _ k H2) in Hk by done.
    destruct (decide (k = "issuetype")) as [->|?]; [by vm_compute|].
    rewrite (copy_obj_frame _ _ _ _ k H1) in Hk by done.
    destruct (decide (k = "summary")) as [->|?]; [by vm_compute|].
    rewrite summary_only_lookup in Hk by done. by destruct Hk.
  - follow. rewrite Hsummary.
    replace (field (JObj io) "fields") with (JObj rf);
      [done|unfold field; cbn [own]; by rewrite Hfields].
Qed.

(** X2: [format_issue_assemble] returns normally only
    when the raw labels are an array, and the sanitised labels are then the
    raw labels that are strings of ALLOWED_LABELS, in the order of the raw
    issue, whatever the mode. *)
Theorem labels_filtered issue rls oi out logs :
  format_issue_assemble UNRESTRICTED CONFIG_label ALLOWED_LABELS issue rls oi
    = Ok (out, logs) →
  ∃ (rf fo : gmap string jsval) (labels shown : list jsval),
    raw_fields issue = Some rf ∧ sanitized_fields out = Some fo ∧
    rf !! "labels" = Some (JArr labels) ∧
    fo !! "labels" = Some (JArr shown) ∧
    shown = filter (λ l, is_allowed_label ALLOWED_LABELS l = true) labels ∧
    shown `sublist_of` labels ∧
    ∀ l, l ∈ shown ↔ l ∈ labels ∧ ∃ a, l = JStr a ∧ a ∈ ALLOWED_LABELS.
Proof.
  intros H. stages H.
  eexists rf, fo, ls, _. split_and!.
  - unfold raw_fields. simpl. by rewrite Hfields.
  - done.
  - done.
  - follow. by rewrite lookup_insert_eq.
  - done.
  - apply sublist_filter.
  - intros l. rewrite list_elem_of_filter, is_allowed_label_spec. tauto.
Qed.

(** X3: each of [created], [updated],
    [resolutiondate] and [description] is in the sanitised fields exactly
    when its raw value is truthy, and then with the raw value as it is. *)
Theorem simple_fields_copied issue rls oi out logs :
  format_issue_assemble UNRESTRICTED CONFIG_label ALLOWED_LABELS issue rls oi
    = Ok (out, logs) →
  ∃ rf fo : gmap string jsval,
    raw_fields issue = Some rf ∧ sanitized_fields out = Some fo ∧
    ∀ fname, fname ∈ SIMPLE_FIELDS →
      fo !! fname =
        if truthy (field (JObj rf) fname) then Some (field (JObj rf) fname)
        else None.
Proof.
  intros H. stages H. exists rf, fo. split_and!.
  - unfold raw_fields. simpl. by rewrite Hfields.
  - done.
  - intros fname Hin. unfold SIMPLE_FIELDS in Hin.
    repeat (apply elem_of_cons in Hin as [->|Hin]);
      [..|by apply elem_of_nil in Hin].
    + follow. eapply copy_simple_at; [|exact H4|]; [done|].
      follow. by apply summary_only_lookup.
    + follow. eapply copy_simple_at; [|exact H5|]; [done|].
      follow. by apply summary_only_lookup.
    + follow. eapply copy_simple_at; [|exact H10|]; [done|].
      follow. by apply summary_only_lookup.
    + follow. eapply copy_simple_at; [|exact H14|]; [done|].
      follow. by apply summary_only_lookup.
Qed.

(** X4: [format_issue_assemble] returns normally
    only when every remote link has an [object]; the sanitised remote links
    are then the given ones, one for one and in order, each reduced to its
    [id] and to the [url] and [title] of its [object]. *)
Theorem remotelinks_projected issue rls oi out logs :
  format_issue_assemble UNRESTRICTED CONFIG_label ALLOWED_LABELS issue rls oi
    = Ok (out, logs) →
  Forall (λ rl, field rl "object" ≠ JUndef ∧ field rl "object" ≠ JNull) rls ∧
  ∃ rls', own out "remotelinks" = Some (JArr rls') ∧
          Forall2 remotelink_projected rls rls'.
Proof.
  intros H. stages H. apply mapM_Ok in Hrls'. split.
  - clear -Hrls'. induction Hrls' as [|rl o l k Ho _ IH]; constructor; [|done].
    by apply copy_remotelink_spec in Ho as [_ ?].
  - exists rls'. split; [done|].
    eapply Forall2_impl; [exact Hrls'|]. intros rl o Ho.
    by apply copy_remotelink_spec in Ho as [? _].
Qed.

(** X5: when the raw [fixVersions] is falsy the
    sanitised fields have none; otherwise it is an array and the sanitised
    fix versions are one object for each raw one, in order, whose keys all
    belong to RELEASE_OBJECT_KEYS, each with the truthy value the raw
    version has under it. *)
Theorem fix_versions_allowlisted issue rls oi out logs :
  format_issue_assemble UNRESTRICTED CONFIG_label ALLOWED_LABELS issue rls oi
    = Ok (out, logs) →
  ∃ rf fo : gmap string jsval,
    raw_fields issue = Some rf ∧ sanitized_fields out = Some fo ∧
    (truthy (field (JObj rf) "fixVersions") = false →
     fo !! "fixVersions" = None) ∧
    (truthy (field (JObj rf) "fixVersions") = true →
     ∃ fvs ts, rf !! "fixVersions" = Some (JArr fvs) ∧
       fo !! "fixVersions" = Some (JArr ts) ∧
       Forall2 (λ fv t, ∃ tm : gmap string jsval, t = JObj tm ∧
                  ∀ k v, tm !! k = Some v →
                         k ∈ RELEASE_OBJECT_KEYS ∧ get fv k = Ok v ∧
                         truthy v = true) fvs ts).
Proof.
  intros H. stages H. exists rf, fo. split_and!.
  - unfold raw_fields. simpl. by rewrite Hfields.
  - done.
  - intros Hf. follow. unfold copy_fix_versions in H11.
    apply bind_Ok in H11 as (v & Hv & H11).
    apply get_field in Hv as ->; [|done]. rewrite Hf in H11.
    injection H11 as <-. follow. by apply summary_only_lookup.
  - intros Ht. unfold copy_fix_versions in H11.
    apply bind_Ok in H11 as (v & Hv & H11).
    apply get_field in Hv as ->; [|done]. rewrite Ht in H11.
    apply bind_Ok in H11 as (fvs & Hfvs%array_method_Ok & H11).
    apply bind_Ok in H11 as (ts & Hts & [= <-]).
    exists fvs, ts. split_and!.
    + unfold field in Hfvs. cbn [own] in Hfvs.
      destruct (rf !! "fixVersions") as [v|]; [|done]. simpl in Hfvs.
      by subst.
    + follow. by rewrite lookup_insert_eq.
    + apply mapM_Ok in Hts. eapply Forall2_impl; [exact Hts|].
      intros fv t Ht'. apply fmap_Ok in Ht' as (tm & Htm & ->).
      exists tm. split; [done|]. intros k v Hk.
      rewrite (copy_keys_lookup _ _ _ _ k Htm) in Hk.
      case_decide; [|by rewrite lookup_empty in Hk]. split; [done|].
      destruct (get fv k) as [y|]; [|by rewrite lookup_empty in Hk].
      destruct (truthy y) eqn:Hy; [|by rewrite lookup_empty in Hk].
      by simplify_eq.
Qed.

End ProjectorMore.

(** The example issue with a remote link is sanitised as expected. *)
Lemma ex_issue_remote_assembled :
  format_issue_assemble false "public" ["public"] ex_issue [ex_remotelink]
    ex_other_issues = Ok (ex_out_remote, ex_logs).
Proof. reflexivity. Qed.

Lemma sanitized_record_shape_witness :
  format_issue_assemble false "public" ["public"] ex_issue [ex_remotelink]
    ex_other_issues = Ok (ex_out_remote, ex_logs) ∧
  ∃ (io fo : gmap string jsval) (rls' : list jsval),
    ex_out_remote = obj [("issue", JObj io); ("remotelinks", JArr rls')] ∧
    dom io = {[ "id"; "key"; "fields" ]} ∧
    io !! "id" = Some (field ex_issue "id") ∧
    io !! "key" = Some (field ex_issue "key") ∧
    io !! "fields" = Some (JObj fo) ∧
    dom fo ⊆ list_to_set FIELD_NAMES ∧
    fo !! "summary" = Some (field (field ex_issue "fields") "summary").
Proof.
  split; [reflexivity|].
  apply (sanitized_record_shape false "public" ["public"] ex_issue
           [ex_remotelink] ex_other_issues ex_out_remote ex_logs).
  reflexivity.
Defined.

Lemma labels_filtered_witness :
  format_issue_assemble false "public" ["public"] ex_issue [ex_remotelink]
    ex_other_issues = Ok (ex_out_remote, ex_logs) ∧
  ∃ (rf fo : gmap string jsval) (labels shown : list jsval),
    raw_fields ex_issue = Some rf ∧ sanitized_fields ex_out_remote = Some fo ∧
    rf !! "labels" = Some (JArr labels) ∧
    fo !! "labels" = Some (JArr shown) ∧
    shown = filter (λ l, is_allowed_label ["public"] l = true) labels ∧
    shown `sublist_of` labels ∧
    ∀ l, l ∈ shown ↔ l ∈ labels ∧ ∃ a, l = JStr a ∧ a ∈ ["public"].
Proof.
  split; [reflexivity|].
  apply (labels_filtered false "public" ["public"] ex_issue
           [ex_remotelink] ex_other_issues ex_out_remote ex_logs).
  reflexivity.
Defined.

Lemma simple_fields_copied_witness :
  format_issue_assemble false "public" ["public"] ex_issue [ex_remotelink]
    ex_other_issues = Ok (ex_out_remote, ex_logs) ∧
  ∃ rf fo : gmap string jsval,
    raw_fields ex_issue = Some rf ∧ sanitized_fields ex_out_remote = Some fo ∧
    ∀ fname, fname ∈ SIMPLE_FIELDS →
      fo !! fname =
        if truthy (field (JObj rf) fname) then Some (field (JObj rf) fname)
        else None.
Proof.
  split; [reflexivity|].
  apply (simple_fields_copied false "public" ["public"] ex_issue
           [ex_remotelink] ex_other_issues ex_out_remote ex_logs).
  reflexivity.
Defined.

Lemma remotelinks_projected_witness :
  format_issue_assemble false "public" ["public"] ex_issue [ex_remotelink]
    ex_other_issues = Ok (ex_out_remote, ex_logs) ∧
  Forall (λ rl, field rl "object" ≠ JUndef ∧ field rl "object" ≠ JNull)
    [ex_remotelink] ∧
  ∃ rls', own ex_out_remote "remotelinks" = Some (JArr rls') ∧
          Forall2 remotelink_projected [ex_remotelink] rls'.
Proof.
  split; [reflexivity|].
  apply (remotelinks_projected false "public" ["public"] ex_issue
           [ex_remotelink] ex_other_issues ex_out_remote ex_logs).
  reflexivity.
Defined.

Lemma fix_versions_allowlisted_witness :
  format_issue_assemble false "public" ["public"] ex_issue [ex_remotelink]
    ex_other_issues = Ok (ex_out_remote, ex_logs) ∧
  ∃ rf fo : gmap string jsval,
    raw_fields ex_issue = Some rf ∧ sanitized_fields ex_out_remote = Some fo ∧
    (truthy (field (JObj rf) "fixVersions") = false →
     fo !! "fixVersions" = None) ∧
    (truthy (field (JObj rf) "fixVersions") = true →
     ∃ fvs ts, rf !! "fixVersions" = Some (JArr fvs) ∧
       fo !! "fixVersions" = Some (JArr ts) ∧
       Forall2 (λ fv t, ∃ tm : gmap string jsval, t = JObj tm ∧
                  ∀ k v, tm !! k = Some v →
                         k ∈ RELEASE_OBJECT_KEYS ∧ get fv k = Ok v ∧
                         truthy v = true) fvs ts).
Proof.
  split; [reflexivity|].
  apply (fix_versions_allowlisted false "public" ["public"] ex_issue
           [ex_remotelink] ex_other_issues ex_out_remote ex_logs).
  reflexivity.
Defined.

(** ** The requests behind an issue page *)

Lemma note_endpoint_spec l side o o' :
  side ≠ "length" →
  note_endpoint l side o = Ok o' →
  o' = match endpoint_key l side with
       | Some k => set_null k o
       | None => o
       end.
Proof.
  intros Hside H. unfold note_endpoint in H.
  apply bind_Ok in H as (ep & Hep & H). apply get_field in Hep as ->; [|done].
  unfold endpoint_key. destruct (truthy (field l side)); [|by injection H as <-].
  apply bind_Ok in H as (key & Hkey & H).
  apply get_field in Hkey as ->; [|done].
  destruct (field (field l side) "key"); try discriminate.
  by injection H as <-.
Qed.

Lemma linked_keys_cons il ils k :
  k ∈ linked_keys (il :: ils) ↔
  endpoint_key il "outwardIssue" = Some k ∨
  endpoint_key il "inwardIssue" = Some k ∨ k ∈ linked_keys ils.
Proof.
  change (linked_keys (il :: ils))
    with (omap (endpoint_key il) ["outwardIssue"; "inwardIssue"]
            ++ linked_keys ils).
  rewrite elem_of_app, list_elem_of_omap. split.
  - intros [(side & Hside & Hk)|?]; [|auto].
    repeat (apply elem_of_cons in Hside as [->|Hside]); auto.
    by apply elem_of_nil in Hside.
  - intros [H|[H|H]];
      [left; exists "outwardIssue"|left; exists "inwardIssue"|by right];
      (split; [|done]); rewrite !elem_of_cons; auto.
Qed.

(** What an assignment leaves under a name other than [__proto__], and
    that it only ever stores [null]. *)
Lemma note_lookup (e : option string) (o : gmap string jsval * bool)
    (k : string) :
  k ≠ "__proto__" →
  match e with Some k0 => set_null k0 o | None => o end.1 !! k =
  if decide (e = Some k) then Some JNull else o.1 !! k.
Proof.
  intros Hk. destruct o as [m b]. destruct e as [k0|]; [|by rewrite decide_False].
  unfold set_null. destruct (String.eqb_spec k0 "__proto__") as [->|Hk0].
  - rewrite decide_False by (by intros [= <-]).
    destruct b; cbn [fst snd]; [|done]. by rewrite lookup_insert_ne.
  - destruct (decide (k = k0)) as [->|Hkk]; cbn [fst].
    + by rewrite lookup_insert_eq, decide_True.
    + rewrite lookup_insert_ne by done. rewrite decide_False; [done|].
      by intros [= ->].
Qed.

Lemma note_null (e : option string) (o : gmap string jsval * bool) :
  map_Forall (λ _ v, v = JNull) o.1 →
  map_Forall (λ _ v, v = JNull)
    (match e with Some k0 => set_null k0 o | None => o end).1.
Proof.
  destruct o as [m b]. intros Ho. destruct e as [k0|]; [|done]. unfold set_null.
  destruct (String.eqb k0 "__proto__"); [destruct b|]; cbn [fst snd] in *;
    try done; by apply map_Forall_insert_2.
Qed.

(** What the pass over the links leaves under every key other than
    [__proto__]. *)
Lemma collect_links_lookup ils o o' k :
  k ≠ "__proto__" →
  collect_links ils o = Ok o' →
  o'.1 !! k = if decide (k ∈ linked_keys ils) then Some JNull else o.1 !! k.
Proof.
  intros Hk. revert o. induction ils as [|il ils IH]; intros o H; simpl in H.
  - injection H as <-. rewrite decide_False; [done|]. apply not_elem_of_nil.
  - apply bind_Ok in H as (o1 & H1 & H).
    apply bind_Ok in H as (o2 & H2 & H).
    apply note_endpoint_spec in H1 as ->; [|done].
    apply note_endpoint_spec in H2 as ->; [|done].
    rewrite (IH _ H), !note_lookup by done.
    pose proof (linked_keys_cons il ils k) as Hc.
    repeat case_decide; try done; exfalso; tauto.
Qed.

(** The pass over the links stores nothing but [null]. *)
Lemma collect_links_null ils o o' :
  map_Forall (λ _ v, v = JNull) o.1 →
  collect_links ils o = Ok o' →
  map_Forall (λ _ v, v = JNull) o'.1.
Proof.
  revert o. induction ils as [|il ils IH]; intros o Ho H; simpl in H.
  - by injection H as <-.
  - apply bind_Ok in H as (o1 & H1 & H).
    apply bind_Ok in H as (o2 & H2 & H).
    apply note_endpoint_spec in H1 as ->; [|done].
    apply note_endpoint_spec in H2 as ->; [|done].
    apply (IH _ (note_null _ _ (note_null _ _ Ho)) H).
Qed.

Lemma elem_of_keys (m : gmap string jsval) (k : string) :
  k ∈ (map_to_list m).*1 ↔ is_Some (m !! k).
Proof.
  rewrite list_elem_of_fmap. split.
  - intros ([k' v] & -> & Hin). apply elem_of_map_to_list in Hin. eauto.
  - intros [v Hv]. exists (k, v). split; [done|]. by apply elem_of_map_to_list.
Qed.

Lemma bind_Done {A B} (m : outcome A) (f : A → outcome B) (b : B) :
  m ≫= f = Done b ↔ ∃ a, m = Done a ∧ f a = Done b.
Proof.
  destruct m as [a|e]; simpl; split.
  - intros H. by exists a.
  - by intros (a' & [= <-] & H).
  - discriminate.
  - by intros (a' & [=] & _).
Qed.

Lemma lift_Done {A} (r : result A) (a : A) : lift r = Done a ↔ r = Ok a.
Proof. destruct r; simpl; split; congruence. Qed.

Lemma strings_of_Some l ss : strings_of l = Some ss → l = JStr <$> ss.
Proof.
  revert ss. induction l as [|v l IH]; intros ss H; simpl in H.
  - by injection H as <-.
  - destruct v; try discriminate.
    destruct (strings_of l) as [ss'|]; [|done]. injection H as <-.
    simpl. f_equal. by apply IH.
Qed.

Lemma skip_upper_key_re r :
  match skip_upper r with
  | String "-" (String d rest) => is_digit d && all_digits rest
  | _ => false
  end = true →
  match skip_upper r with
  | String "-" (String d _) => is_digit d
  | _ => false
  end = true.
Proof.
  destruct (skip_upper r) as [|c [|d rest]]; try done.
  destruct (Ascii.eqb_spec c "-") as [->|Hne].
  - by intros [? _]%andb_true_iff.
  - intros H. exfalso. revert H.
    destruct c as [[] [] [] [] [] [] [] []]; done.
Qed.

(** X10: every key for which the issue handlers
    go to the backend (capital letters, a hyphen and digits, and nothing
    else) is a key that [allow_issue] accepts in a link. *)
Theorem served_key_is_linkable key :
  key_path_re key = true → key_re key = true.
Proof.
  destruct key as [|c r]; [done|]. simpl.
  intros [Hc Hr]%andb_true_iff. rewrite Hc. simpl.
  by apply skip_upper_key_re.
Qed.

Section ResolverFacts.

Local Set Default Proof Using "Type".

Context (UNRESTRICTED : bool) (CONFIG_label : string)
  (be_issue_get : string → fetched).

Lemma is_public_spec other b :
  is_public UNRESTRICTED CONFIG_label other = Ok b →
  b = UNRESTRICTED || has_label CONFIG_label other.
Proof.
  unfold is_public. destruct UNRESTRICTED; [by intros [= <-]|].
  intros H. apply bind_Ok in H as (fields & Hfields & H).
  apply bind_Ok in H as (labels & Hlabels & H).
  apply get_field in Hfields as ->; [|done].
  apply get_field in Hlabels as ->; [|done].
  unfold has_label. destruct (field (field other "fields") "labels");
    try discriminate. by injection H as <-.
Qed.

Lemma lookup_linked_issue_one_spec key oi oi' :
  lookup_linked_issue_one UNRESTRICTED CONFIG_label be_issue_get key oi
    = Ok oi' →
  oi' = match stored UNRESTRICTED CONFIG_label be_issue_get key with
        | Some other => <[key := other]> oi
        | None => oi
        end.
Proof.
  unfold lookup_linked_issue_one, stored.
  destruct (be_issue_get key) as [other|nf]; [|by intros [= <-]].
  destruct (is_public UNRESTRICTED CONFIG_label other) as [[]|e];
    simpl; by intros [= <-].
Qed.

(** A request raises, or not, whatever the other requests stored. *)
Lemma lookup_linked_issue_one_Ok key oi oi' m :
  lookup_linked_issue_one UNRESTRICTED CONFIG_label be_issue_get key oi
    = Ok oi' →
  ∃ m', lookup_linked_issue_one UNRESTRICTED CONFIG_label be_issue_get key m
          = Ok m'.
Proof.
  unfold lookup_linked_issue_one.
  destruct (be_issue_get key) as [other|nf]; [|eauto].
  destruct (is_public UNRESTRICTED CONFIG_label other) as [b|e]; simpl; eauto.
Qed.

Lemma lookup_each_lookup keys oi oi' k :
  lookup_each UNRESTRICTED CONFIG_label be_issue_get keys oi = Ok oi' →
  oi' !! k =
    if decide (k ∈ keys) then
      match stored UNRESTRICTED CONFIG_label be_issue_get k with
      | Some other => Some other
      | None => oi !! k
      end
    else oi !! k.
Proof.
  revert oi. induction keys as [|key keys IH]; intros oi H; simpl in H.
  - injection H as <-. by rewrite decide_False by apply not_elem_of_nil.
  - apply bind_Ok in H as (oi1 & H1 & H).
    apply lookup_linked_issue_one_spec in H1 as ->. rewrite (IH _ H).
    destruct (decide (k = key)) as [->|Hne].
    + rewrite (decide_True (P := key ∈ key :: keys))
        by (apply elem_of_cons; by left).
      destruct (stored _ _ _ key) as [other|]; [|by case_decide].
      rewrite lookup_insert_eq. by case_decide.
    + assert (Hk : match stored UNRESTRICTED CONFIG_label be_issue_get key with
                   | Some other => <[key:=other]> oi
                   | None => oi
                   end !! k = oi !! k).
      { destruct (stored _ _ _ key); [by rewrite lookup_insert_ne|done]. }
      rewrite Hk. destruct (decide (k ∈ keys)) as [Hin|Hnin].
      * by rewrite decide_True by (apply elem_of_cons; by right).
      * rewrite decide_False; [done|]. by intros [?|?]%elem_of_cons.
Qed.

(** Every request of [keys] was answered without an exception. *)
Lemma lookup_each_answered keys oi oi' k :
  lookup_each UNRESTRICTED CONFIG_label be_issue_get keys oi = Ok oi' →
  k ∈ keys →
  ∀ other, be_issue_get k = Fetched other →
    ∃ b, is_public UNRESTRICTED CONFIG_label other = Ok b.
Proof.
  revert oi. induction keys as [|key keys IH]; intros oi H Hin; simpl in H.
  - by apply elem_of_nil in Hin.
  - apply bind_Ok in H as (oi1 & H1 & H).
    apply elem_of_cons in Hin as [->|Hin]; [|by eapply IH].
    intros other Hf. unfold lookup_linked_issue_one in H1. rewrite Hf in H1.
    destruct (is_public UNRESTRICTED CONFIG_label other); [eauto|done].
Qed.

Lemma lookup_linked_issues_inv issue oi :
  lookup_linked_issues UNRESTRICTED CONFIG_label be_issue_get issue = Ok oi →
  (truthy (field (field issue "fields") "issuelinks") = false ∧ oi = ∅) ∨
  ∃ ils o,
    field (field issue "fields") "issuelinks" = JArr ils ∧
    collect_links ils (∅, false) = Ok o ∧
    lookup_each UNRESTRICTED CONFIG_label be_issue_get (map_to_list o.1).*1 o.1
      = Ok oi.
Proof.
  intros H. unfold lookup_linked_issues in H.
  apply bind_Ok in H as (fields & Hfields & H).
  apply bind_Ok in H as (ils & Hils & H).
  apply get_field in Hfields as ->; [|done].
  apply get_field in Hils as ->; [|done].
  destruct (truthy _) eqn:Htr; cbn [negb] in H.
  - right. apply bind_Ok in H as (l & Hl%array_method_Ok & H).
    apply bind_Ok in H as (o & H0 & H). eauto.
  - left. by injection H as <-.
Qed.

(** What the first stage leaves under every key other than [__proto__]
    when the issue has links. *)
Lemma resolved_lookup ils o oi k :
  k ≠ "__proto__" →
  collect_links ils (∅, false) = Ok o →
  lookup_each UNRESTRICTED CONFIG_label be_issue_get (map_to_list o.1).*1 o.1
    = Ok oi →
  oi !! k =
    if decide (k ∈ linked_keys ils) then
      Some (default JNull (stored UNRESTRICTED CONFIG_label be_issue_get k))
    else None.
Proof.
  intros Hne H0 H. rewrite (lookup_each_lookup _ _ _ k H).
  pose proof (collect_links_lookup _ _ _ k Hne H0) as Hk0.
  cbn [fst] in Hk0. rewrite lookup_empty in Hk0.
  destruct (decide (k ∈ linked_keys ils)) as [Hin|Hnin].
  - rewrite decide_True by (apply elem_of_keys; rewrite Hk0; eauto).
    rewrite Hk0. by destruct (stored _ _ _ k).
  - rewrite decide_False; [done|]. rewrite elem_of_keys, Hk0. by intros [].
Qed.

(** What a key holds after the requests: what its request stored, or what
    it held before. *)
Lemma stored_public k other :
  stored UNRESTRICTED CONFIG_label be_issue_get k = Some other →
  be_issue_get k = Fetched other ∧
  (UNRESTRICTED = true ∨ has_label CONFIG_label other = true).
Proof.
  unfold stored. destruct (be_issue_get k) as [other'|nf]; [|done].
  destruct (is_public UNRESTRICTED CONFIG_label other') as [[]|e] eqn:Hp;
    [|done..].
  intros [= <-]. split; [done|]. apply is_public_spec in Hp.
  symmetry in Hp. apply orb_true_iff in Hp. tauto.
Qed.

(** X6: when the first stage of [format_issue]
    is over, every entry of [other_issues] is either [null] or the issue
    the backend returned for that key, and that issue carries the public
    label unless the mode is unrestricted: an issue that is not public is
    never kept. *)
Theorem resolved_issues_public issue oi :
  lookup_linked_issues UNRESTRICTED CONFIG_label be_issue_get issue = Ok oi →
  ∀ k other, oi !! k = Some other →
    other = JNull ∨
    (be_issue_get k = Fetched other ∧
     (UNRESTRICTED = true ∨ has_label CONFIG_label other = true)).
Proof.
  intros H k other Hk.
  apply lookup_linked_issues_inv in H as [[_ ->]|(ils & o & _ & H0 & H)].
  { by rewrite lookup_empty in Hk. }
  rewrite (lookup_each_lookup _ _ _ k H) in Hk.
  assert (Hnull : o.1 !! k = Some other → other = JNull).
  { apply (collect_links_null _ _ _ (map_Forall_empty _) H0). }
  case_decide; [|auto].
  destruct (stored _ _ _ k) as [other'|] eqn:Hst; [|auto].
  injection Hk as <-. right. by apply stored_public.
Qed.

(** X7: with [other_issues] as the first stage of
    [format_issue] leaves it, an end of a link of the issue is allowed
    exactly when its key is a string that starts with capital letters, a
    hyphen and a digit, the backend returned an issue for that key, and
    that issue carries the public label or the mode is unrestricted. *)
Theorem related_issue_shown issue ils oi il side :
  lookup_linked_issues UNRESTRICTED CONFIG_label be_issue_get issue = Ok oi →
  field (field issue "fields") "issuelinks" = JArr ils →
  il ∈ ils → side ∈ ["outwardIssue"; "inwardIssue"] →
  endpoint_allowed UNRESTRICTED CONFIG_label oi il side = true ↔
  ∃ k other,
    truthy (field il side) = true ∧ field (field il side) "key" = JStr k ∧
    key_re k = true ∧ be_issue_get k = Fetched other ∧ truthy other = true ∧
    (UNRESTRICTED = true ∨ has_label CONFIG_label other = true).
Proof.
  intros H Hils Hil Hside.
  apply lookup_linked_issues_inv in H as [[Hf _]|(ils' & o & Hils' & H0 & H)].
  { by rewrite Hils in Hf. }
  rewrite Hils in Hils'. injection Hils' as <-.
  unfold endpoint_allowed, endpoint_visible.
  destruct (truthy (field il side)) eqn:Htr; cbn [andb];
    [|split; [done|by intros (? & ? & ? & _)]].
  destruct (field (field il side) "key") as [| | | |k| |] eqn:Hkey;
    try (split; [done|by intros (? & ? & _ & ? & _)]).
  destruct (key_re k) eqn:Hre;
    [|rewrite andb_false_r; split; [done|];
      intros (? & ? & _ & [= <-] & ? & _); congruence].
  rewrite andb_true_r. unfold visible.
  assert (Hne : k ≠ "__proto__") by (by intros ->).
  assert (Hin : k ∈ linked_keys ils).
  { unfold linked_keys. apply list_elem_of_bind. exists il. split; [|done].
    apply list_elem_of_omap. exists side. split; [done|].
    unfold endpoint_key. by rewrite Htr, Hkey. }
  rewrite (resolved_lookup _ _ _ k Hne H0 H), decide_True by done.
  assert (Hk : k ∈ (map_to_list o.1).*1).
  { apply elem_of_keys. rewrite (collect_links_lookup _ _ _ k Hne H0).
    rewrite decide_True by done. eauto. }
  pose proof (lookup_each_answered _ _ _ k H Hk) as Hans.
  unfold stored. destruct (be_issue_get k) as [other|nf] eqn:Hget.
  - destruct (Hans other eq_refl) as [b Hb]. rewrite Hb.
    apply is_public_spec in Hb as Hb'. destruct b; cbn [from_option id].
    + rewrite <- Hb', andb_true_r. split.
      * intros Ho. exists k, other. split_and!; try done.
        symmetry in Hb'. apply orb_true_iff in Hb'. tauto.
      * intros (k' & other' & _ & [= <-] & _ & Hf & Ho & _).
        rewrite Hget in Hf. by injection Hf as ->.
    + split; [done|].
      intros (k' & other' & _ & [= <-] & _ & Hf & _ & Hp).
      rewrite Hget in Hf. injection Hf as <-.
      symmetry in Hb'. apply orb_false_iff in Hb' as [? ?].
      destruct Hp; congruence.
  - cbn [from_option id truthy andb]. split; [done|].
    intros (k' & other' & _ & [= <-] & _ & Hf & _). congruence.
Qed.

(** X8: the requests for the related issues can
    be answered in any order: if they leave [other_issues] in some state
    when answered in one order, they leave it in the same state when
    answered in any other. *)
Theorem lookup_order_irrelevant keys keys' oi oi' :
  keys ≡ₚ keys' →
  lookup_each UNRESTRICTED CONFIG_label be_issue_get keys oi = Ok oi' →
  lookup_each UNRESTRICTED CONFIG_label be_issue_get keys' oi = Ok oi'.
Proof.
  intros Hp. revert oi oi'.
  induction Hp as [|key keys keys' Hp IH|k1 k2 keys|k1 k2 k3 Hp1 IH1 Hp2 IH2];
    intros oi oi' H.
  - done.
  - simpl in *. apply bind_Ok in H as (oi1 & H1 & H).
    rewrite H1. simpl. by apply IH.
  - simpl in *. apply bind_Ok in H as (oi1 & H1 & H).
    apply bind_Ok in H as (oi2 & H2 & H).
    destruct (lookup_linked_issue_one_Ok _ _ _ oi H2) as [m1 Hm1].
    rewrite Hm1. simpl.
    destruct (lookup_linked_issue_one_Ok _ _ _ m1 H1) as [m2 Hm2].
    rewrite Hm2. simpl. rewrite <- H. f_equal.
    apply lookup_linked_issue_one_spec in H1 as ->.
    apply lookup_linked_issue_one_spec in H2 as ->.
    apply lookup_linked_issue_one_spec in Hm1 as ->.
    apply lookup_linked_issue_one_spec in Hm2 as ->.
    destruct (decide (k1 = k2)) as [->|Hne].
    + by destruct (stored _ _ _ k2).
    + destruct (stored _ _ _ k1), (stored _ _ _ k2); try done.
      by apply insert_insert_ne.
  - eauto.
Qed.

End ResolverFacts.

Section RemoteLinkFacts.

Local Set Default Proof Using "Type".

Context (ALLOWED_DOMAINS : list string) (url_parse : string → option Url).

Lemma remote_link_allowed_spec rl b :
  remote_link_allowed ALLOWED_DOMAINS url_parse rl = Done b →
  b = true ↔ leads_to url_parse ALLOWED_DOMAINS rl.
Proof.
  intros H. unfold remote_link_allowed in H.
  apply bind_Done in H as (o & Ho%lift_Done & H).
  apply bind_Done in H as (u & Hu%lift_Done & H).
  apply get_field in Ho as ->; [|done]. apply get_field in Hu as ->; [|done].
  unfold leads_to.
  destruct (field (field rl "object") "url") as [| | | |s| |]; try discriminate.
  destruct (url_parse s) as [parsed|] eqn:Hp; [|done]. injection H as <-.
  destruct (hostname parsed) as [domain|] eqn:Hd.
  - rewrite bool_decide_eq_true. split.
    + intros Hin. by exists s, parsed, domain.
    + intros (s' & parsed' & domain' & [= <-] & Hp' & Hd' & Hin). congruence.
  - split; [done|].
    intros (s' & parsed' & domain' & [= <-] & Hp' & Hd' & Hin). congruence.
Qed.

Lemma filter_links_spec links kept :
  filter_links ALLOWED_DOMAINS url_parse links = Done kept →
  kept `sublist_of` links ∧
  ∀ rl, rl ∈ kept ↔ rl ∈ links ∧ leads_to url_parse ALLOWED_DOMAINS rl.
Proof.
  revert kept. induction links as [|rl links IH]; intros kept H; simpl in H.
  - injection H as <-. split; [done|]. intros rl. rewrite elem_of_nil. tauto.
  - apply bind_Done in H as (keep & Hkeep & H).
    apply bind_Done in H as (kept' & Hkept' & [= <-]).
    destruct (IH _ Hkept') as [Hsub Hiff].
    apply remote_link_allowed_spec in Hkeep. destruct keep.
    + split; [by apply sublist_skip|]. intros rl'.
      rewrite !elem_of_cons, Hiff. split.
      * intros [->|[? ?]]; [|by auto]. split; [by left|by apply Hkeep].
      * intros [[->|?] ?]; auto.
    + split; [by apply sublist_cons|]. intros rl'.
      rewrite elem_of_cons, Hiff. split; [intros [? ?]; by auto|].
      intros [[->|?] Hl]; [|done]. by apply Hkeep in Hl.
Qed.

(** X9: the remote links the second stage
    of [format_issue] hands on are, in order, those links of the backend
    whose URL is a string that [mod_url.parse] gives a host name of
    ALLOWED_DOMAINS; a link with no host name, or to any other domain, is
    never handed on. *)
Theorem remote_links_allowed_domains
    (be_remotelink_get : jsval → option jsval) issue rls :
  get_remote_links ALLOWED_DOMAINS be_remotelink_get url_parse issue
    = Done rls →
  ∃ links,
    be_remotelink_get (field issue "id") = Some (JArr links) ∧
    rls `sublist_of` links ∧
    ∀ rl, rl ∈ rls ↔ rl ∈ links ∧ leads_to url_parse ALLOWED_DOMAINS rl.
Proof.
  intros H. unfold get_remote_links in H.
  apply bind_Done in H as (id & Hid%lift_Done & H).
  apply get_field in Hid as ->; [|done].
  destruct (be_remotelink_get (field issue "id")) as [[| | | | |links|]|];
    try discriminate.
  exists links. split; [done|]. by apply filter_links_spec.
Qed.

End RemoteLinkFacts.

Section HandlerFacts.

Local Set Default Proof Using "Type".

Context (UNRESTRICTED : bool) (CONFIG_label CONFIG_http_proto : string)
  (be_issue_get : string → fetched) (JSON_stringify : jsval → string).

(** X11: [handle_issue_json] delivers a document
    only for a key made of capital letters, a hyphen and digits, for which
    the backend returned an issue whose labels are strings and, unless the
    mode is unrestricted, hold the public label; the document is then what
    [format_issue_json] makes of that issue. *)
Theorem issue_json_only_public key ct body :
  handle_issue_json UNRESTRICTED CONFIG_label CONFIG_http_proto be_issue_get
    JSON_stringify key = Ok (Deliver ct body) →
  key_path_re key = true ∧
  ∃ issue labels,
    be_issue_get key = Fetched issue ∧
    field (field issue "fields") "labels" = JArr (JStr <$> labels) ∧
    (UNRESTRICTED = true ∨ CONFIG_label ∈ labels) ∧
    format_issue_json CONFIG_http_proto JSON_stringify issue = Ok body.
Proof.
  unfold handle_issue_json. destruct (key_path_re key); [|done].
  cbn [negb]. intros H. split; [done|].
  destruct (be_issue_get key) as [issue|nf]; [|done].
  apply bind_Ok in H as (fields & Hfields & H).
  apply bind_Ok in H as (labels & Hlabels & H).
  apply bind_Ok in H as (ls & Hls & H).
  apply get_field in Hfields as ->; [|done].
  apply get_field in Hlabels as ->; [|done].
  exists issue, ls. split; [done|]. unfold assert_array_of_string in Hls.
  destruct (field (field issue "fields") "labels") as [| | | | |l|];
    try discriminate.
  destruct (strings_of l) as [ss|] eqn:Hss; [|done]. injection Hls as ->.
  apply strings_of_Some in Hss as ->. split; [done|].
  destruct UNRESTRICTED; cbn [negb andb] in H.
  - apply bind_Ok in H as (out & Hout & [= _ <-]). auto.
  - destruct (bool_decide (CONFIG_label ∈ ls)) eqn:Hin; cbn [negb] in H; [|done].
    apply bind_Ok in H as (out & Hout & [= _ <-]).
    apply bool_decide_eq_true in Hin. auto.
Qed.

End HandlerFacts.

Lemma resolved_issues_public_witness :
  lookup_linked_issues false "public" ex_be_issue_get ex_issue_proto
    = Ok ex_resolved_proto ∧
  ex_resolved_proto !! "__proto__" = Some JNull ∧
  ∀ k other, ex_resolved_proto !! k = Some other →
    other = JNull ∨
    (ex_be_issue_get k = Fetched other ∧
     (false = true ∨ has_label "public" other = true)).
Proof.
  split; [reflexivity|]. split; [reflexivity|].
  apply (resolved_issues_public false "public" ex_be_issue_get ex_issue_proto
           ex_resolved_proto).
  reflexivity.
Defined.

Lemma related_issue_shown_witness :
  lookup_linked_issues false "public" ex_be_issue_get ex_issue
    = Ok ex_resolved ∧
  field (field ex_issue "fields") "issuelinks"
    = JArr [ex_link "outwardIssue" "OS-2"; ex_link "inwardIssue" "OS-3"] ∧
  (endpoint_allowed false "public" ex_resolved
     (ex_link "outwardIssue" "OS-2") "outwardIssue" = true ↔
   ∃ k other,
     truthy (field (ex_link "outwardIssue" "OS-2") "outwardIssue") = true ∧
     field (field (ex_link "outwardIssue" "OS-2") "outwardIssue") "key"
       = JStr k ∧
     key_re k = true ∧ ex_be_issue_get k = Fetched other ∧
     truthy other = true ∧
     (false = true ∨ has_label "public" other = true)).
Proof.
  split; [reflexivity|]. split; [reflexivity|].
  apply (related_issue_shown false "public" ex_be_issue_get ex_issue
           [ex_link "outwardIssue" "OS-2"; ex_link "inwardIssue" "OS-3"]
           ex_resolved (ex_link "outwardIssue" "OS-2") "outwardIssue").
  - reflexivity.
  - reflexivity.
  - by vm_compute; left.
  - by vm_compute; left.
Defined.

Lemma lookup_order_irrelevant_witness :
  lookup_each false "public" ex_be_issue_get ["OS-2"; "OS-3"]
    (list_to_map [("OS-2", JNull); ("OS-3", JNull)]) = Ok ex_resolved ∧
  lookup_each false "public" ex_be_issue_get ["OS-3"; "OS-2"]
    (list_to_map [("OS-2", JNull); ("OS-3", JNull)]) = Ok ex_resolved.
Proof.
  split; [reflexivity|].
  apply (lookup_order_irrelevant false "public" ex_be_issue_get
           ["OS-2"; "OS-3"] ["OS-3"; "OS-2"]).
  - apply perm_swap.
  - reflexivity.
Defined.

Lemma remote_links_allowed_domains_witness :
  get_remote_links ["example.com"] ex_be_remotelink_get ex_url_parse ex_issue
    = Done [ex_remotelink_to "https://example.com/r/1"] ∧
  ∃ links,
    ex_be_remotelink_get (field ex_issue "id") = Some (JArr links) ∧
    [ex_remotelink_to "https://example.com/r/1"] `sublist_of` links ∧
    ∀ rl, rl ∈ [ex_remotelink_to "https://example.com/r/1"] ↔
          rl ∈ links ∧ leads_to ex_url_parse ["example.com"] rl.
Proof.
  split; [reflexivity|].
  apply (remote_links_allowed_domains ["example.com"] ex_url_parse
           ex_be_remotelink_get ex_issue).
  reflexivity.
Defined.

Lemma served_key_is_linkable_witness :
  key_path_re "OS-1" = true ∧ key_re "OS-1" = true.
Proof.
  split; [reflexivity|]. apply (served_key_is_linkable "OS-1"). reflexivity.
Defined.

Lemma issue_json_only_public_witness :
  handle_issue_json false "public" "https" ex_be_issue_full ex_stringify "OS-1"
    = Ok (Deliver "application/json" "https://smartos.org/bugview/OS-1") ∧
  key_path_re "OS-1" = true ∧
  ∃ issue labels,
    ex_be_issue_full "OS-1" = Fetched issue ∧
    field (field issue "fields") "labels" = JArr (JStr <$> labels) ∧
    (false = true ∨ "public" ∈ labels) ∧
    format_issue_json "https" ex_stringify issue
      = Ok "https://smartos.org/bugview/OS-1".
Proof.
  split; [reflexivity|].
  apply (issue_json_only_public false "public" "https" ex_be_issue_full
           ex_stringify "OS-1" "application/json").
  reflexivity.
Defined.

(** ** Further properties of the converter *)

Section MarkupMore.

(** While the cases of an iteration are split, [simpl] is to leave the
    tests on characters and the parts of an iteration folded. *)
Local Arguments Ascii.eqb : simpl never.
Local Arguments String.get : simpl never.
Local Arguments String.append : simpl never.
Local Arguments String.length : simpl never.
Local Arguments prefmtok : simpl never.
Local Arguments is_heading_level : simpl never.
Local Arguments is_char : simpl never.
Local Arguments Nat.eqb : simpl never.
Local Arguments Nat.leb : simpl never.
Local Arguments bool_decide : simpl never.
Local Arguments repeat_char : simpl never.
Local Arguments removelast : simpl never.
Local Arguments prev_char : simpl never.
Local Arguments fmt_plain : simpl never.
Local Arguments fmt_italic : simpl never.
Local Arguments fmt_bold : simpl never.
Local Arguments text_case : simpl never.
Local Arguments list_item : simpl never.
Local Arguments close_list : simpl never.
Local Arguments push_link : simpl never.


(** Evaluates the updates of the locals, innermost first. *)
Ltac eval_locals :=
  cbv [advance set_state add_log push_out set_out set_i collect set_link_url
       set_link_title set_text set_leading_spaces set_formats set_ps
       set_ps_list set_ps_heading push_fmt pop_fmt after_brackets commit_text
       v_i v_text v_formats v_out v_state v_link_title v_link_url
       v_leading_spaces v_ps v_log ps_list ps_heading init measure] in *.

Section StringFacts.

Local Set Default Proof Using "Type".
Lemma length_cons (c : ascii) (s : string) :
  String.length (String c s) = S (String.length s).
Proof. reflexivity. Qed.

Lemma get_cons_0 (c : ascii) (s : string) : String.get 0 (String c s) = Some c.
Proof. reflexivity. Qed.

Lemma get_cons_S (i : nat) (c : ascii) (s : string) :
  String.get (S i) (String c s) = String.get i s.
Proof. reflexivity. Qed.

Lemma length_append (a b : string) :
  String.length (a +:+ b) = String.length a + String.length b.
Proof.
  induction a as [|x a IH]; [done|].
  by rewrite append_cons, !length_cons, IH.
Qed.

(** The character at the end of [pre] in [pre +:+ x]. *)
Lemma get_append (pre x : string) (i : nat) :
  String.get (String.length pre + i) (pre +:+ x) = String.get i x.
Proof.
  induction pre as [|c pre IH]; [done|].
  by rewrite append_cons, length_cons, Nat.add_succ_l, get_cons_S.
Qed.

Lemma get_append_0 (pre x : string) :
  String.get (String.length pre) (pre +:+ x) = String.get 0 x.
Proof. by rewrite <- (Nat.add_0_r (String.length pre)), get_append. Qed.

Lemma append_snoc (pre : string) (c : ascii) (x : string) :
  pre +:+ String c x = (pre +:+ String c "") +:+ x.
Proof. by rewrite append_assoc. Qed.

Lemma length_snoc (pre : string) (c : ascii) :
  String.length (pre +:+ String c "") = String.length pre + 1.
Proof. by rewrite length_append. Qed.

Lemma length_repeat_char (c : ascii) (n : nat) :
  String.length (repeat_char c n) = n.
Proof.
  induction n as [|n IH]; [done|].
  change (repeat_char c (S n)) with (String c (repeat_char c n)).
  by rewrite length_cons, IH.
Qed.

Lemma repeat_char_snoc (c : ascii) (n : nat) :
  repeat_char c (S n) = repeat_char c n +:+ String c "".
Proof.
  induction n as [|n IH]; [done|].
  change (repeat_char c (S (S n))) with (String c (repeat_char c (S n))).
  rewrite IH at 1. by rewrite <- append_cons.
Qed.

Lemma is_char_get (c : ascii) (x : string) :
  is_char c (String.get 0 x) = String.prefix (String c "") x.
Proof.
  destruct x as [|d x]; [done|]. rewrite get_cons_0. unfold is_char.
  simpl. destruct (ascii_dec c d) as [->|Hne].
  - rewrite Ascii.eqb_refl. by destruct x.
  - apply not_eq_sym, Ascii.eqb_neq in Hne. by rewrite Hne.
Qed.

Lemma prefix_char_append (x : ascii) (t : string) (y : ascii) (post : string) :
  String.prefix (String x "") (t +:+ String y post) =
  match t with
  | EmptyString => Ascii.eqb x y
  | String _ _ => String.prefix (String x "") t
  end.
Proof.
  destruct t as [|c t]; simpl.
  - change ("" +:+ String y post) with (String y post). simpl.
    destruct (ascii_dec x y) as [->|Hne].
    + rewrite Ascii.eqb_refl. by destruct post.
    + by apply Ascii.eqb_neq in Hne as ->.
  - destruct (ascii_dec x c); [|done]. by destruct t.
Qed.

Lemma get_split (desc : string) (i : nat) (c : ascii) :
  String.get i desc = Some c →
  ∃ pre post, desc = pre +:+ String c post ∧ String.length pre = i.
Proof.
  revert i. induction desc as [|d desc IH]; intros i H; [by destruct i|].
  destruct i as [|i].
  - rewrite get_cons_0 in H. injection H as ->. by exists "", desc.
  - rewrite get_cons_S in H. destruct (IH _ H) as (pre & post & -> & <-).
    exists (String d pre), post. by rewrite append_cons, length_cons.
Qed.

Lemma all_chars_snoc (p : ascii → bool) (t : string) (c : ascii) :
  all_chars p (t +:+ String c "") = all_chars p t && p c.
Proof.
  induction t as [|d t IH].
  - change ("" +:+ String c "") with (String c ""). cbn [all_chars].
    by rewrite andb_true_r.
  - rewrite append_cons. cbn [all_chars]. by rewrite IH, andb_assoc.
Qed.

End StringFacts.

(** Splits the length of a text into the lengths of its parts. *)
Ltac lengths :=
  rewrite ?length_append, ?length_cons, ?length_repeat_char;
  change (String.length "") with 0.

Section MarkupErrors.

Local Set Default Proof Using "Type".

Context (ent_encode : string → string) (url_parse : string → option Url)
  (url_format : Url → string).

Lemma fix_url_Throw_cause input e :
  fix_url ent_encode url_parse url_format input = Throw e →
  e = TypeError ∧
  ∃ url, url_parse (trim input) = Some url ∧
         SUBS (hostname url) = SubsInheritedFunction.
Proof.
  unfold fix_url. destruct (url_parse (trim input)) as [url|] eqn:Hp; [|done].
  destruct (SUBS (hostname url)) eqn:Hs; try done.
  intros [= <-]. eauto.
Qed.

Lemma push_link_Throw_cause link text s e :
  push_link ent_encode url_parse url_format link text s = Throw e →
  e = TypeError ∧
  ∃ url, url_parse (trim link) = Some url ∧
         SUBS (hostname url) = SubsInheritedFunction.
Proof.
  unfold push_link, format_remote_link.
  destruct (fix_url ent_encode url_parse url_format link) as [[u l]|e'] eqn:Hf;
    [done|].
  intros [= <-]. by eapply fix_url_Throw_cause.
Qed.

Lemma link_char c :
  Ascii.eqb c "010" = false → Ascii.eqb c "013" = false →
  Ascii.eqb c "]" = false → is_link_char c = true.
Proof.
  intros H1 H2 H3. unfold is_link_char. cbn [existsb]. by rewrite H1, H2, H3.
Qed.

Lemma collected_start o desc i :
  String.get i desc = Some o → collected o desc "" (i + 1).
Proof.
  intros (pre & post & -> & <-)%get_split. split; [done|].
  exists pre, post. split; [done|]. change (String.length "") with 0. lia.
Qed.

Lemma collected_next o desc link i :
  collected o desc link i →
  ∃ pre post, desc = pre +:+ String o (link +:+ post) ∧
              i = String.length pre + S (String.length link) ∧
              String.get i desc = String.get 0 post.
Proof.
  intros (_ & pre & post & -> & ->). exists pre, post. split_and!; [done..|].
  by rewrite get_append, get_cons_S, get_append_0.
Qed.

Lemma collected_snoc o desc link i c :
  collected o desc link i → String.get i desc = Some c →
  is_link_char c = true →
  collected o desc (link +:+ String c "") (i + 1).
Proof.
  intros Hcol Hc Hl.
  destruct (collected_next _ _ _ _ Hcol) as (pre & post & Hd & -> & Hg).
  rewrite Hg in Hc. destruct post as [|d post]; [done|].
  rewrite get_cons_0 in Hc. injection Hc as ->. split.
  - destruct Hcol as [Hall _]. by rewrite all_chars_snoc, Hall, Hl.
  - exists pre, post. split; [by rewrite <- append_snoc|].
    rewrite length_snoc. lia.
Qed.

Lemma collected_close o desc link i :
  o = "["%char ∨ o = "|"%char →
  collected o desc link i → String.get i desc = Some "]"%char →
  link_of_line desc link.
Proof.
  intros Ho Hcol Hc.
  destruct (collected_next _ _ _ _ Hcol) as (pre & post & Hd & _ & Hg).
  rewrite Hg in Hc. destruct post as [|d post]; [done|].
  rewrite get_cons_0 in Hc. injection Hc as ->.
  split; [apply Hcol|]. by exists pre, o, post.
Qed.

Lemma text_case_collecting desc c cc ccc pc s s' :
  v_state s = TEXT → String.get (v_i s) desc = Some c →
  text_case ent_encode c cc ccc pc s = Ok s' → collecting desc s'.
Proof.
  intros Hst Hc H. unfold text_case in H.
  destruct (_ && is_heading_level cc).
  { injection H as <-. destruct s as [i [|? tx] fm out st lt lu lsp ps lg];
      simpl in Hst; subst st; exact I. }
  destruct (Ascii.eqb_spec c "[") as [->|_].
  - destruct (is_char "~" cc).
    { injection H as <-. by destruct s as [i [|? tx] fm out st lt lu lsp ps lg]. }
    destruct (is_char "^" cc).
    { injection H as <-. by destruct s as [i [|? tx] fm out st lt lu lsp ps lg]. }
    injection H as <-. apply collected_start in Hc.
    destruct s as [i [|? tx] fm out st lt lu lsp ps lg]; by split.
  - injection H as <-.
    destruct (fmt_bold_frame ent_encode c cc pc s) as [(_ & Hs & _) _].
    unfold collecting. by rewrite Hs, Hst.
Qed.

(** An iteration keeps what was collected of a link in step with the
    line. *)
Lemma step_collecting desc s s' :
  collecting desc s →
  step ent_encode url_parse url_format desc s = Ok s' → collecting desc s'.
Proof.
  intros Hcol H. unfold step in H.
  destruct (String.get (v_i s) desc) as [c|] eqn:Hc; [|by injection H as <-].
  destruct (Ascii.eqb c "010") eqn:Hlf; [done|].
  destruct (Ascii.eqb c "013") eqn:Hcr; [done|].
  unfold collecting in Hcol. destruct (v_state s) eqn:Hst.
  - assert (Hs : v_state s' = LEADING_SPACES ∨ v_state s' = TEXT).
    { repeat case_match; simplify_eq.
      + left. by destruct s.
      + left. destruct (list_item_frame ent_encode UL s) as (_ & -> & _). done.
      + left. destruct (list_item_frame ent_encode OL s) as (_ & -> & _). done.
      + right. by destruct s. }
    unfold collecting. by destruct Hs as [-> | ->].
  - destruct (ps_list (v_ps s)) as [k|]; [|by eapply text_case_collecting].
    destruct (_ && _); [|by eapply text_case_collecting].
    injection H as <-.
    destruct (fmt_bold_frame ent_encode c (String.get (v_i s + 1) desc)
                (prev_char desc (v_i s)) (close_list ent_encode k s))
      as [(_ & Hs & _) _].
    destruct (close_list_frame ent_encode k s) as (_ & Hs' & _).
    unfold collecting. by rewrite Hs, Hs', Hst.
  - destruct Hcol as [Hu Hcol].
    destruct (Ascii.eqb_spec c "|") as [->|_].
    { injection H as <-. apply collected_start in Hc.
      destruct s as [i tx fm out st lt lu lsp ps lg]. simpl in *. by subst lu. }
    destruct (Ascii.eqb c "]") eqn:Hbr.
    { apply bind_Ok in H as (s1 & (a & l & ->)%push_link_frame & [= <-]).
      by destruct s. }
    injection H as <-.
    pose proof (collected_snoc _ _ _ _ c Hcol Hc (link_char c Hlf Hcr Hbr)).
    destruct s as [i tx fm out st lt lu lsp ps lg]. simpl in *. subst st.
    by split.
  - repeat case_match; simplify_eq; by destruct s as [? ? ? ? [] ? ? ? ? ?].
  - repeat case_match; simplify_eq; by destruct s as [? ? ? ? [] ? ? ? ? ?].
  - destruct (Ascii.eqb c "]") eqn:Hbr.
    { apply bind_Ok in H as (s1 & (a & l & ->)%push_link_frame & [= <-]).
      by destruct s. }
    injection H as <-.
    pose proof (collected_snoc _ _ _ _ c Hcol Hc (link_char c Hlf Hcr Hbr)).
    destruct s as [i tx fm out st lt lu lsp ps lg]. simpl in *. by subst st.
Qed.

Lemma step_Throw_cause desc s e :
  collecting desc s →
  step ent_encode url_parse url_format desc s = Throw e →
  raise_cause url_parse desc e.
Proof.
  unfold step. intros Hcol H.
  destruct (String.get (v_i s) desc) as [c|] eqn:Hc; [|done].
  destruct (Ascii.eqb_spec c "010") as [->|_].
  { injection H as <-. econstructor 1; [exact Hc|by left]. }
  destruct (Ascii.eqb_spec c "013") as [->|_].
  { injection H as <-. econstructor 1; [exact Hc|by right]. }
  unfold collecting in Hcol. destruct (v_state s) eqn:Hst.
  - repeat case_match; simplify_eq.
  - unfold text_case in H. repeat case_match; simplify_eq.
  - destruct Hcol as [_ Hcol].
    destruct (Ascii.eqb c "|"); [done|].
    destruct (Ascii.eqb_spec c "]") as [->|_]; [|done].
    destruct (push_link _ _ _ _ _ _) eqn:Hp in H; [done|].
    injection H as <-.
    apply push_link_Throw_cause in Hp as (-> & url & ? & ?).
    econstructor 2; [|done..]. eapply collected_close; [|done..]. by left.
  - repeat case_match; simplify_eq.
  - repeat case_match; simplify_eq.
  - destruct (Ascii.eqb_spec c "]") as [->|_]; [|done].
    destruct (push_link _ _ _ _ _ _) eqn:Hp in H; [done|].
    injection H as <-.
    apply push_link_Throw_cause in Hp as (-> & url & ? & ?).
    econstructor 2; [|done..]. eapply collected_close; [|done..]. by right.
Qed.

Lemma loop_Throw_cause f desc s e :
  collecting desc s → measure desc s ≤ f →
  loop ent_encode url_parse url_format f desc s = Throw e →
  raise_cause url_parse desc e.
Proof.
  revert s. induction f as [|f IH]; intros s Hcol Hf; rewrite loop_unfold.
  - destruct (Nat.leb_spec (String.length desc) (v_i s)); [done|].
    unfold measure in Hf. lia.
  - destruct (Nat.leb_spec (String.length desc) (v_i s)); [done|].
    destruct (step ent_encode url_parse url_format desc s) as [s'|e'] eqn:Hs.
    + destruct (step_measure _ _ _ _ _ _ Hs) as [Hm _]; [done|].
      simpl. apply IH; [by eapply step_collecting|lia].
    + simpl. intros [= <-]. by eapply step_Throw_cause.
Qed.

Lemma parse_Throw_cause desc ps e :
  parse_jira_markup ent_encode url_parse url_format desc ps = Throw e →
  raise_cause url_parse desc e.
Proof.
  unfold parse_jira_markup, run_from.
  destruct (loop _ _ _ _ _ _) as [s|e'] eqn:Hl; [done|].
  simpl. intros [= <-]. eapply loop_Throw_cause; [| |exact Hl].
  - exact I.
  - unfold measure. simpl. lia.
Qed.

End MarkupErrors.

Section MarkupPieces.

Local Set Default Proof Using "Type".

Context (ent_encode : string → string) (url_parse : string → option Url)
  (url_format : Url → string).



Lemma tag_piece x : x ∈ MARKUP_TAGS → piece ent_encode url_parse x.
Proof. by left. Qed.

Ltac tag :=
  solve [ apply tag_piece; unfold MARKUP_TAGS;
          repeat first [apply list_elem_of_here | apply list_elem_of_further] ].

Lemma enc_piece t : piece ent_encode url_parse (ent_encode t).
Proof. right; left; eauto. Qed.

Lemma push_out_ok x s : piece ent_encode url_parse x → pieces_ok ent_encode url_parse s → pieces_ok ent_encode url_parse (push_out x s).
Proof.
  intros Hx [Ho Hh]. destruct s. split; [|done]. simpl in *.
  apply Forall_app; split; [done|]. by constructor.
Qed.

Lemma commit_text_ok s : pieces_ok ent_encode url_parse s → pieces_ok ent_encode url_parse (commit_text ent_encode s).
Proof.
  intros H. unfold commit_text. destruct (v_text s) eqn:Ht; [done|].
  assert (pieces_ok ent_encode url_parse (push_out (ent_encode (String a s0)) s)) as [? ?]
    by (apply push_out_ok; [apply enc_piece|done]).
  destruct s; split; done.
Qed.

Ltac frame_ok :=
  match goal with
  | H : pieces_ok ent_encode url_parse ?s |- pieces_ok ent_encode url_parse _ => destruct H as [? ?]; destruct s; split; done
  end.

Lemma advance_ok n s : pieces_ok ent_encode url_parse s → pieces_ok ent_encode url_parse (advance n s).
Proof. intros. frame_ok. Qed.
Lemma set_text_ok t s : pieces_ok ent_encode url_parse s → pieces_ok ent_encode url_parse (set_text t s).
Proof. intros. frame_ok. Qed.
Lemma push_fmt_ok f s : pieces_ok ent_encode url_parse s → pieces_ok ent_encode url_parse (push_fmt f s).
Proof. intros. frame_ok. Qed.
Lemma pop_fmt_ok s : pieces_ok ent_encode url_parse s → pieces_ok ent_encode url_parse (pop_fmt s).
Proof. intros. frame_ok. Qed.
Lemma set_state_ok st s : pieces_ok ent_encode url_parse s → pieces_ok ent_encode url_parse (set_state st s).
Proof. intros. frame_ok. Qed.
Lemma set_link_title_ok t s : pieces_ok ent_encode url_parse s → pieces_ok ent_encode url_parse (set_link_title t s).
Proof. intros. frame_ok. Qed.
Lemma set_link_url_ok t s : pieces_ok ent_encode url_parse s → pieces_ok ent_encode url_parse (set_link_url t s).
Proof. intros. frame_ok. Qed.
Lemma set_leading_spaces_ok n s : pieces_ok ent_encode url_parse s → pieces_ok ent_encode url_parse (set_leading_spaces n s).
Proof. intros. frame_ok. Qed.
Lemma add_log_ok l s : pieces_ok ent_encode url_parse s → pieces_ok ent_encode url_parse (add_log l s).
Proof. intros. frame_ok. Qed.
Lemma set_ps_list_ok k s : pieces_ok ent_encode url_parse s → pieces_ok ent_encode url_parse (set_ps_list k s).
Proof. intros. frame_ok. Qed.

Ltac ok :=
  repeat first
    [ assumption
    | lazymatch goal with
      | |- pieces_ok _ _ (advance _ _) => apply advance_ok
      | |- pieces_ok _ _ (set_text _ _) => apply set_text_ok
      | |- pieces_ok _ _ (push_fmt _ _) => apply push_fmt_ok
      | |- pieces_ok _ _ (pop_fmt _) => apply pop_fmt_ok
      | |- pieces_ok _ _ (set_state _ _) => apply set_state_ok
      | |- pieces_ok _ _ (set_link_title _ _) => apply set_link_title_ok
      | |- pieces_ok _ _ (set_link_url _ _) => apply set_link_url_ok
      | |- pieces_ok _ _ (set_leading_spaces _ _) => apply set_leading_spaces_ok
      | |- pieces_ok _ _ (add_log _ _) => apply add_log_ok
      | |- pieces_ok _ _ (set_ps_list _ _) => apply set_ps_list_ok
      | |- pieces_ok _ _ (commit_text _ _) => apply commit_text_ok
      | |- pieces_ok _ _ (push_out _ _) =>
          apply push_out_ok; [try first [apply enc_piece | tag]|]
      end ].

Lemma fmt_plain_ok c cc s : pieces_ok ent_encode url_parse s → pieces_ok ent_encode url_parse (fmt_plain ent_encode c cc s).
Proof. intros H. unfold fmt_plain. repeat case_match; ok. Qed.

Lemma fmt_italic_ok c cc pc s : pieces_ok ent_encode url_parse s → pieces_ok ent_encode url_parse (fmt_italic ent_encode c cc pc s).
Proof.
  intros H. unfold fmt_italic. repeat case_match; try by apply fmt_plain_ok; ok.
  all: ok.
Qed.

Lemma fmt_bold_ok c cc pc s : pieces_ok ent_encode url_parse s → pieces_ok ent_encode url_parse (fmt_bold ent_encode c cc pc s).
Proof.
  intros H. unfold fmt_bold. repeat case_match; try by apply fmt_italic_ok; ok.
  all: ok.
Qed.

Lemma list_item_ok k s : pieces_ok ent_encode url_parse s → pieces_ok ent_encode url_parse (list_item ent_encode k s).
Proof.
  intros H. unfold list_item. ok.
  destruct (ps_list (v_ps s)), k; tag.
Qed.

Lemma close_list_ok k s : pieces_ok ent_encode url_parse s → pieces_ok ent_encode url_parse (close_list ent_encode k s).
Proof.
  intros H. unfold close_list. ok.
  destruct k; tag.
Qed.


Lemma fix_url_href input u logs :
  fix_url ent_encode url_parse url_format input = Ok (u, logs) →
  href_escaped ent_encode url_parse u.
Proof.
  unfold fix_url, href_escaped.
  destruct (url_parse (trim input)) as [url|] eqn:Hp; [|intros [= <- _]; by right].
  destruct (SUBS (hostname url)) as [subs| |]; [|intros [= <- _]; eauto|done].
  intros [= <- _]. left. clear Hp.
  induction subs as [|sb subs IH]; simpl; [eauto|].
  destruct (re_test _ _); eauto.
Qed.

Lemma push_link_ok link t s s' :
  push_link ent_encode url_parse url_format link (ent_encode t) s = Ok s' →
  pieces_ok ent_encode url_parse s → pieces_ok ent_encode url_parse s'.
Proof.
  unfold push_link, format_remote_link. intros H Hs.
  apply bind_Ok in H as ([a logs] & Ha & [= <-]).
  apply bind_Ok in Ha as ([u l] & Hu & [= <- <-]).
  apply add_log_ok, push_out_ok; [|done].
  right; right. exists u, t. split; [done|]. by eapply fix_url_href.
Qed.

Lemma heading_tags cc :
  is_heading_level cc = true →
  "<" +:+ ("h" +:+ append_char "" cc) +:+ ">" ∈ MARKUP_TAGS ∧
  "</" +:+ ("h" +:+ append_char "" cc) +:+ ">" ∈ MARKUP_TAGS.
Proof.
  destruct cc as [d|]; [|done]. unfold is_heading_level.
  intros [H1 H2]%andb_true_iff.
  apply Nat.leb_le in H1, H2.
  assert (Hd : d = ascii_of_nat (nat_of_ascii d)) by (by rewrite ascii_nat_embedding).
  rewrite Hd. generalize dependent (nat_of_ascii d). intros n H1 H2 _.
  do 49 (destruct n as [|n]; [lia|]).
  do 6 (destruct n as [|n];
    [split; unfold MARKUP_TAGS;
       repeat first [apply list_elem_of_here | apply list_elem_of_further]|]).
  lia.
Qed.

Lemma text_case_ok c cc ccc pc s s' :
  text_case ent_encode c cc ccc pc s = Ok s' → pieces_ok ent_encode url_parse s → pieces_ok ent_encode url_parse s'.
Proof.
  unfold text_case. intros H Hs.
  destruct (_ && is_heading_level cc) eqn:Hh.
  - apply andb_true_iff in Hh as [_ Hh]. apply heading_tags in Hh as [Ho Hc].
    injection H as <-. apply advance_ok, push_out_ok; [by left|].
    apply commit_text_ok. destruct Hs as [? _]. destruct s. split; done.
  - repeat case_match; simplify_eq; ok. by apply fmt_bold_ok.
Qed.

Lemma step_ok desc s s' :
  step ent_encode url_parse url_format desc s = Ok s' → pieces_ok ent_encode url_parse s → pieces_ok ent_encode url_parse s'.
Proof.
  unfold step. intros H Hs.
  destruct (String.get (v_i s) desc) as [c|]; [|by simplify_eq].
  destruct (Ascii.eqb c "010"); [done|]. destruct (Ascii.eqb c "013"); [done|].
  destruct (v_state s).
  - repeat case_match; simplify_eq; ok; by apply list_item_ok.
  - repeat case_match; simplify_eq;
      first [ by eapply text_case_ok | by apply fmt_bold_ok, close_list_ok ].
  - repeat case_match; simplify_eq; ok.
    apply bind_Ok in H as (s1 & Hpush & [= <-]). ok. by eapply push_link_ok.
  - repeat case_match; simplify_eq; ok.
  - repeat case_match; simplify_eq; ok.
  - repeat case_match; simplify_eq; ok.
    apply bind_Ok in H as (s1 & Hpush & [= <-]). ok. by eapply push_link_ok.
Qed.

Lemma loop_ok f desc s s' :
  loop ent_encode url_parse url_format f desc s = Ok s' → pieces_ok ent_encode url_parse s → pieces_ok ent_encode url_parse s'.
Proof.
  revert s. induction f as [|f IH]; intros s; rewrite loop_unfold.
  - destruct (String.length desc <=? v_i s); [by intros [= <-]|done].
  - destruct (String.length desc <=? v_i s); [by intros [= <-]|].
    intros (s1 & H1 & H)%bind_Ok Hs. apply (IH s1); [done|]. by eapply step_ok.
Qed.

Lemma run_from_pieces desc s html ps' logs :
  pieces_ok ent_encode url_parse s →
  run_from ent_encode url_parse url_format desc s = Ok (html, ps', logs) →
  ∃ pieces, html = join pieces ∧ Forall (piece ent_encode url_parse) pieces.
Proof.
  unfold run_from. intros Hs (s' & Hl & [= <- <- <-])%bind_Ok.
  apply loop_ok in Hl; [|done].
  apply commit_text_ok in Hl as [Ho Hh]. unfold finish.
  eexists. split; [reflexivity|]. apply Forall_app. split; [done|].
  destruct (ps_heading (v_ps (commit_text ent_encode s'))); [|done].
  constructor; [by left|done].
Qed.

Lemma init_pieces_ok ps : pieces_ok ent_encode url_parse (init ps).
Proof. by split; [constructor|]. Qed.

(** X13: the HTML returned for a line is the
    concatenation of pieces, each of which is a tag of the converter, an
    entity-encoded text, or an anchor whose text is entity-encoded and
    whose [href] is entity-encoded unless [mod_url.parse] raised on the
    address.  No character of the line reaches the output unencoded
    otherwise. *)
Theorem output_is_escaped desc ps html ps' logs :
  parse_jira_markup ent_encode url_parse url_format desc ps
    = Ok (html, ps', logs) →
  ∃ pieces, html = join pieces ∧ Forall (piece ent_encode url_parse) pieces.
Proof.
  unfold parse_jira_markup. intros Hrun.
  eapply run_from_pieces; [|exact Hrun]. apply init_pieces_ok.
Qed.

End MarkupPieces.

Section MarkupRuns.

Local Set Default Proof Using "Type".

Context (ent_encode : string → string) (url_parse : string → option Url)
  (url_format : Url → string).

(** One iteration of the loop, the same fuel being enough for the rest. *)
Lemma loop_step f desc s s' :
  v_i s < String.length desc → measure desc s ≤ f →
  step ent_encode url_parse url_format desc s = Ok s' →
  loop ent_encode url_parse url_format f desc s =
  loop ent_encode url_parse url_format f desc s'.
Proof.
  intros Hlt Hf Hs. destruct (step_measure _ _ _ _ _ _ Hs Hlt) as [Hm _].
  rewrite (loop_unfold _ _ _ f desc s).
  destruct (Nat.leb_spec (String.length desc) (v_i s)); [lia|].
  destruct f as [|f]; [unfold measure in Hf; lia|].
  rewrite Hs. cbn [mbind result_bind]. apply loop_fuel; lia.
Qed.

Lemma loop_done f desc s :
  String.length desc ≤ v_i s →
  loop ent_encode url_parse url_format f desc s = Ok s.
Proof.
  intros H. rewrite loop_unfold.
  by destruct (Nat.leb_spec (String.length desc) (v_i s)); [|lia].
Qed.

Lemma fmt_bold_plain c cc pc s :
  is_markup_char c = false → Ascii.eqb c "{" && is_char "{" cc = false →
  v_formats s = [] →
  fmt_bold ent_encode c cc pc s =
  advance 1 (set_text (v_text s +:+ String c "") s).
Proof.
  intros Hc Hb Hf. unfold is_markup_char in Hc. cbn [existsb] in Hc.
  apply orb_false_iff in Hc as [Hstar Hc]. apply orb_false_iff in Hc as [Hund _].
  unfold fmt_bold, fmt_italic, fmt_plain, fmt0_is.
  rewrite Hstar, Hund, Hb, Hf. cbn [andb head].
  rewrite !andb_false_r. done.
Qed.

(** A run of plain characters in running text is appended to the pending
    text. *)
Lemma loop_plain_run body : ∀ pre s f,
  plain_run body = true →
  v_i s = String.length pre → 1 ≤ v_i s → v_state s = TEXT →
  v_formats s = [] → measure (pre +:+ body) s ≤ f →
  loop ent_encode url_parse url_format f (pre +:+ body) s =
  Ok (set_i (String.length (pre +:+ body)) (set_text (v_text s +:+ body) s)).
Proof.
  induction body as [|c body IH]; intros pre s f Hp Hi H1 Hst Hfm Hf.
  - rewrite loop_done by (rewrite append_empty_r; lia).
    rewrite !append_empty_r, <- Hi. by destruct s.
  - cbn [plain_run] in Hp. apply andb_true_iff in Hp as [Hp Hbody].
    apply andb_true_iff in Hp as [Hc%negb_true_iff Hb%negb_true_iff].
    assert (Hget : String.get (v_i s) (pre +:+ String c body) = Some c)
      by (by rewrite Hi, get_append_0).
    assert (Hcc : String.get (v_i s + 1) (pre +:+ String c body)
                  = String.get 0 body).
    { by rewrite Hi, get_append, get_cons_S. }
    assert (Hlt : v_i s < String.length (pre +:+ String c body)).
    { rewrite length_append, length_cons. lia. }
    assert (Hm : is_markup_char c = false) by done.
    unfold is_markup_char in Hc. cbn [existsb] in Hc.
    apply orb_false_iff in Hc as [_ Hc]. apply orb_false_iff in Hc as [_ Hc].
    apply orb_false_iff in Hc as [Hbr Hc]. apply orb_false_iff in Hc as [Hlf Hc].
    apply orb_false_iff in Hc as [Hcr _].
    rewrite (loop_step f _ s (advance 1 (set_text (v_text s +:+ String c "") s)));
      [|done|done|].
    + rewrite append_snoc. rewrite append_snoc in Hf.
      rewrite (IH (pre +:+ String c "")).
      * f_equal. destruct s as [i tx fm out st lt lu lsp ps lg].
        eval_locals. by rewrite (append_assoc tx).
      * done.
      * destruct s; eval_locals. rewrite length_snoc. lia.
      * destruct s; eval_locals. lia.
      * by destruct s.
      * by destruct s.
      * rewrite <- append_snoc in *. destruct s; eval_locals.
        lia.
    + rewrite (step_text _ _ _ _ _ c) by done.
      rewrite text_case_fmt by done.
      apply f_equal, fmt_bold_plain; [done| |done].
      rewrite Hcc, is_char_get. done.
Qed.


(** The spaces at the start of a line are counted. *)
Lemma loop_leading_spaces m : ∀ pre rest s f,
  v_i s = String.length pre → v_state s = LEADING_SPACES →
  measure (pre +:+ repeat_char " " m +:+ rest) s ≤ f →
  loop ent_encode url_parse url_format f
    (pre +:+ repeat_char " " m +:+ rest) s =
  loop ent_encode url_parse url_format f
    (pre +:+ repeat_char " " m +:+ rest)
    (set_i (v_i s + m) (set_leading_spaces (v_leading_spaces s + m) s)).
Proof.
  induction m as [|m IH]; intros pre rest s f Hi Hst Hf.
  - rewrite !Nat.add_0_r. by destruct s.
  - change (repeat_char " " (S m)) with (String " " (repeat_char " " m)) in *.
    rewrite append_cons in *.
    assert (Hget : String.get (v_i s)
              (pre +:+ String " " (repeat_char " " m +:+ rest)) = Some " "%char)
      by (by rewrite Hi, get_append_0).
    rewrite (loop_step f _ s
               (advance 1 (set_leading_spaces (S (v_leading_spaces s)) s))).
    + rewrite append_snoc in *. rewrite (IH (pre +:+ String " " "")).
      * f_equal. destruct s as [i tx fm out st lt lu lsp ps lg].
        eval_locals. f_equal; lia.
      * destruct s; eval_locals. rewrite length_snoc. lia.
      * by destruct s.
      * destruct s; eval_locals. lia.
    + rewrite length_append, length_cons. lia.
    + done.
    + unfold step. rewrite Hget, Hst. reflexivity.
Qed.

Lemma commit_text_nonempty s :
  v_text s ≠ "" →
  commit_text ent_encode s =
  set_text "" (push_out (ent_encode (v_text s)) s).
Proof. unfold commit_text. by destruct (v_text s). Qed.

Lemma append_nonempty (a : string) (c : ascii) (b : string) :
  a +:+ String c b ≠ "".
Proof. destruct a; [done|]. by rewrite append_cons. Qed.

Lemma parse_blank_line n ps :
  parse_jira_markup ent_encode url_parse url_format (repeat_char " " n) ps
  = Ok ("", {| ps_list := ps_list ps; ps_heading := None |}, []).
Proof.
  unfold parse_jira_markup, run_from.
    pose proof (loop_leading_spaces n "" "" (init ps)
                  (S (String.length (repeat_char " " n))) eq_refl eq_refl) as H.
    rewrite append_empty_r in H. change ("" +:+ ?x) with x in H.
    rewrite H by (unfold measure; simpl; lia).
    rewrite loop_done by (simpl; rewrite length_repeat_char; lia).
    reflexivity.
Qed.

Lemma parse_text_line n body ps :
  plain_body body = true →
  (n = 0 → ps_list ps = None → starts_heading body = false) →
  parse_jira_markup ent_encode url_parse url_format
    (repeat_char " " n +:+ body) ps
  = Ok (match ps_list ps with
        | Some k =>
            if n =? 0 then "</li></" +:+ list_tag k +:+ ">" else ""
        | None => ""
        end +:+ ent_encode (repeat_char " " n +:+ body),
        {| ps_list := if n =? 0 then None else ps_list ps;
           ps_heading := None |},
        []).
Proof.
  intros Hbody Hhead. unfold parse_jira_markup, run_from.
    destruct body as [|c r]; [done|]. unfold plain_body in Hbody.
    apply andb_true_iff in Hbody as [Hb Hrun].
    apply andb_true_iff in Hb as [Hsp%negb_true_iff Hli%negb_true_iff].
    set (desc := repeat_char " " n +:+ String c r).
    set (f := S (String.length desc)).
    assert (Hlen : String.length desc = n + S (String.length r)).
    { unfold desc. by rewrite length_append, length_repeat_char, length_cons. }
    pose proof (loop_leading_spaces n "" (String c r) (init ps) f
                  eq_refl eq_refl) as H.
    change ("" +:+ ?x) with x in H. fold desc in H.
    rewrite H by (unfold measure, f; simpl; lia). clear H.
    set (s1 := set_i _ _).
    assert (Hget : String.get n desc = Some c).
    { unfold desc. rewrite <- (length_repeat_char " " n) at 1.
      by rewrite get_append_0. }
    assert (Hcc : String.get (n + 1) desc = String.get 0 r).
    { unfold desc. rewrite <- (length_repeat_char " " n) at 1.
      by rewrite get_append, get_cons_S. }
    assert (Hccc : String.get (n + 2) desc = String.get 1 r).
    { unfold desc. rewrite <- (length_repeat_char " " n) at 1.
      by rewrite get_append, get_cons_S. }
    cbn [plain_run] in Hrun. apply andb_true_iff in Hrun as [Hc Hrun].
    apply andb_true_iff in Hc as [Hm%negb_true_iff Hbr%negb_true_iff].
    assert (Hm' := Hm). unfold is_markup_char in Hm'. cbn [existsb] in Hm'.
    apply orb_false_iff in Hm' as [Hstar Hm'].
    apply orb_false_iff in Hm' as [_ Hm'].
    apply orb_false_iff in Hm' as [Hbrk Hm'].
    apply orb_false_iff in Hm' as [Hlf Hm'].
    apply orb_false_iff in Hm' as [Hcr _].
    (* the step that leaves the leading spaces *)
    set (s2 := set_state TEXT (set_text (repeat_char " " n) s1)).
    assert (Hs1 : step ent_encode url_parse url_format desc s1 = Ok s2).
    { unfold step. change (v_i s1) with (0 + n). cbn [Nat.add].
      rewrite Hget, Hcc, Hlf, Hcr, Hsp, Hstar. cbn [v_state s1 init orb].
      unfold starts_list_item in Hli. rewrite is_char_get.
      destruct r as [|d r']; [by rewrite !andb_false_r|].
      cbn [String.prefix]. destruct (ascii_dec " " d) as [<-|Hd].
      - cbn [existsb] in Hli. rewrite Hstar in Hli. cbn [orb] in Hli.
        apply orb_false_iff in Hli as [-> Hli].
        apply orb_false_iff in Hli as [-> _]. reflexivity.
      - destruct r'; rewrite !andb_false_r; reflexivity. }
    rewrite (loop_step f desc s1 s2); [|simpl; lia|unfold measure, f; simpl; lia|done].
    (* the first character of the body *)
    set (s3 := advance 1 (set_text (repeat_char " " n +:+ String c "")
                 (match ps_list ps with
                  | Some k =>
                      if n =? 0 then
                        set_ps_list None
                          (push_out ("</li></" +:+ list_tag k +:+ ">") s2)
                      else s2
                  | None => s2
                  end))).
    assert (Hs2 : step ent_encode url_parse url_format desc s2 = Ok s3).
    { unfold step. change (v_i s2) with (0 + n). cbn [Nat.add].
      rewrite Hget, Hcc, Hccc, Hlf, Hcr. cbn [v_state s2 set_state].
      assert (Hplain : ∀ s, v_formats s = [] → v_text s = repeat_char " " n →
        fmt_bold ent_encode c (String.get 0 r) (prev_char desc n) s
        = advance 1 (set_text (repeat_char " " n +:+ String c "") s)).
      { intros s Hs Ht. rewrite fmt_bold_plain; [by rewrite Ht|done| |done].
        by rewrite is_char_get. }
      assert (Htc : (n = 0 → ps_list ps = None) →
        text_case ent_encode c (String.get 0 r) (String.get 1 r)
          (prev_char desc n) s2
        = Ok (advance 1 (set_text (repeat_char " " n +:+ String c "") s2))).
      { intros Hn. unfold text_case. rewrite Hbrk.
        replace ((v_i s2 =? 0) && Ascii.eqb c "h" && is_char "." (String.get 1 r)
                 && is_heading_level (String.get 0 r)) with false.
        - by rewrite Hplain.
        - symmetry. change (v_i s2) with (0 + n). cbn [Nat.add].
          destruct n as [|n]; [|done].
          specialize (Hhead eq_refl (Hn eq_refl)). unfold starts_heading in Hhead.
          destruct (Ascii.eqb_spec c "h") as [->|?]; [|done].
          destruct r as [|d [|e r']]; [reflexivity..|].
          rewrite get_cons_0, get_cons_S, get_cons_0.
          change (is_char "." (Some e)) with (Ascii.eqb e ".").
          destruct (Ascii.eqb_spec e ".") as [->|?]; [|done].
          by rewrite Hhead. }
      change (ps_list (v_ps s2)) with (ps_list ps).
      destruct (ps_list ps) as [k|] eqn:Hps; [|by apply Htc].
      destruct n as [|n].
      - change (0 =? 0) with true. rewrite Hsp. cbn [andb negb].
        rewrite Hplain; [|done|]; [|by destruct k]. reflexivity.
      - by apply Htc. }
    rewrite (loop_step f desc s2 s3); [|simpl; lia|unfold measure, f; simpl; lia|done].
    (* the rest of the body *)
    unfold desc. rewrite append_snoc.
    rewrite (loop_plain_run r (repeat_char " " n +:+ String c "") s3 f Hrun).
    + rewrite <- append_snoc. fold desc. cbn [mbind result_bind].
      assert (Htext : v_text s3 +:+ r = desc).
      { unfold desc. rewrite (append_snoc _ c r).
        by destruct (ps_list ps) as [[]|], n as [|n]. }
      rewrite Htext. unfold finish. rewrite commit_text_nonempty.
      * destruct ps as [pl ph]. cbn [ps_list] in *.
        destruct pl as [k|], n as [|n];
          try change (0 =? 0) with true; try change (S n =? 0) with false;
          cbv iota; unfold s3, s2, s1, join; simpl;
          by rewrite ?append_empty_r.
      * rewrite <- Htext. cbn [v_text set_i set_text].
        destruct r; [|apply append_nonempty].
        rewrite append_empty_r. unfold s3. cbn [v_text advance set_i set_text].
        apply append_nonempty.
    + unfold s3.
      by destruct (ps_list ps) as [[]|], n as [|n];
        cbn [v_i advance set_i set_text]; rewrite length_snoc, length_repeat_char.
    + unfold s3.
      destruct (ps_list ps) as [[]|], n as [|n]; cbn [v_i advance set_i set_text];
        apply Nat.le_add_l.
    + unfold s3. by destruct (ps_list ps) as [[]|], n as [|n].
    + unfold s3. by destruct (ps_list ps) as [[]|], n as [|n].
    + rewrite <- append_snoc. fold desc. unfold measure, f. rewrite Hlen.
      replace (v_state s3) with TEXT
        by (unfold s3; by destruct (ps_list ps) as [[]|], n as [|n]).
      lia.
Qed.

(** X14: a line of spaces renders as the empty
    string, and a line of [n] spaces followed by plain text renders as the
    entity encoding of the whole line.  When a list is open, a line that
    is not indented closes it first; an indented line leaves it open. *)
Theorem plain_line_encoded :
  (∀ n ps,
     parse_jira_markup ent_encode url_parse url_format (repeat_char " " n) ps
     = Ok ("", {| ps_list := ps_list ps; ps_heading := None |}, [])) ∧
  (∀ n body ps,
     plain_body body = true →
     (n = 0 → ps_list ps = None → starts_heading body = false) →
     parse_jira_markup ent_encode url_parse url_format
       (repeat_char " " n +:+ body) ps
     = Ok (match ps_list ps with
           | Some k =>
               if n =? 0 then "</li></" +:+ list_tag k +:+ ">" else ""
           | None => ""
           end +:+ ent_encode (repeat_char " " n +:+ body),
           {| ps_list := if n =? 0 then None else ps_list ps;
              ps_heading := None |},
           [])).
Proof.
  split.
  - intros n ps. apply parse_blank_line.
  - intros n body ps Hbody Hhead. by apply parse_text_line.
Qed.


Lemma steps_unfold n desc s :
  steps ent_encode url_parse url_format (S n) desc s =
  if String.length desc <=? v_i s then Ok s
  else step ent_encode url_parse url_format desc s
         ≫= steps ent_encode url_parse url_format n desc.
Proof. reflexivity. Qed.

Lemma steps_step n desc s :
  v_i s < String.length desc →
  steps ent_encode url_parse url_format (S n) desc s =
  step ent_encode url_parse url_format desc s
    ≫= steps ent_encode url_parse url_format n desc.
Proof.
  intros H. rewrite steps_unfold.
  by destruct (Nat.leb_spec (String.length desc) (v_i s)); [lia|].
Qed.

Lemma steps_add n m desc s :
  steps ent_encode url_parse url_format (n + m) desc s =
  steps ent_encode url_parse url_format n desc s
    ≫= steps ent_encode url_parse url_format m desc.
Proof.
  revert s. induction n as [|n IH]; intros s; [done|].
  rewrite Nat.add_succ_l, !steps_unfold.
  destruct (String.length desc <=? v_i s) eqn:Hle.
  - cbn [mbind result_bind]. destruct m as [|m]; [done|].
    by rewrite steps_unfold, Hle.
  - destruct (step ent_encode url_parse url_format desc s) as [s'|e]; [|done].
    cbn [mbind result_bind]. apply IH.
Qed.

(** Between brackets, the characters are collected as they are. *)
Lemma steps_collect t : ∀ pre post s,
  v_i s = String.length pre →
  all_chars (collects (v_state s)) t = true →
  steps ent_encode url_parse url_format (String.length t)
    (pre +:+ t +:+ post) s =
  Ok (set_i (v_i s + String.length t) (collect t s)).
Proof.
  induction t as [|c t IH]; intros pre post s Hi Hall.
  - destruct s as [i tx fm out st lt lu lsp ps lg].
    change (String.length "") with 0. cbn [steps].
    destruct st; eval_locals; by rewrite Nat.add_0_r, append_empty_r.
  - cbn [all_chars] in Hall. apply andb_true_iff in Hall as [Hc Hall].
    rewrite append_cons, length_cons.
    assert (Hget : String.get (v_i s) (pre +:+ String c (t +:+ post)) = Some c)
      by (by rewrite Hi, get_append_0).
    assert (Hnl : Ascii.eqb c "010" = false ∧ Ascii.eqb c "013" = false ∧
                  Ascii.eqb c "]" = false ∧
                  (v_state s = LINK_TITLE → Ascii.eqb c "|" = false)).
    { unfold collects, is_title_char, is_link_char in Hc. cbn [existsb] in Hc.
      destruct (v_state s); try done.
      - apply andb_true_iff in Hc as [Hc Hb%negb_true_iff].
        apply negb_true_iff in Hc.
        apply orb_false_iff in Hc as [? Hc]. apply orb_false_iff in Hc as [? Hc].
        apply orb_false_iff in Hc as [? _]. done.
      - apply negb_true_iff in Hc.
        apply orb_false_iff in Hc as [? Hc]. apply orb_false_iff in Hc as [? Hc].
        apply orb_false_iff in Hc as [? _]. done.
      - apply negb_true_iff in Hc.
        apply orb_false_iff in Hc as [? Hc]. apply orb_false_iff in Hc as [? Hc].
        apply orb_false_iff in Hc as [? _]. done.
      - apply negb_true_iff in Hc.
        apply orb_false_iff in Hc as [? Hc]. apply orb_false_iff in Hc as [? Hc].
        apply orb_false_iff in Hc as [? _]. done. }
    destruct Hnl as (Hlf & Hcr & Hbr & Hbar).
    rewrite steps_step by (rewrite length_append, length_cons; lia).
    assert (Hstep : step ent_encode url_parse url_format
                      (pre +:+ String c (t +:+ post)) s
                    = Ok (advance 1 (collect (String c "") s))).
    { unfold step, collect. rewrite Hget, Hlf, Hcr, Hbr.
      destruct (v_state s) eqn:Hst; try done.
      by rewrite Hbar. }
    rewrite Hstep. cbn [mbind result_bind].
    rewrite append_snoc. rewrite (IH (pre +:+ String c "")).
    + f_equal. destruct s as [i tx fm out st lt lu lsp ps lg].
      destruct st; eval_locals; rewrite ?append_assoc; f_equal; lia.
    + destruct s as [i tx fm out st lt lu lsp ps lg].
      rewrite length_snoc. revert Hi. destruct st; eval_locals; lia.
    + destruct s as [i tx fm out st lt lu lsp ps lg].
      revert Hall. by destruct st.
Qed.


(** The step that reads the bracket which opens a link. *)
Lemma step_open_link pre t post s :
  v_i s = String.length pre → v_state s = TEXT →
  (v_i s = 0 → ps_list (v_ps s) = None) →
  String.prefix "~" t = false → String.prefix "^" t = false →
  step ent_encode url_parse url_format
    (pre +:+ String "[" (t +:+ String "]" post)) s =
  Ok (advance 1 (set_state LINK_TITLE
        (set_link_url "" (set_link_title "" (commit_text ent_encode s))))).
Proof.
  intros Hi Hst Hps Hu Ha. unfold step.
  rewrite Hi at 1. rewrite get_append_0, get_cons_0.
  change (Ascii.eqb "[" "010") with false. change (Ascii.eqb "[" "013") with false.
  cbv iota. rewrite Hst.
  assert (Htc : text_case ent_encode "[" (String.get (v_i s + 1) (pre +:+ String "[" (t +:+ String "]" post)))
           (String.get (v_i s + 2) (pre +:+ String "[" (t +:+ String "]" post)))
           (prev_char (pre +:+ String "[" (t +:+ String "]" post)) (v_i s)) s =
         Ok (advance 1 (set_state LINK_TITLE
               (set_link_url "" (set_link_title "" (commit_text ent_encode s)))))).
  { unfold text_case. change (Ascii.eqb "[" "h") with false.
    rewrite andb_false_r. cbn [andb]. change (Ascii.eqb "[" "[") with true.
    cbv iota. rewrite Hi, get_append, get_cons_S, !is_char_get.
    rewrite !prefix_char_append.
    destruct t; [reflexivity|]. by rewrite Hu, Ha. }
  destruct (ps_list (v_ps s)) as [k|] eqn:Hk; [|done].
  destruct (Nat.eqb_spec (v_i s) 0) as [H0|H0]; [by specialize (Hps H0)|].
  exact Htc.
Qed.

(** The step that reads the bracket which closes a link. *)
Lemma step_close_link pre post s :
  v_i s = String.length pre →
  v_state s = LINK_TITLE ∨ v_state s = LINK_URL →
  step ent_encode url_parse url_format (pre +:+ String "]" post) s =
  push_link ent_encode url_parse url_format
    (match v_state s with LINK_URL => v_link_url s | _ => v_link_title s end)
    (ent_encode (v_link_title s)) s
  ≫= λ s', Ok (advance 1 (set_state TEXT s')).
Proof.
  intros Hi Hst. unfold step. rewrite Hi at 1. rewrite get_append_0, get_cons_0.
  change (Ascii.eqb "]" "010") with false. change (Ascii.eqb "]" "013") with false.
  cbv iota. by destruct Hst as [-> | ->].
Qed.

Lemma step_open_link_bar pre t x s :
  v_i s = String.length pre → v_state s = TEXT →
  (v_i s = 0 → ps_list (v_ps s) = None) →
  String.prefix "~" t = false → String.prefix "^" t = false →
  step ent_encode url_parse url_format
    (pre +:+ String "[" (t +:+ String "|" x)) s =
  Ok (advance 1 (set_state LINK_TITLE
        (set_link_url "" (set_link_title "" (commit_text ent_encode s))))).
Proof.
  intros Hi Hst Hps Hu Ha. unfold step.
  rewrite Hi at 1. rewrite get_append_0, get_cons_0.
  change (Ascii.eqb "[" "010") with false. change (Ascii.eqb "[" "013") with false.
  cbv iota. rewrite Hst.
  assert (Htc : text_case ent_encode "[" (String.get (v_i s + 1) (pre +:+ String "[" (t +:+ String "|" x)))
           (String.get (v_i s + 2) (pre +:+ String "[" (t +:+ String "|" x)))
           (prev_char (pre +:+ String "[" (t +:+ String "|" x)) (v_i s)) s =
         Ok (advance 1 (set_state LINK_TITLE
               (set_link_url "" (set_link_title "" (commit_text ent_encode s)))))).
  { unfold text_case. change (Ascii.eqb "[" "h") with false.
    rewrite andb_false_r. cbn [andb]. change (Ascii.eqb "[" "[") with true.
    cbv iota. rewrite Hi, get_append, get_cons_S, !is_char_get.
    rewrite !prefix_char_append.
    destruct t; [reflexivity|]. by rewrite Hu, Ha. }
  destruct (ps_list (v_ps s)) as [k|] eqn:Hk; [|done].
  destruct (Nat.eqb_spec (v_i s) 0) as [H0|H0]; [by specialize (Hps H0)|].
  exact Htc.
Qed.

Lemma step_bar pre x s :
  v_i s = String.length pre → v_state s = LINK_TITLE →
  step ent_encode url_parse url_format (pre +:+ String "|" x) s =
  Ok (advance 1 (set_state LINK_URL s)).
Proof.
  intros Hi Hst. unfold step. rewrite Hi at 1. rewrite get_append_0, get_cons_0.
  change (Ascii.eqb "|" "010") with false. change (Ascii.eqb "|" "013") with false.
  cbv iota. by rewrite Hst.
Qed.

(** The iterations over [[t]] in running text. *)
Lemma steps_bracket_link pre t post s :
  v_i s = String.length pre → v_state s = TEXT →
  (v_i s = 0 → ps_list (v_ps s) = None) →
  link_title_text t = true →
  steps ent_encode url_parse url_format (String.length t + 2)
    (pre +:+ "[" +:+ t +:+ "]" +:+ post) s =
  '(a, logs) ← format_remote_link ent_encode url_parse url_format t
                 (ent_encode t);
  Ok (after_brackets ent_encode (v_i s + String.length t + 2) t "" [a]
        logs s).
Proof.
  intros Hi Hst Hps Ht.
  unfold link_title_text in Ht. apply andb_true_iff in Ht as [Ht Ha].
  apply andb_true_iff in Ht as [Hall Hu].
  apply negb_true_iff in Ha, Hu.
  change ("[" +:+ ?x) with (String "[" x). change ("]" +:+ ?x) with (String "]" x).
  replace (String.length t + 2) with (S (String.length t + 1)) by lia.
  rewrite steps_step
    by (lengths; lia).
  rewrite (step_open_link pre t post s) by done.
  cbn [mbind result_bind]. rewrite steps_add.
  set (s1 := advance 1 _).
  rewrite append_snoc.
  rewrite (steps_collect t (pre +:+ "[") (String "]" post) s1);
    [|unfold s1; destruct s as [i [|? tx] fm out st lt lu lsp ps lg];
      lengths; eval_locals; lia|done].
  cbn [mbind result_bind]. set (s2 := set_i _ _).
  rewrite <- append_assoc.
  replace 1 with (S 0) by done. rewrite steps_step.
  + rewrite (step_close_link ((pre +:+ "[") +:+ t) post s2).
    * unfold push_link.
      change (v_state s2) with LINK_TITLE. cbv iota.
      change (v_link_title s2) with ("" +:+ t). change ("" +:+ t) with t.
      destruct (format_remote_link _ _ _ t _) as [[a logs]|e]; [|done].
      cbn [mbind result_bind steps]. f_equal.
      unfold after_brackets, s2, s1. destruct s as [i tx fm out st lt lu lsp ps lg].
      unfold commit_text. eval_locals.
      destruct tx; eval_locals; f_equal; lia.
    * unfold s2, s1. lengths.
      destruct s as [i [|? tx] fm out st lt lu lsp ps lg]; eval_locals; lia.
    * by left.
  + unfold s2, s1. lengths.
    destruct s as [i [|? tx] fm out st lt lu lsp ps lg]; eval_locals; lia.
Qed.

(** X15: in running text, the iterations over
    [[t]] put out the pending text and then
    [format_remote_link t (ent_encode t)], and those over [[t|u]] put out
    [format_remote_link u (ent_encode t)]; they raise exactly when
    [format_remote_link] does.  At the first character of the line no
    list is open: the converter would close it first. *)
Theorem bracket_link_rendered :
  (∀ pre t post s,
     v_i s = String.length pre → v_state s = TEXT →
     (v_i s = 0 → ps_list (v_ps s) = None) →
     link_title_text t = true →
     steps ent_encode url_parse url_format (String.length t + 2)
       (pre +:+ "[" +:+ t +:+ "]" +:+ post) s =
     '(a, logs) ← format_remote_link ent_encode url_parse url_format t
                    (ent_encode t);
     Ok (after_brackets ent_encode (v_i s + String.length t + 2) t "" [a]
           logs s)) ∧
  (∀ pre t u post s,
     v_i s = String.length pre → v_state s = TEXT →
     (v_i s = 0 → ps_list (v_ps s) = None) →
     link_title_text t = true → all_chars is_link_char u = true →
     steps ent_encode url_parse url_format
       (String.length t + String.length u + 3)
       (pre +:+ "[" +:+ t +:+ "|" +:+ u +:+ "]" +:+ post) s =
     '(a, logs) ← format_remote_link ent_encode url_parse url_format u
                    (ent_encode t);
     Ok (after_brackets ent_encode
           (v_i s + String.length t + String.length u + 3) t u [a] logs s)).
Proof.
  split.
  - apply steps_bracket_link.
  - intros pre t u post s Hi Hst Hps Ht Hall_u.
    unfold link_title_text in Ht. apply andb_true_iff in Ht as [Ht Ha].
    apply andb_true_iff in Ht as [Hall Hu].
    apply negb_true_iff in Ha, Hu.
    change ("[" +:+ ?x) with (String "[" x). change ("]" +:+ ?x) with (String "]" x).
    change ("|" +:+ ?x) with (String "|" x).
    replace (String.length t + String.length u + 3)
      with (S (String.length t + (1 + (String.length u + 1)))) by lia.
    rewrite steps_step
      by (lengths; lia).
    rewrite (step_open_link_bar pre t _ s) by done.
    cbn [mbind result_bind]. rewrite steps_add.
    set (s1 := advance 1 _).
    rewrite append_snoc.
    rewrite (steps_collect t (pre +:+ "[") _ s1);
      [|unfold s1; destruct s as [i [|? tx] fm out st lt lu lsp ps lg];
        lengths; eval_locals; lia|done].
    cbn [mbind result_bind]. set (s2 := set_i _ _).
    rewrite <- append_assoc, steps_add.
    replace 1 with (S 0) by done. rewrite steps_step.
    + rewrite (step_bar ((pre +:+ "[") +:+ t) _ s2);
        [|unfold s2, s1; lengths;
          destruct s as [i [|? tx] fm out st lt lu lsp ps lg]; eval_locals; lia
         |done].
      cbn [mbind result_bind steps]. set (s3 := advance 1 _).
      rewrite append_snoc, steps_add.
      rewrite (steps_collect u (((pre +:+ "[") +:+ t) +:+ "|") _ s3);
        [|unfold s3, s2, s1; lengths;
          destruct s as [i [|? tx] fm out st lt lu lsp ps lg]; eval_locals; lia
         |done].
      cbn [mbind result_bind]. set (s4 := set_i _ _).
      rewrite <- append_assoc. rewrite steps_step.
      * rewrite (step_close_link _ post s4).
        -- unfold push_link.
           change (v_state s4) with LINK_URL. cbv iota.
           change (v_link_title s4) with ("" +:+ t). change ("" +:+ t) with t.
           change (v_link_url s4) with ("" +:+ u). change ("" +:+ u) with u.
           destruct (format_remote_link _ _ _ u _) as [[a logs]|e]; [|done].
           cbn [mbind result_bind steps]. f_equal.
           unfold after_brackets, s4, s3, s2, s1.
           destruct s as [i tx fm out st lt lu lsp ps lg].
           unfold commit_text.
           destruct tx; eval_locals; f_equal; lia.
        -- unfold s4, s3, s2, s1. lengths.
           destruct s as [i [|? tx] fm out st lt lu lsp ps lg]; eval_locals; lia.
        -- by right.
      * unfold s4, s3, s2, s1. lengths.
        destruct s as [i [|? tx] fm out st lt lu lsp ps lg]; eval_locals; lia.
    + unfold s2, s1. lengths.
      destruct s as [i [|? tx] fm out st lt lu lsp ps lg]; eval_locals; lia.
Qed.


(** The step that reads the bracket which opens a mention or an
    attachment. *)
Lemma step_open_mention pre (m : ascii) x s :
  v_i s = String.length pre → v_state s = TEXT →
  (v_i s = 0 → ps_list (v_ps s) = None) →
  m = "~"%char ∨ m = "^"%char →
  step ent_encode url_parse url_format (pre +:+ String "[" (String m x)) s =
  Ok (advance 2
        (set_state (if Ascii.eqb m "~" then LINK_USER else LINK_ATTACHMENT)
           (set_link_url "" (set_link_title "" (commit_text ent_encode s))))).
Proof.
  intros Hi Hst Hps Hm. unfold step.
  rewrite Hi at 1. rewrite get_append_0, get_cons_0.
  change (Ascii.eqb "[" "010") with false. change (Ascii.eqb "[" "013") with false.
  cbv iota. rewrite Hst.
  assert (Htc : text_case ent_encode "["
           (String.get (v_i s + 1) (pre +:+ String "[" (String m x)))
           (String.get (v_i s + 2) (pre +:+ String "[" (String m x)))
           (prev_char (pre +:+ String "[" (String m x)) (v_i s)) s =
         Ok (advance 2
               (set_state (if Ascii.eqb m "~" then LINK_USER else LINK_ATTACHMENT)
                  (set_link_url "" (set_link_title "" (commit_text ent_encode s)))))).
  { unfold text_case. change (Ascii.eqb "[" "h") with false.
    rewrite andb_false_r. cbn [andb]. change (Ascii.eqb "[" "[") with true.
    cbv iota. rewrite Hi, get_append, get_cons_S, get_cons_0.
    by destruct Hm as [-> | ->]. }
  destruct (ps_list (v_ps s)) as [k|] eqn:Hk; [|done].
  destruct (Nat.eqb_spec (v_i s) 0) as [H0|H0]; [by specialize (Hps H0)|].
  exact Htc.
Qed.

Lemma step_close_mention pre post s :
  v_i s = String.length pre →
  v_state s = LINK_USER ∨ v_state s = LINK_ATTACHMENT →
  step ent_encode url_parse url_format (pre +:+ String "]" post) s =
  Ok (advance 1 (set_state TEXT
        (push_out (match v_state s with LINK_USER => "</b>" | _ => "]</b>" end)
           (push_out (ent_encode (v_link_title s))
              (push_out (match v_state s with
                         | LINK_USER => "<b>@"
                         | _ => "<b>[attachment "
                         end) s))))).
Proof.
  intros Hi Hst. unfold step. rewrite Hi at 1. rewrite get_append_0, get_cons_0.
  change (Ascii.eqb "]" "010") with false. change (Ascii.eqb "]" "013") with false.
  cbv iota. by destruct Hst as [-> | ->].
Qed.

Lemma steps_mention pre (m : ascii) t post s :
  v_i s = String.length pre → v_state s = TEXT →
  (v_i s = 0 → ps_list (v_ps s) = None) →
  m = "~"%char ∨ m = "^"%char → all_chars is_link_char t = true →
  steps ent_encode url_parse url_format (String.length t + 2)
    (pre +:+ String "[" (String m (t +:+ String "]" post))) s =
  Ok (after_brackets ent_encode (v_i s + String.length t + 3) t ""
        (if Ascii.eqb m "~" then ["<b>@"; ent_encode t; "</b>"]
         else ["<b>[attachment "; ent_encode t; "]</b>"])
        [] s).
Proof.
  intros Hi Hst Hps Hm Hall.
  replace (String.length t + 2) with (S (String.length t + 1)) by lia.
  rewrite steps_step
    by (lengths; lia).
  rewrite (step_open_mention pre m _ s) by done.
  cbn [mbind result_bind]. rewrite steps_add.
  set (s1 := advance 2 _).
  rewrite (append_snoc pre "["), (append_snoc _ m).
  rewrite (steps_collect t ((pre +:+ "[") +:+ String m "") _ s1);
    [|unfold s1; destruct s as [i [|? tx] fm out st lt lu lsp ps lg];
      lengths; eval_locals; lia
     |unfold s1; by destruct Hm as [-> | ->]].
  cbn [mbind result_bind]. set (s2 := set_i _ _).
  rewrite <- append_assoc.
  replace 1 with (S 0) by done. rewrite steps_step.
  - rewrite (step_close_mention _ post s2).
    + cbn [mbind result_bind steps]. f_equal.
      unfold after_brackets, s2, s1.
      destruct s as [i tx fm out st lt lu lsp ps lg]. unfold commit_text.
      destruct Hm as [-> | ->];
        destruct tx; eval_locals; rewrite ?app_nil_r; simpl; f_equal;
          first [lia | by rewrite <- !app_assoc].
    + unfold s2, s1. lengths.
      destruct s as [i [|? tx] fm out st lt lu lsp ps lg]; eval_locals; lia.
    + unfold s2, s1. destruct Hm as [-> | ->]; [by left|by right].
  - unfold s2, s1. lengths.
    destruct s as [i [|? tx] fm out st lt lu lsp ps lg]; eval_locals; lia.
Qed.

(** X16: in running text, the iterations over
    [[~t]] put out the pending text and then the mention of [t] in bold,
    and those over [[^t]] the name of the attachment in bold; the name is
    entity-encoded, nothing is logged and no link is made. *)
Theorem bracket_mention_rendered pre t post s :
  v_i s = String.length pre → v_state s = TEXT →
  (v_i s = 0 → ps_list (v_ps s) = None) →
  all_chars is_link_char t = true →
  steps ent_encode url_parse url_format (String.length t + 2)
    (pre +:+ "[~" +:+ t +:+ "]" +:+ post) s =
  Ok (after_brackets ent_encode (v_i s + String.length t + 3) t ""
        ["<b>@"; ent_encode t; "</b>"] [] s) ∧
  steps ent_encode url_parse url_format (String.length t + 2)
    (pre +:+ "[^" +:+ t +:+ "]" +:+ post) s =
  Ok (after_brackets ent_encode (v_i s + String.length t + 3) t ""
        ["<b>[attachment "; ent_encode t; "]</b>"] [] s).
Proof.
  intros Hi Hst Hps Hall. split.
  - apply (steps_mention pre "~" t post s); auto.
  - apply (steps_mention pre "^" t post s); auto.
Qed.

(** Iterations that raise make the loop raise. *)
Lemma steps_Throw_loop n : ∀ f desc s e,
  steps ent_encode url_parse url_format n desc s = Throw e →
  measure desc s ≤ f →
  loop ent_encode url_parse url_format f desc s = Throw e.
Proof.
  induction n as [|n IH]; intros f desc s e H Hf; [done|].
  rewrite steps_unfold in H. rewrite loop_unfold.
  destruct (Nat.leb_spec (String.length desc) (v_i s)); [done|].
  destruct f as [|f]; [unfold measure in Hf; lia|].
  destruct (step ent_encode url_parse url_format desc s) as [s'|e'] eqn:Hs;
    [|done].
  destruct (step_measure _ _ _ _ _ _ Hs) as [Hm _]; [done|].
  cbn [mbind result_bind] in *. apply IH; [done|lia].
Qed.

(** A line that starts with a link to a host named like an inherited
    method raises. *)
Lemma parse_bracket_link_Throw t post ps url :
  ps_list ps = None → link_title_text t = true →
  url_parse (trim t) = Some url →
  SUBS (hostname url) = SubsInheritedFunction →
  parse_jira_markup ent_encode url_parse url_format
    ("[" +:+ t +:+ "]" +:+ post) ps = Throw TypeError.
Proof.
  intros Hps Ht Hu Hsubs. unfold parse_jira_markup, run_from.
  set (desc := "[" +:+ t +:+ "]" +:+ post).
  assert (Hlen : 0 < String.length desc).
  { unfold desc. change ("[" +:+ ?x) with (String "[" x). lengths. lia. }
  assert (Hl : loop ent_encode url_parse url_format (S (String.length desc))
                 desc (init ps) = Throw TypeError); [|by rewrite Hl].
  rewrite (loop_step _ _ (init ps) (text_from 0 ps));
    [|exact Hlen|eval_locals; lia|reflexivity].
  apply (steps_Throw_loop (String.length t + 2));
    [|unfold text_from; eval_locals; lia].
  unfold desc.
  change ("[" +:+ t +:+ "]" +:+ post) with ("" +:+ "[" +:+ t +:+ "]" +:+ post).
  rewrite (steps_bracket_link "" t post (text_from 0 ps)); try done.
  unfold format_remote_link, fix_url. by rewrite Hu, Hsubs.
Qed.

(** X12: [parse_jira_markup] raises in two cases
    only.  Either the line holds a line feed or a carriage return, and
    the assertion on the character fails; or the line holds a link, the
    text between a bracket or a bar and the closing bracket, for which
    [fix_url] raises, which takes a parsed host name that names a method
    inherited by the [SUBS] table.  Conversely a line that starts with a
    line feed or a carriage return does raise the assertion failure, and
    a line that starts with such a link, no list being open, does raise
    the [TypeError]. *)
Theorem parse_raises_only :
  (∀ desc ps e,
     parse_jira_markup ent_encode url_parse url_format desc ps = Throw e →
     raise_cause url_parse desc e) ∧
  (∀ c rest ps, c = "010"%char ∨ c = "013"%char →
     parse_jira_markup ent_encode url_parse url_format (String c rest) ps
     = Throw (AssertionError "c")) ∧
  (∀ t post ps url,
     ps_list ps = None → link_title_text t = true →
     url_parse (trim t) = Some url →
     SUBS (hostname url) = SubsInheritedFunction →
     parse_jira_markup ent_encode url_parse url_format
       ("[" +:+ t +:+ "]" +:+ post) ps = Throw TypeError).
Proof.
  split_and!.
  - apply parse_Throw_cause.
  - intros c rest ps [-> | ->]; reflexivity.
  - apply parse_bracket_link_Throw.
Qed.

End MarkupRuns.

End MarkupMore.

(** ** The further properties of the converter at concrete lines *)

Lemma parse_raises_only_witness :
  parse_jira_markup ent_encode_model url_parse_constructor url_format_model
    "see [x]" ps0 = Throw TypeError ∧
  raise_cause url_parse_constructor "see [x]" TypeError ∧
  parse_jira_markup ent_encode_model url_parse_model url_format_model
    (String "013" "b") ps0 = Throw (AssertionError "c") ∧
  parse_jira_markup ent_encode_model url_parse_constructor url_format_model
    ("[" +:+ "x" +:+ "]" +:+ " y") ps0 = Throw TypeError.
Proof.
  split; [reflexivity|].
  destruct (parse_raises_only ent_encode_model url_parse_constructor
              url_format_model) as (H1 & _ & H3).
  destruct (parse_raises_only ent_encode_model url_parse_model
              url_format_model) as (_ & H2 & _).
  split_and!.
  - apply (H1 "see [x]" ps0 TypeError). reflexivity.
  - apply (H2 "013"%char "b" ps0). by right.
  - eapply (H3 "x" " y" ps0); reflexivity.
Defined.

Lemma output_is_escaped_witness :
  parse_jira_markup ent_encode_model url_parse_model url_format_model
    "a *b* [x|http://y/?q=1&r=2] <" ps0
  = Ok ("a <b>b</b> " +:+ anchor "http://y/?q=1&amp;r=2" "x" +:+ " &lt;",
        ps0, []) ∧
  ∃ pieces,
    "a <b>b</b> " +:+ anchor "http://y/?q=1&amp;r=2" "x" +:+ " &lt;"
      = join pieces ∧
    Forall (piece ent_encode_model url_parse_model) pieces.
Proof.
  split; [reflexivity|].
  apply (output_is_escaped ent_encode_model url_parse_model url_format_model
           "a *b* [x|http://y/?q=1&r=2] <" ps0 _ ps0 []).
  reflexivity.
Defined.

Lemma plain_line_encoded_witness :
  parse_jira_markup ent_encode_model url_parse_model url_format_model
    "   " ps0 = Ok ("", ps0, []) ∧
  plain_body "a < b" = true ∧
  parse_jira_markup ent_encode_model url_parse_model url_format_model
    "a < b" {| ps_list := Some UL; ps_heading := None |}
  = Ok ("</li></ul>" +:+ ent_encode_model "a < b", ps0, []) ∧
  ent_encode_model "a < b" = "a &lt; b".
Proof.
  destruct (plain_line_encoded ent_encode_model url_parse_model
              url_format_model) as [H1 H2].
  split; [exact (H1 3 ps0)|]. split; [reflexivity|].
  split; [|reflexivity].
  apply (H2 0 "a < b" {| ps_list := Some UL; ps_heading := None |}).
  - reflexivity.
  - discriminate.
Defined.

Lemma bracket_link_rendered_witness :
  v_i ex_after_see = String.length "see " ∧ v_state ex_after_see = TEXT ∧
  link_title_text "http://x/" = true ∧ link_title_text "x" = true ∧
  all_chars is_link_char "http://y/" = true ∧
  steps ent_encode_model url_parse_model url_format_model 11
    "see [http://x/] now" ex_after_see =
  Ok (after_brackets ent_encode_model 15 "http://x/" ""
        [anchor "http://x/" "http://x/"] [] ex_after_see) ∧
  steps ent_encode_model url_parse_model url_format_model 13
    "see [x|http://y/] now" ex_after_see =
  Ok (after_brackets ent_encode_model 17 "x" "http://y/"
        [anchor "http://y/" "x"] [] ex_after_see).
Proof.
  destruct (bracket_link_rendered ent_encode_model url_parse_model
              url_format_model) as [H1 H2].
  split; [reflexivity|]. split; [reflexivity|]. split; [reflexivity|].
  split; [reflexivity|]. split; [reflexivity|]. split.
  - apply (H1 "see " "http://x/" " now" ex_after_see);
      [reflexivity|reflexivity|discriminate|reflexivity].
  - apply (H2 "see " "x" "http://y/" " now" ex_after_see);
      [reflexivity|reflexivity|discriminate|reflexivity|reflexivity].
Defined.

Lemma bracket_mention_rendered_witness :
  v_i ex_after_see = String.length "see " ∧ v_state ex_after_see = TEXT ∧
  all_chars is_link_char "bob" = true ∧
  steps ent_encode_model url_parse_model url_format_model 5
    "see [~bob]!" ex_after_see =
  Ok (after_brackets ent_encode_model 10 "bob" ""
        ["<b>@"; "bob"; "</b>"] [] ex_after_see) ∧
  steps ent_encode_model url_parse_model url_format_model 5
    "see [^bob]!" ex_after_see =
  Ok (after_brackets ent_encode_model 10 "bob" ""
        ["<b>[attachment "; "bob"; "]</b>"] [] ex_after_see).
Proof.
  split; [reflexivity|]. split; [reflexivity|]. split; [reflexivity|].
  apply (bracket_mention_rendered ent_encode_model url_parse_model
           url_format_model "see " "bob" "!" ex_after_see);
    [reflexivity|reflexivity|discriminate|reflexivity].
Defined.

(** ** Properties of the block scanner *)

Lemma join_app (a b : list string) : join (a ++ b) = join a +:+ join b.
Proof.
  unfold join. induction a as [|x a IH]; [done|].
  simpl. by rewrite IH, append_assoc.
Qed.

Lemma all_chars_get p s i c :
  all_chars p s = true → String.get i s = Some c → p c = true.
Proof.
  revert i. induction s as [|x s IH]; intros i; [done|].
  simpl. intros [Hx Hs]%andb_true_iff. destruct i as [|i].
  - by intros [= <-].
  - by apply IH.
Qed.

Lemma split_lines_no_LF desc :
  Forall (λ l, all_chars (λ c, negb (Ascii.eqb c LF)) l = true)
         (split_lines desc).
Proof.
  enough (H : Forall (λ l, all_chars (λ c, negb (Ascii.eqb c LF)) l = true)
                (split_lines desc) ∧
              ∀ c, Forall (λ l, all_chars (λ c, negb (Ascii.eqb c LF)) l = true)
                     (split_lines (String c desc))) by apply H.
  induction desc as [|c' r' [IH1 IH2]].
  - split; [by repeat constructor|]. intros c. simpl.
    destruct (Ascii.eqb c LF) eqn:Hc; repeat constructor. simpl. by rewrite Hc.
  - split; [apply IH2|]. intros c.
    change (split_lines (String c (String c' r'))) with
      (if Ascii.eqb c LF then EmptyString :: split_lines (String c' r')
       else if Ascii.eqb c CR && Ascii.eqb c' LF
            then EmptyString :: split_lines r'
            else match split_lines (String c' r') with
                 | l :: ls => String c l :: ls
                 | [] => [String c EmptyString]
                 end).
    destruct (Ascii.eqb c LF) eqn:Hc; [by constructor|].
    destruct (Ascii.eqb c CR && Ascii.eqb c' LF); [by constructor|].
    specialize (IH2 c'). destruct (split_lines (String c' r')) as [|l ls].
    + repeat constructor. simpl. by rewrite Hc.
    + inversion IH2; subst. constructor; [|done]. simpl. by rewrite Hc.
Qed.

Lemma up_to_eol_no_eol s : all_chars (λ c, negb (is_eol c)) (up_to_eol s) = true.
Proof.
  induction s as [|c s IH]; [done|]. cbn [up_to_eol].
  destruct (Ascii.eqb c LF || Ascii.eqb c CR) eqn:Hc; [reflexivity|].
  cbn [all_chars]. unfold is_eol at 1. by rewrite Hc.
Qed.

Lemma marker_brace line :
  is_block_marker line = true → ∃ r, line = String "{" r.
Proof.
  destruct line as [|c r]; [done|]. unfold is_block_marker.
  cbn [String.prefix]. destruct (ascii_dec "{" c) as [<-|]; [eauto|done].
Qed.

Lemma eat_block_marker line :
  is_block_marker line = true →
  ∃ rest, eat_block line = Ok rest ∧
          all_chars (λ c, negb (is_eol c)) rest = true.
Proof.
  intros [r ->]%marker_brace. eexists. split; [reflexivity|].
  apply up_to_eol_no_eol.
Qed.

Lemma after_brace_suffix r : ∃ a, r = a +:+ after_brace r.
Proof.
  induction r as [|c r [a IH]]; [by exists ""|]. cbn [after_brace].
  destruct (Ascii.eqb c "}").
  - by exists (String c "").
  - exists (String c a). by rewrite append_cons, <- IH.
Qed.

Lemma up_to_eol_prefix s : ∃ b, s = up_to_eol s +:+ b.
Proof.
  induction s as [|c s [b IH]]; [by exists ""|]. cbn [up_to_eol].
  destruct (Ascii.eqb c LF || Ascii.eqb c CR).
  - by exists (String c s).
  - exists b. by rewrite append_cons, <- IH.
Qed.

(** What [eat_block] leaves of a line stands in the line. *)
Lemma eat_block_within line text :
  eat_block line = Ok text → ∃ a b, line = a +:+ text +:+ b.
Proof.
  destruct line as [|c r]; [done|]. intros H.
  assert (c = "{"%char ∧ text = up_to_eol (after_brace r)) as [-> ->].
  { destruct c as [[] [] [] [] [] [] [] []]; try discriminate H.
    by injection H as <-. }
  destruct (after_brace_suffix r) as [a Ha].
  destruct (up_to_eol_prefix (after_brace r)) as [b Hb].
  exists (String "{" a), b. by rewrite append_cons, <- Hb, <- Ha.
Qed.

Lemma link_of_line_within a text b link :
  link_of_line text link → link_of_line (a +:+ text +:+ b) link.
Proof.
  intros (Hall & pre & o & post & Ho & ->). split; [done|].
  exists (a +:+ pre), o, (post +:+ b). split; [done|].
  by rewrite !append_assoc, !append_cons, !append_assoc, !append_cons.
Qed.

Lemma after_brace_no_brace a rest :
  no_brace a = true → after_brace (a +:+ String "}" rest) = rest.
Proof.
  induction a as [|c a IH]; [done|]. unfold no_brace. cbn [all_chars].
  intros [Hc Ha]%andb_true_iff. rewrite append_cons. cbn [after_brace].
  apply negb_true_iff in Hc as ->. by apply IH.
Qed.

Lemma prefix_append m x : String.prefix m (m +:+ x) = true.
Proof.
  induction m as [|c m IH]; [by destruct x|]. rewrite append_cons.
  cbn [String.prefix]. by destruct (ascii_dec c c).
Qed.

Lemma prefix_marker_rest m m' x y :
  m ∈ BLOCK_MARKERS → m' ∈ BLOCK_MARKERS →
  String.prefix m' (m +:+ x) = String.prefix m' (m +:+ y).
Proof.
  intros Hm Hm'. destruct (decide (m' = m)) as [->|Hne].
  { by rewrite !prefix_append. }
  unfold BLOCK_MARKERS in *.
  repeat (apply elem_of_cons in Hm as [->|Hm]);
    [| | | |by apply elem_of_nil in Hm];
    (repeat (apply elem_of_cons in Hm' as [->|Hm']);
     [| | | |by apply elem_of_nil in Hm']); try done; reflexivity.
Qed.

Lemma eat_block_marker_braces m a rest :
  m ∈ BLOCK_MARKERS → no_brace a = true →
  eat_block (m +:+ a +:+ "}" +:+ rest) = Ok (up_to_eol rest).
Proof.
  intros Hm Ha. unfold BLOCK_MARKERS in Hm.
  change ("}" +:+ rest) with (String "}" rest).
  repeat (apply elem_of_cons in Hm as [->|Hm]);
    [| | | |by apply elem_of_nil in Hm];
    rewrite !append_cons; change ("" +:+ ?x) with x;
    cbn [eat_block after_brace];
    repeat match goal with
           | |- context [Ascii.eqb ?c "}"] =>
               lazymatch c with
               | Ascii _ _ _ _ _ _ _ _ =>
                   change (Ascii.eqb c "}") with false
               end
           end;
    cbv iota; by rewrite after_brace_no_brace.
Qed.

Section BlockFacts.

Local Set Default Proof Using "Type".

Context (ent_encode : string → string) (url_parse : string → option Url)
  (url_format : Url → string).

Local Arguments String.append : simpl never.
Local Arguments String.prefix : simpl never.
Local Arguments format_panel_open : simpl never.
Local Arguments parse_jira_markup : simpl never.

Lemma block_tag_piece x : x ∈ BLOCK_TAGS → block_piece ent_encode url_parse x.
Proof. by left. Qed.

Ltac block_tag :=
  solve [ unfold BLOCK_TAGS;
          repeat first [apply list_elem_of_here | apply list_elem_of_further] ].

Lemma sc_put_ok x st :
  block_piece ent_encode url_parse x → scanner_ok ent_encode url_parse st → scanner_ok ent_encode url_parse (sc_put x st).
Proof.
  intros Hx [(ps & Ho & Hps) Hc]. split; [|done].
  exists (ps ++ [x]). simpl. rewrite join_snoc, Ho. split; [done|].
  apply Forall_app. split; [done|]. by apply Forall_singleton.
Qed.

Lemma sc_puts_ok xs st :
  Forall (block_piece ent_encode url_parse) xs → scanner_ok ent_encode url_parse st →
  scanner_ok ent_encode url_parse (sc_put (join xs) st).
Proof.
  intros Hx [(ps & Ho & Hps) Hc]. split; [|done].
  exists (ps ++ xs). simpl. rewrite join_app, Ho. split; [done|].
  by apply Forall_app.
Qed.

Lemma sc_set_ps_ok ps logs st : scanner_ok ent_encode url_parse st → scanner_ok ent_encode url_parse (sc_set_ps ps logs st).
Proof. by intros [Ho Hc]. Qed.

Lemma sc_note_heading_ok st : scanner_ok ent_encode url_parse st → scanner_ok ent_encode url_parse (sc_note_heading st).
Proof. by intros [Ho Hc]. Qed.

Lemma block_marker_ok line st :
  is_block_marker line = true → scanner_ok ent_encode url_parse st →
  ∃ line' st', block_marker line st = Ok (line', st') ∧ scanner_ok ent_encode url_parse st' ∧
               all_chars (λ c, negb (is_eol c)) line' = true ∧
               (line' = "" ∨ eat_block line = Ok line').
Proof.
  intros Hm Hst. destruct (eat_block_marker line Hm) as (rest & Hr & Hrest).
  unfold block_marker. rewrite Hr.
  set (st1 := match ps_list (sc_ps st) with Some _ => _ | None => st end).
  assert (H1 : scanner_ok ent_encode url_parse st1).
  { unfold st1. destruct (ps_list (sc_ps st)); [|done].
    apply sc_put_ok; [apply block_tag_piece; block_tag|].
    by apply sc_set_ps_ok. }
  clearbody st1. clear Hst st. destruct H1 as [Ho Hc].
  destruct st1 as [out lwh fmton nlb pm ps cl lg]. simpl in *.
  destruct fmton.
  - destruct cl as [cl|]; [|done]. simpl.
    eexists _, _. split; [reflexivity|]. split; [|by auto]. split; [|done].
    destruct Ho as (pieces & -> & Hp). exists (pieces ++ [cl]). simpl.
    rewrite join_snoc. split; [done|]. apply Forall_app.
    split; [done|]. apply Forall_singleton. by left.
  - unfold is_block_marker in Hm.
    assert (Hput : ∀ x, x ∈ BLOCK_TAGS →
      ∃ pieces, out +:+ x = join pieces ∧
                Forall (block_piece ent_encode url_parse) pieces).
    { intros x Hx. destruct Ho as (pieces & -> & Hp). exists (pieces ++ [x]).
      rewrite join_snoc. split; [done|]. apply Forall_app.
      split; [done|]. apply Forall_singleton. by left. }
    destruct (String.prefix "{quote" line); simpl.
    { eexists _, _. split; [reflexivity|]. split; [|by auto].
      split; simpl; [apply Hput|]; block_tag. }
    destruct (String.prefix "{panel" line); simpl.
    { eexists _, _. split; [reflexivity|]. split; [|by auto].
      split; simpl; [apply Hput|]; block_tag. }
    destruct (String.prefix "{noformat" line); simpl.
    { eexists _, _. split; [reflexivity|]. split; [|by auto].
      split; simpl; [apply Hput|]; block_tag. }
    destruct (String.prefix "{code" line); simpl; [|done].
    { eexists _, _. split; [reflexivity|]. split; [|by auto].
      split; simpl; [apply Hput|]; block_tag. }
Qed.

Lemma process_line_ok line st :
  scanner_ok ent_encode url_parse st →
  match process_line ent_encode url_parse url_format line st with
  | Ok st' => scanner_ok ent_encode url_parse st'
  | Throw e =>
      parse_jira_markup ent_encode url_parse url_format line (sc_ps st)
        = Throw e
  end.
Proof.
  intros Hst. unfold process_line.
  assert (Hbr : ∀ st1, scanner_ok ent_encode url_parse st1 →
    scanner_ok ent_encode url_parse (if sc_fmton st1
        then sc_put (if sc_newline_br st1 then "<br>" +:+ nl else nl) st1
        else if bool_decide (ps_heading (sc_ps st1) = None) &&
                negb (sc_last_was_heading st1)
             then sc_put ("<br>" +:+ nl) st1 else st1)).
  { intros st1 H1. destruct (sc_fmton st1).
    - apply sc_put_ok; [|done]. apply block_tag_piece.
      destruct (sc_newline_br st1); block_tag.
    - destruct (_ && _); [|done].
      apply sc_put_ok; [|done]. apply block_tag_piece. block_tag. }
  destruct (sc_parse_markup st).
  - destruct (parse_jira_markup _ _ _ line (sc_ps st))
      as [[[html ps] logs]|e] eqn:Hp.
    + cbn [mbind result_bind]. apply Hbr.
      destruct (run_from_pieces _ _ _ _ _ _ _ _ (init_pieces_ok _ _ _) Hp)
        as (pieces & -> & Hpieces).
      apply sc_puts_ok; [|by apply sc_set_ps_ok].
      eapply Forall_impl; [exact Hpieces|]. intros x Hx. by right.
    + done.
  - cbn [mbind result_bind]. apply Hbr.
    apply sc_put_ok; [|done]. right. right. left. eauto.
Qed.

(** What the converter raises on a line without line feed, in the words
    of the scanner. *)
Lemma raise_cause_scan line e :
  raise_cause url_parse line e →
  all_chars (λ c, negb (Ascii.eqb c LF)) line = true →
  (e = AssertionError "c" ∧ ∃ i, String.get i line = Some CR) ∨
  (e = TypeError ∧
   ∃ link url, link_of_line line link ∧ url_parse (trim link) = Some url ∧
               SUBS (hostname url) = SubsInheritedFunction).
Proof.
  intros [i c Hget [-> | ->]|link url Hl Hu Hs] Hline.
  - pose proof (all_chars_get _ _ _ _ Hline Hget) as H. done.
  - left. eauto.
  - right. split; [done|]. by exists link, url.
Qed.

Lemma no_eol_no_LF line :
  all_chars (λ c, negb (is_eol c)) line = true →
  all_chars (λ c, negb (Ascii.eqb c LF)) line = true.
Proof.
  induction line as [|c l IH]; [done|]. simpl.
  intros [Hc Hl]%andb_true_iff. rewrite IH by done.
  unfold is_eol in Hc. apply negb_true_iff, orb_false_iff in Hc as [-> _].
  done.
Qed.

Lemma scan_line_ok line st :
  all_chars (λ c, negb (Ascii.eqb c LF)) line = true → scanner_ok ent_encode url_parse st →
  match scan_line ent_encode url_parse url_format line st with
  | Ok st' => scanner_ok ent_encode url_parse st'
  | Throw e =>
      ∃ text ps, handed_on line text ∧
        parse_jira_markup ent_encode url_parse url_format text ps = Throw e ∧
        scan_raise_cause url_parse line e
  end.
Proof.
  intros Hline Hst. unfold scan_line, handed_on.
  destruct (is_block_marker line) eqn:Hm.
  - destruct (block_marker_ok line st Hm Hst)
      as (line' & st' & -> & Hst' & Hl & Heat).
    simpl. case_bool_decide as Hempty; simpl.
    + by apply sc_note_heading_ok.
    + destruct Heat as [->|Heat]; [done|].
      pose proof (process_line_ok line' st' Hst') as H.
      destruct (process_line _ _ _ line' st') as [st2|e]; simpl.
      * by apply sc_note_heading_ok.
      * exists line', (sc_ps st'). split_and!; [done..|].
        apply parse_Throw_cause, raise_cause_scan in H
          as [(_ & i & Hi)|(-> & link & url & Hlink & Hu & Hs)];
          [| |by apply no_eol_no_LF].
        -- pose proof (all_chars_get _ _ _ _ Hl Hi) as Hc. done.
        -- right. split; [done|]. exists link, url. split; [|done].
           destruct (eat_block_within _ _ Heat) as (a & b & ->).
           by apply link_of_line_within.
  - simpl. pose proof (process_line_ok line st Hst) as H.
    destruct (process_line _ _ _ line st) as [st2|e]; simpl.
    + by apply sc_note_heading_ok.
    + exists line, (sc_ps st). split_and!; [done..|].
      apply parse_Throw_cause, raise_cause_scan in H as [(-> & H)|H];
        [by left|by right|done].
Qed.

Lemma scan_lines_ok lines st :
  Forall (λ l, all_chars (λ c, negb (Ascii.eqb c LF)) l = true) lines → scanner_ok ent_encode url_parse st →
  match scan_lines ent_encode url_parse url_format lines st with
  | Ok st' => scanner_ok ent_encode url_parse st'
  | Throw e =>
      ∃ line text ps, line ∈ lines ∧ handed_on line text ∧
        parse_jira_markup ent_encode url_parse url_format text ps = Throw e ∧
        scan_raise_cause url_parse line e
  end.
Proof.
  intros Hl. revert st. induction Hl as [|line lines Hline Hlines IH]; intros st Hst.
  - done.
  - simpl. pose proof (scan_line_ok line st Hline Hst) as H.
    destruct (scan_line _ _ _ line st) as [st1|e]; simpl.
    + specialize (IH st1 H). destruct (scan_lines _ _ _ lines st1); [done|].
      destruct IH as (l & text & ps & Hin & Hc). exists l, text, ps.
      split; [by right|done].
    + destruct H as (text & ps & H). exists line, text, ps.
      split; [by left|done].
Qed.

(** The scanner reads of a line with a block marker which marker it is
    and what [eat_block] leaves of it, and nothing else. *)
Lemma scan_line_marker l l' st :
  is_block_marker l = true →
  (∀ m, m ∈ BLOCK_MARKERS → String.prefix m l = String.prefix m l') →
  eat_block l = eat_block l' →
  scan_line ent_encode url_parse url_format l st =
  scan_line ent_encode url_parse url_format l' st.
Proof.
  intros Hm Hpre Heat.
  assert (Hm' : is_block_marker l' = true).
  { revert Hm. unfold is_block_marker.
    rewrite !Hpre by (unfold BLOCK_MARKERS; set_solver). done. }
  unfold scan_line. rewrite Hm, Hm'. f_equal. unfold block_marker.
  rewrite Heat, !Hpre by (unfold BLOCK_MARKERS; set_solver).
  unfold is_block_marker in Hm'.
  destruct (sc_fmton _); [done|].
  destruct (String.prefix "{quote" l'); [done|].
  destruct (String.prefix "{panel" l'); [done|].
  destruct (String.prefix "{noformat" l'); [done|].
  by destruct (String.prefix "{code" l').
Qed.

Lemma scan_line_same_marker l l' st :
  same_marker l l' →
  scan_line ent_encode url_parse url_format l st =
  scan_line ent_encode url_parse url_format l' st.
Proof.
  intros [->|(m & a & a' & rest & Hm & Ha & Ha' & -> & ->)]; [done|].
  apply scan_line_marker.
  - assert (H : String.prefix m (m +:+ a +:+ "}" +:+ rest) = true)
      by apply prefix_append.
    unfold is_block_marker, BLOCK_MARKERS in *.
    repeat (apply elem_of_cons in Hm as [->|Hm]);
      [| | | |by apply elem_of_nil in Hm];
      rewrite H; by rewrite ?orb_true_r.
  - intros m' Hm'. by apply prefix_marker_rest.
  - by rewrite !eat_block_marker_braces.
Qed.

Lemma scan_lines_same_marker ls ls' :
  Forall2 same_marker ls ls' → ∀ st,
  scan_lines ent_encode url_parse url_format ls st =
  scan_lines ent_encode url_parse url_format ls' st.
Proof.
  induction 1 as [|l l' ls ls' Hl Hls IH]; intros st; [done|].
  cbn [scan_lines]. rewrite (scan_line_same_marker l l' st Hl).
  destruct (scan_line _ _ _ l' st); [apply IH|done].
Qed.

Lemma scanner_init_ok : scanner_ok ent_encode url_parse scanner_init.
Proof. split; [|done]. exists []. by split. Qed.

(** X17: [format_markup_fallback] raises only
    what [parse_jira_markup] raises on one of the lines of the text, or on
    what [eat_block] leaves of a line with a block marker: the assertion
    failure, for a carriage return in a line without block marker, or the
    [TypeError] of a link that stands in the line.  The assertion on
    [closing] never fails, and [eat_block] does not raise on a line with a
    block marker. *)
Theorem fallback_raises_only :
  (∀ desc e,
     format_markup_fallback ent_encode url_parse url_format desc = Throw e →
     ∃ line text ps,
       line ∈ split_lines desc ∧ handed_on line text ∧
       parse_jira_markup ent_encode url_parse url_format text ps = Throw e ∧
       scan_raise_cause url_parse line e) ∧
  (∀ line, is_block_marker line = true → ∃ text, eat_block line = Ok text).
Proof.
  split.
  - intros desc e. unfold format_markup_fallback.
    pose proof (scan_lines_ok _ _ (split_lines_no_LF desc) scanner_init_ok)
      as H.
    destruct (scan_lines _ _ _ _ _); [done|]. by intros [= <-].
  - intros line Hm. destruct (eat_block_marker line Hm) as (text & Ht & _).
    eauto.
Qed.

(** X18: the HTML that
    [format_markup_fallback] returns is a concatenation of tags of the
    scanner and of the pieces that [parse_jira_markup] puts out: the
    characters of the text reach the output entity-encoded only.  What
    stands in the braces of a block marker does not reach it at all: two
    texts whose lines differ in that only are rendered alike. *)
Theorem fallback_output_escaped :
  (∀ desc html logs,
     format_markup_fallback ent_encode url_parse url_format desc
       = Ok (html, logs) →
     ∃ pieces, html = join pieces ∧
               Forall (block_piece ent_encode url_parse) pieces) ∧
  (∀ desc desc',
     Forall2 same_marker (split_lines desc) (split_lines desc') →
     format_markup_fallback ent_encode url_parse url_format desc =
     format_markup_fallback ent_encode url_parse url_format desc').
Proof.
  split.
  - intros desc html logs. unfold format_markup_fallback.
    pose proof (scan_lines_ok _ _ (split_lines_no_LF desc) scanner_init_ok)
      as H.
    destruct (scan_lines _ _ _ _ _) as [st|]; [|done]. simpl.
    intros [= <- <-].
    destruct H as [(pieces & Ho & Hp) Hc]. unfold scanner_finish.
    destruct (sc_closing st) as [cl|]; [|eauto].
    exists (pieces ++ [cl]). rewrite join_snoc, Ho. split; [done|].
    apply Forall_app. split; [done|]. apply Forall_singleton. by left.
  - intros desc desc' H. unfold format_markup_fallback.
    by rewrite (scan_lines_same_marker _ _ H).
Qed.

End BlockFacts.

Lemma scan_lines_app (ent_encode : string → string)
  (url_parse : string → option Url) (url_format : Url → string)
  (a b : list string) (st : scanner) :
  scan_lines ent_encode url_parse url_format (a ++ b) st =
  scan_lines ent_encode url_parse url_format a st ≫=
  scan_lines ent_encode url_parse url_format b.
Proof.
  revert st. induction a as [|l a IH]; intros st; [done|].
  simpl. destruct (scan_line _ _ _ l st); [apply IH|done].
Qed.

Lemma prefix_other (c a b : ascii) (s t line : string) :
  a ≠ b → String.prefix (String c (String a s)) line = true →
  String.prefix (String c (String b t)) line = false.
Proof.
  intros Hab. destruct line as [|c0 [|c1 r]]; cbn [String.prefix].
  - done.
  - by destruct (ascii_dec c c0).
  - destruct (ascii_dec c c0); [|done].
    destruct (ascii_dec a c1) as [<-|]; [|done].
    by destruct (ascii_dec b a) as [->|].
Qed.

Lemma skip_spaces_split l :
  l = repeat_char " " (count_spaces l) +:+ skip_spaces l.
Proof.
  induction l as [|c l IH]; [done|]. cbn [skip_spaces count_spaces].
  destruct (Ascii.eqb_spec c " ") as [->|]; [|done].
  cbn [repeat_char]. by rewrite append_cons, <- IH.
Qed.

Section BlockRuns.

Local Set Default Proof Using "Type".

Context (ent_encode : string → string) (url_parse : string → option Url)
  (url_format : Url → string).

Local Arguments String.append : simpl never.
Local Arguments String.prefix : simpl never.
Local Arguments format_panel_open : simpl never.
Local Arguments parse_jira_markup : simpl never.
Local Arguments bool_decide : simpl never.

Lemma heading_flag_None : bool_decide (@None string ≠ None) = false.
Proof. reflexivity. Qed.

Lemma heading_test_None : bool_decide (@None string = None) = true.
Proof. reflexivity. Qed.

(** Evaluates the updates of the variables of the scanner. *)
Ltac eval_scanner :=
  repeat first
    [ progress
        cbv [sc_put sc_block sc_close sc_set_ps sc_toggle sc_note_heading
             line_end list_closed sc_out sc_last_was_heading sc_fmton
             sc_newline_br sc_parse_markup sc_ps sc_closing sc_log ps_list
             ps_heading ps0 scanner_init scanner_finish negb andb orb] in *
    | rewrite heading_test_None
    | rewrite heading_flag_None
    | rewrite app_nil_r ].

(** A line of plain text is converted to its entity encoding. *)
Lemma parse_plain l :
  is_plain_line l = true →
  parse_jira_markup ent_encode url_parse url_format l ps0
  = Ok (plain_html ent_encode l, ps0, []).
Proof.
  unfold is_plain_line, plain_html. intros [_ H]%andb_true_iff.
  rewrite (skip_spaces_split l) at 1.
  destruct (skip_spaces l) as [|c r] eqn:Hb.
  - rewrite append_empty_r. apply parse_blank_line.
  - apply andb_true_iff in H as [Hbody Hh%negb_true_iff].
    rewrite (parse_text_line ent_encode url_parse url_format
               (count_spaces l) (String c r) ps0 Hbody).
    + rewrite <- Hb, <- skip_spaces_split.
      by destruct (count_spaces l =? 0).
    + intros Hn _. rewrite (skip_spaces_split l), Hn, Hb in Hh. exact Hh.
Qed.

Lemma scan_plain_line l st :
  is_plain_line l = true → sc_parse_markup st = true → sc_ps st = ps0 →
  sc_last_was_heading st = false →
  scan_line ent_encode url_parse url_format l st
  = Ok (sc_put (plain_html ent_encode l +:+ line_end st) st).
Proof.
  intros Hl Hpm Hps Hlwh. unfold scan_line, process_line, line_end.
  assert (Hm : is_block_marker l = false).
  { apply andb_true_iff in Hl as [Hm _]. by apply negb_true_iff. }
  rewrite Hm. cbn [mbind result_bind orb]. rewrite Hpm, Hps, parse_plain by done.
  cbn [mbind result_bind].
  destruct st as [out lwh fmton nlb pm ps cl lg].
  cbn [sc_parse_markup sc_ps sc_last_was_heading] in Hpm, Hps, Hlwh. subst.
  destruct fmton, nlb; eval_scanner; by rewrite append_assoc.
Qed.

Lemma scan_plain_lines ls st :
  Forall (λ l, is_plain_line l = true) ls → sc_parse_markup st = true →
  sc_ps st = ps0 → sc_last_was_heading st = false →
  scan_lines ent_encode url_parse url_format ls st
  = Ok (sc_put (join ((λ l, plain_html ent_encode l +:+ line_end st) <$> ls))
          st).
Proof.
  intros Hls. revert st. induction Hls as [|l ls Hl Hls IH]; intros st Hpm Hps Hlwh.
  - simpl. destruct st. eval_scanner. by rewrite append_empty_r.
  - simpl. rewrite scan_plain_line by done. cbn [mbind result_bind].
    rewrite IH by done. destruct st. eval_scanner. simpl.
    by rewrite append_assoc.
Qed.

(** The lines of a literal block are entity encoded. *)
Lemma scan_literal_lines ls st :
  Forall (λ l, is_block_marker l = false) ls → sc_parse_markup st = false →
  sc_fmton st = true → sc_newline_br st = false →
  sc_last_was_heading st = bool_decide (ps_heading (sc_ps st) ≠ None) →
  scan_lines ent_encode url_parse url_format ls st
  = Ok (sc_put (join ((λ l, ent_encode l +:+ nl) <$> ls)) st).
Proof.
  intros Hls. revert st.
  induction Hls as [|l ls Hl Hls IH]; intros st Hpm Hf Hn Hlwh.
  - simpl. destruct st. eval_scanner. by rewrite append_empty_r.
  - simpl. unfold scan_line, process_line. rewrite Hl.
    cbn [mbind result_bind orb]. rewrite Hpm. cbn [mbind result_bind].
    replace (sc_fmton (sc_put (ent_encode l) st)) with true by done.
    replace (sc_newline_br (sc_put (ent_encode l) st)) with false by done.
    rewrite IH by done. destruct st. eval_scanner. simpl.
    rewrite <- Hlwh. by rewrite !append_assoc.
Qed.

Lemma empty_test : bool_decide (EmptyString = EmptyString) = true.
Proof. reflexivity. Qed.

(** The line that closes a block: what follows the marker is dropped. *)
Lemma scan_closer closer closing st :
  is_block_marker closer = true → sc_fmton st = true →
  sc_closing st = Some closing → ps_list (sc_ps st) = None →
  scan_line ent_encode url_parse url_format closer st
  = Ok {| sc_out := sc_out st +:+ closing;
          sc_last_was_heading := bool_decide (ps_heading (sc_ps st) ≠ None);
          sc_fmton := false; sc_newline_br := sc_newline_br st;
          sc_parse_markup := true; sc_ps := sc_ps st; sc_closing := None;
          sc_log := sc_log st |}.
Proof.
  intros Hm Hf Hc Hl. unfold scan_line, block_marker. rewrite Hm, Hl, Hf, Hc.
  cbn [mbind result_bind orb]. rewrite empty_test.
  cbn [negb mbind result_bind]. destruct st as [out lwh fmton nlb pm ps cl lg].
  cbn [sc_fmton] in Hf. subst fmton. eval_scanner. reflexivity.
Qed.

(** The line that opens a block whose lines are converted, when nothing
    follows the marker. *)
Lemma scan_markup_opener marker opening br closing opener st :
  (marker, opening, br, closing) ∈ MARKUP_BLOCKS →
  String.prefix marker opener = true → eat_block opener = Ok EmptyString →
  sc_fmton st = false → ps_heading (sc_ps st) = None →
  scan_line ent_encode url_parse url_format opener st
  = Ok {| sc_out := sc_out st +:+ list_closed st +:+ opening;
          sc_last_was_heading := false; sc_fmton := true;
          sc_newline_br := br; sc_parse_markup := true; sc_ps := ps0;
          sc_closing := Some closing; sc_log := sc_log st |}.
Proof.
  intros Hin Hp Hr Hf Hh. unfold scan_line, block_marker, is_block_marker.
  destruct st as [out lwh fmton nlb pm [pl ph] cl lg].
  cbn [sc_fmton sc_ps ps_heading] in Hf, Hh. subst fmton ph.
  cbn [sc_ps ps_list].
  apply list_elem_of_In in Hin. cbn [In MARKUP_BLOCKS] in Hin.
  destruct Hin as [[= <- <- <- <-]|[[= <- <- <- <-]|[]]].
  - rewrite Hp, !orb_true_r, Hr.
    destruct pl; cbn [sc_fmton sc_put sc_set_ps mbind result_bind orb];
      rewrite empty_test; cbn [negb mbind result_bind list_closed];
      eval_scanner; by rewrite ?append_assoc.
  - rewrite (prefix_other "{" "p" "q" "anel" "uote" opener) by done.
    rewrite Hp, !orb_true_r, Hr.
    destruct pl; cbn [sc_fmton sc_put sc_set_ps mbind result_bind orb];
      rewrite empty_test; cbn [negb mbind result_bind list_closed];
      eval_scanner; by rewrite ?append_assoc.
Qed.

(** The line that opens a literal block. *)
Lemma scan_literal_opener marker kind opener rest st :
  (marker, kind) ∈ LITERAL_BLOCKS →
  String.prefix marker opener = true → eat_block opener = Ok rest →
  sc_fmton st = false →
  scan_line ent_encode url_parse url_format opener st
  = Ok {| sc_out := sc_out st +:+ list_closed st +:+
                    format_panel_open [kind; "panel"] +:+ "<pre>" +:+ nl +:+
                    literal_lines ent_encode rest [];
          sc_last_was_heading := bool_decide (ps_heading (sc_ps st) ≠ None);
          sc_fmton := true; sc_newline_br := false;
          sc_parse_markup := false;
          sc_ps := {| ps_list := None; ps_heading := ps_heading (sc_ps st) |};
          sc_closing := Some ("</pre></div></div>" +:+ nl);
          sc_log := sc_log st |}.
Proof.
  intros Hin Hp Hr Hf. unfold scan_line, block_marker, is_block_marker.
  destruct st as [out lwh fmton nlb pm [pl ph] cl lg].
  cbn [sc_fmton] in Hf. subst fmton.
  cbn [sc_ps ps_list].
  unfold literal_lines. cbn [fmap list_fmap join foldr].
  apply list_elem_of_In in Hin. cbn [In LITERAL_BLOCKS] in Hin.
  destruct Hin as [[= <- <-]|[[= <- <-]|[]]].
  - rewrite (prefix_other "{" "n" "q" "oformat" "uote" opener) by done.
    rewrite (prefix_other "{" "n" "p" "oformat" "anel" opener) by done.
    rewrite Hp, Hr. unfold process_line.
    destruct pl; cbn [sc_fmton sc_put sc_set_ps mbind result_bind orb];
      case_bool_decide as He;
      cbn [negb mbind result_bind list_closed sc_parse_markup sc_block
           sc_toggle sc_put sc_set_ps];
      eval_scanner; by rewrite ?append_assoc, ?append_empty_r.
  - rewrite (prefix_other "{" "c" "q" "ode" "uote" opener) by done.
    rewrite (prefix_other "{" "c" "p" "ode" "anel" opener) by done.
    rewrite (prefix_other "{" "c" "n" "ode" "oformat" opener) by done.
    rewrite Hp, Hr. unfold process_line.
    destruct pl; cbn [sc_fmton sc_put sc_set_ps mbind result_bind orb];
      case_bool_decide as He;
      cbn [negb mbind result_bind list_closed sc_parse_markup sc_block
           sc_toggle sc_put sc_set_ps];
      eval_scanner; by rewrite ?append_assoc, ?append_empty_r.
Qed.

Lemma prefix_marker marker opener :
  marker ∈ ["{noformat"; "{code"; "{panel"; "{quote"] →
  String.prefix marker opener = true → is_block_marker opener = true.
Proof.
  intros Hin Hp. unfold is_block_marker.
  apply list_elem_of_In in Hin. cbn [In] in Hin.
  destruct Hin as [<-|[<-|[<-|[<-|[]]]]]; rewrite Hp;
    by rewrite ?orb_true_r.
Qed.

(** X19: the lines between a [noformat] or
    [code] marker and the next block marker are put out entity-encoded,
    each followed by a line feed, inside the panel and [<pre>]: nothing
    in them is read as markup and nothing raises.  Any of the four markers
    closes the block, and what follows it on its line is dropped.  A block
    that the text does not close is closed at its end. *)
Theorem literal_block_rendered marker kind opener rest body :
  (marker, kind) ∈ LITERAL_BLOCKS →
  String.prefix marker opener = true → eat_block opener = Ok rest →
  Forall (λ l, is_block_marker l = false) body →
  (∀ closer st, is_block_marker closer = true → sc_fmton st = false →
     scan_lines ent_encode url_parse url_format (opener :: body ++ [closer]) st
     = Ok {| sc_out := sc_out st +:+ list_closed st +:+
                       format_panel_open [kind; "panel"] +:+ "<pre>" +:+ nl
                       +:+ literal_lines ent_encode rest body +:+
                       "</pre></div></div>" +:+ nl;
             sc_last_was_heading :=
               bool_decide (ps_heading (sc_ps st) ≠ None);
             sc_fmton := false; sc_newline_br := false;
             sc_parse_markup := true;
             sc_ps := {| ps_list := None;
                         ps_heading := ps_heading (sc_ps st) |};
             sc_closing := None; sc_log := sc_log st |}) ∧
  (∀ desc, split_lines desc = opener :: body →
     format_markup_fallback ent_encode url_parse url_format desc
     = Ok (format_panel_open [kind; "panel"] +:+ "<pre>" +:+ nl +:+
           literal_lines ent_encode rest body +:+
           "</pre></div></div>" +:+ nl, [])).
Proof.
  intros Hin Hp Hr Hbody.
  assert (Hrun : ∀ st, sc_fmton st = false →
    scan_lines ent_encode url_parse url_format (opener :: body) st
    = Ok {| sc_out := sc_out st +:+ list_closed st +:+
                      format_panel_open [kind; "panel"] +:+ "<pre>" +:+ nl
                      +:+ literal_lines ent_encode rest body;
            sc_last_was_heading := bool_decide (ps_heading (sc_ps st) ≠ None);
            sc_fmton := true; sc_newline_br := false;
            sc_parse_markup := false;
            sc_ps := {| ps_list := None;
                        ps_heading := ps_heading (sc_ps st) |};
            sc_closing := Some ("</pre></div></div>" +:+ nl);
            sc_log := sc_log st |}).
  { intros st Hf. cbn [scan_lines].
    rewrite (scan_literal_opener marker kind opener rest st) by done.
    cbn [mbind result_bind]. rewrite scan_literal_lines by done.
    unfold literal_lines. cbn [fmap list_fmap join foldr].
    eval_scanner. by rewrite ?append_assoc, ?append_empty_r. }
  split.
  - intros closer st Hc Hf.
    change (opener :: body ++ [closer]) with ((opener :: body) ++ [closer]).
    rewrite scan_lines_app, Hrun by done. clear Hrun.
    cbn [mbind result_bind scan_lines].
    erewrite scan_closer by done. cbn [mbind result_bind].
    eval_scanner. by rewrite ?append_assoc.
  - intros desc Hd. unfold format_markup_fallback.
    rewrite Hd, Hrun by done. clear Hrun. cbn [mbind result_bind].
    eval_scanner. rewrite ?append_assoc. reflexivity.
Qed.

(** X20: a [quote] block of plain lines is put
    out between [<blockquote>] and [</blockquote>] with a break after each
    line; a [panel] block between the two [<div>] of the panel and their
    closing tags, with a line feed only after each line.  What stands in
    the braces of the opening marker is not put out. *)
Theorem markup_block_rendered (marker opening : string) (br : bool)
  (closing opener : string) (body : list string) (closer : string)
  (st : scanner) :
  (marker, opening, br, closing) ∈ MARKUP_BLOCKS →
  String.prefix marker opener = true → eat_block opener = Ok EmptyString →
  Forall (λ l, is_plain_line l = true) body →
  is_block_marker closer = true →
  sc_fmton st = false → ps_heading (sc_ps st) = None →
  scan_lines ent_encode url_parse url_format (opener :: body ++ [closer]) st
  = Ok {| sc_out := sc_out st +:+ list_closed st +:+ opening +:+
                    join ((λ l, plain_html ent_encode l +:+
                                (if br then "<br>" +:+ nl else nl)) <$> body)
                    +:+ closing;
          sc_last_was_heading := false; sc_fmton := false;
          sc_newline_br := br; sc_parse_markup := true; sc_ps := ps0;
          sc_closing := None; sc_log := sc_log st |}.
Proof.
  intros Hin Hp Hr Hbody Hc Hf Hh. cbn [scan_lines].
  rewrite (scan_markup_opener marker opening br closing opener st) by done.
  cbn [mbind result_bind]. rewrite scan_lines_app.
  rewrite scan_plain_lines by done. cbn [mbind result_bind scan_lines].
  erewrite scan_closer by done. cbn [mbind result_bind].
  eval_scanner. destruct br; by rewrite ?append_assoc.
Qed.

(** X21: a text of plain lines is rendered line
    by line: each line is entity-encoded, leading spaces included, and
    followed by a break; a blank line gives the break alone. *)
Theorem plain_text_rendered desc :
  Forall (λ l, is_plain_line l = true) (split_lines desc) →
  format_markup_fallback ent_encode url_parse url_format desc
  = Ok (join ((λ l, plain_html ent_encode l +:+ "<br>" +:+ nl)
              <$> split_lines desc), []).
Proof.
  intros Hl. unfold format_markup_fallback.
  rewrite scan_plain_lines by done. cbn [mbind result_bind].
  eval_scanner. reflexivity.
Qed.

End BlockRuns.

(** ** The properties of the block scanner at concrete texts *)

Lemma fallback_raises_only_witness :
  format_markup_fallback ent_encode_model url_parse_model url_format_model
    ex_text_cr = Throw (AssertionError "c") ∧
  format_markup_fallback ent_encode_model url_parse_constructor
    url_format_model ex_text_link = Throw TypeError ∧
  (∃ line text ps,
     line ∈ split_lines ex_text_cr ∧ handed_on line text ∧
     parse_jira_markup ent_encode_model url_parse_model url_format_model
       text ps = Throw (AssertionError "c") ∧
     scan_raise_cause url_parse_model line (AssertionError "c")) ∧
  (∃ line text ps,
     line ∈ split_lines ex_text_link ∧ handed_on line text ∧
     parse_jira_markup ent_encode_model url_parse_constructor
       url_format_model text ps = Throw TypeError ∧
     scan_raise_cause url_parse_constructor line TypeError) ∧
  ∃ text, eat_block "{quote:q} see [x]" = Ok text.
Proof.
  split; [reflexivity|]. split; [reflexivity|].
  destruct (fallback_raises_only ent_encode_model url_parse_model
              url_format_model) as [H1 H2].
  destruct (fallback_raises_only ent_encode_model url_parse_constructor
              url_format_model) as [H3 _].
  split_and!.
  - apply (H1 ex_text_cr (AssertionError "c")). reflexivity.
  - apply (H3 ex_text_link TypeError). reflexivity.
  - apply (H2 "{quote:q} see [x]"). reflexivity.
Defined.

Lemma fallback_output_escaped_witness :
  format_markup_fallback ent_encode_model url_parse_model url_format_model
    ex_text_code
  = Ok (format_panel_open ["code"; "panel"] +:+ "<pre>" +:+ nl +:+
        "&lt;b&gt; [x]" +:+ nl +:+ "</pre></div></div>" +:+ nl +:+
        "a <b>b</b><br>" +:+ nl, []) ∧
  (∃ pieces,
     format_panel_open ["code"; "panel"] +:+ "<pre>" +:+ nl +:+
     "&lt;b&gt; [x]" +:+ nl +:+ "</pre></div></div>" +:+ nl +:+
     "a <b>b</b><br>" +:+ nl = join pieces ∧
     Forall (block_piece ent_encode_model url_parse_model) pieces) ∧
  Forall2 same_marker (split_lines ex_text_code)
    (split_lines ex_text_code_plain) ∧
  format_markup_fallback ent_encode_model url_parse_model url_format_model
    ex_text_code
  = format_markup_fallback ent_encode_model url_parse_model url_format_model
      ex_text_code_plain.
Proof.
  assert (Hsame : Forall2 same_marker (split_lines ex_text_code)
                    (split_lines ex_text_code_plain)).
  { assert (Hcode : "{code" ∈ BLOCK_MARKERS)
      by apply list_elem_of_further, list_elem_of_here.
    constructor; [right; by exists "{code", ":java", "", ""|].
    constructor; [by left|].
    constructor; [right; by exists "{code", "", ":end", ""|].
    constructor; [by left|]. constructor. }
  destruct (fallback_output_escaped ent_encode_model url_parse_model
              url_format_model) as [H1 H2].
  split; [reflexivity|]. split_and!.
  - apply (H1 ex_text_code _ []). reflexivity.
  - exact Hsame.
  - apply (H2 ex_text_code ex_text_code_plain Hsame).
Defined.

Lemma literal_block_rendered_witness :
  scan_lines ent_encode_model url_parse_model url_format_model
    ["{noformat} x"; "<a> [b]"; "{{"; "{quote} tail"] scanner_init
  = Ok {| sc_out := format_panel_open ["preformatted"; "panel"] +:+ "<pre>"
                    +:+ nl +:+ " x" +:+ nl +:+ "&lt;a&gt; [b]" +:+ nl +:+
                    "{{" +:+ nl +:+ "</pre></div></div>" +:+ nl;
          sc_last_was_heading := false; sc_fmton := false;
          sc_newline_br := false; sc_parse_markup := true; sc_ps := ps0;
          sc_closing := None; sc_log := [] |} ∧
  format_markup_fallback ent_encode_model url_parse_model url_format_model
    ex_text_unclosed
  = Ok (format_panel_open ["preformatted"; "panel"] +:+ "<pre>" +:+ nl +:+
        " x" +:+ nl +:+ "a&lt;b" +:+ nl +:+ "</pre></div></div>" +:+ nl, []).
Proof.
  split.
  - assert (Hin : ("{noformat", "preformatted") ∈ LITERAL_BLOCKS)
      by apply list_elem_of_here.
    destruct (literal_block_rendered ent_encode_model url_parse_model
                url_format_model "{noformat" "preformatted" "{noformat} x"
                " x" ["<a> [b]"; "{{"] Hin eq_refl eq_refl) as [H _].
    + repeat constructor.
    + exact (H "{quote} tail" scanner_init eq_refl eq_refl).
  - assert (Hin : ("{noformat", "preformatted") ∈ LITERAL_BLOCKS)
      by apply list_elem_of_here.
    destruct (literal_block_rendered ent_encode_model url_parse_model
                url_format_model "{noformat" "preformatted" "{noformat} x"
                " x" ["a<b"] Hin eq_refl eq_refl) as [_ H].
    + repeat constructor.
    + exact (H ex_text_unclosed eq_refl).
Defined.

Lemma markup_block_rendered_witness :
  scan_lines ent_encode_model url_parse_model url_format_model
    ["{panel:title=T}"; "a < b"; ""; "{panel}"] scanner_init
  = Ok {| sc_out := format_panel_open ["panel"] +:+ nl +:+ "a &lt; b" +:+ nl
                    +:+ nl +:+ "</div></div>" +:+ nl;
          sc_last_was_heading := false; sc_fmton := false;
          sc_newline_br := false; sc_parse_markup := true; sc_ps := ps0;
          sc_closing := None; sc_log := [] |}.
Proof.
  assert (Hin : ("{panel", format_panel_open ["panel"] +:+ nl, false,
                 "</div></div>" +:+ nl) ∈ MARKUP_BLOCKS)
    by (apply list_elem_of_further, list_elem_of_here).
  apply (markup_block_rendered ent_encode_model url_parse_model
           url_format_model "{panel" (format_panel_open ["panel"] +:+ nl)
           false ("</div></div>" +:+ nl) "{panel:title=T}" ["a < b"; ""]
           "{panel}" scanner_init Hin eq_refl eq_refl);
    [repeat constructor|reflexivity|reflexivity|reflexivity].
Defined.

Lemma plain_text_rendered_witness :
  Forall (λ l, is_plain_line l = true) (split_lines ex_text_plain) ∧
  format_markup_fallback ent_encode_model url_parse_model url_format_model
    ex_text_plain
  = Ok ("a &lt; b<br>" +:+ nl +:+ "<br>" +:+ nl +:+ "  c &amp; d<br>" +:+ nl,
        []).
Proof.
  assert (H : Forall (λ l, is_plain_line l = true) (split_lines ex_text_plain))
    by (repeat constructor).
  split; [exact H|].
  exact (plain_text_rendered ent_encode_model url_parse_model
           url_format_model ex_text_plain H).
Defined.
